(** * minilambda: the invocation core (registry, middleware chain, invoker)

    A shallow embedding of the Go packages [core], [registry] and [invoker]
    of minilambda, and the properties of its specification that concern
    them.

    Go code runs against a model of the Go runtime: a clock,
    contexts with a deadline and a cancellation instant, timers, a
    semaphore, a heap of metrics records, and a log.  The type parameters
    [I any, O any] are Section variables; a pointer that may be nil is an
    [option]; a value of the interface [error] is an [option error]; a
    method with a pointer receiver that writes to its receiver returns the
    new value of the receiver.  The goroutines that a call starts run
    concurrently, each from the instant of the launch, and their effects on
    the state of the run take place one goroutine after the other, in an
    order that the runtime picks; a lock orders what it guards in the same
    way.  The choices of the runtime (the order of goroutines, the case of
    a [select] when two are ready at one instant, whether a poll of a
    context at the very instant it becomes done sees it done) are a part of
    the state of a run. *)

From Stdlib Require Import ZArith Lia FunctionalExtensionality.
From stdpp Require Import base option strings list gmap fin_maps.

Set Warnings "-register-all".

Local Open Scope Z_scope.

(** ** The Go runtime *)

(** The zero value of a Go type. *)
Class GoZero (A : Type) := zero : A.
Global Hint Mode GoZero ! : typeclass_instances.

Global Instance Z_GoZero : GoZero Z := 0.
Global Instance string_GoZero : GoZero string := EmptyString.

(** The string that [reflect]'s [Type.String()] gives for a Go type. *)
Class Reflect (A : Type) := typeString : string.
Global Hint Mode Reflect ! : typeclass_instances.
Arguments typeString A {_}.

Global Instance Z_Reflect : Reflect Z := "int".
Global Instance string_Reflect : Reflect string := "string".

Module time.

(** [int64] arithmetic wraps around. *)
Definition wrap64 (z : Z) : Z := (z + 2 ^ 63) mod 2 ^ 64 - 2 ^ 63.

(** [time.Duration] is an [int64] count of nanoseconds. *)
Definition Duration : Type := Z.

Definition Millisecond : Duration := 1000000.
Definition Second : Duration := 1000000000.

(** [a * b], [a + b] and [a << k] on [int64]. *)
Definition mul (a b : Z) : Z := wrap64 (a * b).
Definition add (a b : Z) : Z := wrap64 (a + b).
Definition shl (a k : Z) : Z := wrap64 (Z.shiftl a k).

End time.

(** Values of the interface [error]: one constructor for each [fmt.Errorf]
    of the source, the two errors of package [context], and the errors that
    user functions make. *)
Inductive error : Type :=
  | Canceled                               (* context.Canceled *)
  | DeadlineExceeded                       (* context.DeadlineExceeded *)
  | UserError (msg : string)               (* an error of a user function *)
  | NotFound (name : string)               (* "lambda '%s' not found" *)
  | AlreadyRegistered (name : string)      (* "lambda '%s' already registered" *)
  | ConstructorNotFound (name : string)    (* "constructor for lambda '%s' not found" *)
  | PipelineFailed (step : Z) (e : error)  (* "pipeline failed at step %d: %w" *)
  | MaxRetriesExceeded (e : option error)  (* "max retries exceeded, last error: %w" *)
  | AfterRetries (n : Z) (e : option error). (* "after %d retries: %w" *)

Module context.

(** A context is done from the earlier of its deadline and the instant at
    which its owner cancels it.  The instant of the cancellation belongs to
    the environment of a run; user functions do not cancel the context
    they are given. *)
Record Context : Type := mkContext {
  deadline : option Z;
  cancelAt : option Z
}.

Definition Background : Context := mkContext None None.

(** The instant from which [ctx.Done()] is closed. *)
Definition doneAt (ctx : Context) : option Z :=
  match cancelAt ctx, deadline ctx with
  | Some tc, Some td => Some (Z.min tc td)
  | Some tc, None => Some tc
  | None, Some td => Some td
  | None, None => None
  end.

(** The error of the context at the instant [t], for a caller for which
    it is done from [doneAt] on. *)
Definition Err (ctx : Context) (t : Z) : option error :=
  match cancelAt ctx, deadline ctx with
  | Some tc, Some td =>
      if tc <=? td then (if tc <=? t then Some Canceled else None)
      else (if td <=? t then Some DeadlineExceeded else None)
  | Some tc, None => if tc <=? t then Some Canceled else None
  | None, Some td => if td <=? t then Some DeadlineExceeded else None
  | None, None => None
  end.

(** [context.WithTimeout(parent, d)] called at the instant [t]: the
    deadline is [t + d] unless the parent's is earlier. *)
Definition WithTimeoutAt (parent : Context) (d : Z) (t : Z) : Context :=
  mkContext
    (match deadline parent with
     | Some td => Some (Z.min td (t + d))
     | None => Some (t + d)
     end)
    (cancelAt parent).

End context.

Export context(Context).

(** ** Package core: types.go *)

Module types.

Record LambdaOptions : Type := mkOptions {
  Timeout : Z;
  EnableMetrics : bool;
  Concurrency : Z;
  Retries : Z;
  EnableCallback : bool;
  ComponentType : string
}.

Record LambdaMetrics : Type := mkMetrics {
  TotalInvocations : Z;
  SuccessInvocations : Z;
  ErrorInvocations : Z;
  TotalDuration : Z;
  AverageDuration : Z;
  LastInvocationTime : Z
}.

Record LambdaResult (O : Type) : Type := mkResult {
  Output : O;
  Error : option error;
  Duration : Z;
  Timestamp : Z
}.
Arguments mkResult {O} _ _ _ _.
Arguments Output {O} _.
Arguments Error {O} _.
Arguments Duration {O} _.
Arguments Timestamp {O} _.

Record LambdaMeta : Type := mkMeta {
  Name : string;
  InputType : string;
  OutputType : string;
  MetaComponentType : string;
  RegisteredAt : Z
}.

Definition DefaultOptions : LambdaOptions :=
  mkOptions (30 * time.Second) true 10 0 false "Lambda".

(** A [LambdaOption] is a function that writes to the options record it is
    given a pointer to: here, the record it leaves. *)
Definition LambdaOption : Type := LambdaOptions -> LambdaOptions.

Definition WithTimeout (timeout : Z) : LambdaOption :=
  fun opts => mkOptions timeout (EnableMetrics opts) (Concurrency opts)
                (Retries opts) (EnableCallback opts) (ComponentType opts).

Definition WithEnableMetrics (enable : bool) : LambdaOption :=
  fun opts => mkOptions (Timeout opts) enable (Concurrency opts)
                (Retries opts) (EnableCallback opts) (ComponentType opts).

Definition WithConcurrency (concurrency : Z) : LambdaOption :=
  fun opts => mkOptions (Timeout opts) (EnableMetrics opts) concurrency
                (Retries opts) (EnableCallback opts) (ComponentType opts).

Definition WithRetries (retries : Z) : LambdaOption :=
  fun opts => mkOptions (Timeout opts) (EnableMetrics opts) (Concurrency opts)
                retries (EnableCallback opts) (ComponentType opts).

Definition WithEnableCallback (enable : bool) : LambdaOption :=
  fun opts => mkOptions (Timeout opts) (EnableMetrics opts) (Concurrency opts)
                (Retries opts) enable (ComponentType opts).

Definition WithComponentType (componentType : string) : LambdaOption :=
  fun opts => mkOptions (Timeout opts) (EnableMetrics opts) (Concurrency opts)
                (Retries opts) (EnableCallback opts) componentType.

End types.

Export types.

(** ** The state of a run and the effect monad *)

Module rt.

(** What a run leaves in the log: the case that each [select] took, and
    the entries that user code records. *)
Inductive Event : Type :=
  | EvAfter (d : Z)        (* <-time.After(d) was received *)
  | EvDone                 (* <-ctx.Done() was received *)
  | EvSlot                 (* a concurrency slot was acquired *)
  | EvUser (tag : string). (* recorded by user code *)

Definition loc : Type := positive.

Record World (U : Type) : Type := mkWorld {
  now : Z;                        (* the clock, in nanoseconds *)
  user : U;                       (* the state that user functions close over *)
  heap : gmap loc LambdaMetrics;  (* the cells that metrics pointers point to *)
  log : list Event;
  held : Z;                       (* slots of the semaphore that are taken *)
  releaseAt : option Z;           (* when another holder gives a slot back *)
  sched : list bool               (* the choices that the runtime will make *)
}.
Arguments mkWorld {U} _ _ _ _ _ _ _.
Arguments now {U} _.
Arguments user {U} _.
Arguments heap {U} _.
Arguments log {U} _.
Arguments held {U} _.
Arguments releaseAt {U} _.
Arguments sched {U} _.

(** A call returns, blocks for ever, or panics. *)
Inductive Res (U A : Type) : Type :=
  | Ok (a : A) (w : World U)
  | Blocked
  | Panicked (msg : string).
Arguments Ok {U A} _ _.
Arguments Blocked {U A}.
Arguments Panicked {U A} _.

Definition M (U A : Type) : Type := World U -> Res U A.

Global Instance M_ret {U} : MRet (M U) := fun A a w => Ok a w.
Global Instance M_bind {U} : MBind (M U) := fun A B f m w =>
  match m w with
  | Ok a w' => f a w'
  | Blocked => Blocked
  | Panicked msg => Panicked msg
  end.

Section Primitives.
Context {U : Type}.

Definition panic {A} (msg : string) : M U A := fun _ => Panicked msg.

Definition setNow (t : Z) (w : World U) : World U :=
  mkWorld t (user w) (heap w) (log w) (held w) (releaseAt w) (sched w).
Definition setUser (s : U) (w : World U) : World U :=
  mkWorld (now w) s (heap w) (log w) (held w) (releaseAt w) (sched w).
Definition setHeap (h : gmap loc LambdaMetrics) (w : World U) : World U :=
  mkWorld (now w) (user w) h (log w) (held w) (releaseAt w) (sched w).
Definition addLog (e : Event) (w : World U) : World U :=
  mkWorld (now w) (user w) (heap w) (log w ++ [e]) (held w) (releaseAt w) (sched w).
Definition addLogs (es : list Event) (w : World U) : World U :=
  fold_left (fun w e => addLog e w) es w.
Definition setHeld (n : Z) (w : World U) : World U :=
  mkWorld (now w) (user w) (heap w) (log w) n (releaseAt w) (sched w).
Definition setSched (l : list bool) (w : World U) : World U :=
  mkWorld (now w) (user w) (heap w) (log w) (held w) (releaseAt w) l.

(** [time.Now()] and [time.Since(start)]. *)
Definition Now : M U Z := fun w => Ok (now w) w.
Definition Since (start : Z) : M U Z := fun w => Ok (now w - start) w.


(** [context.WithTimeout(ctx, d)]. *)
Definition WithTimeout (ctx : Context) (d : Z) : M U Context :=
  fun w => Ok (context.WithTimeoutAt ctx d (now w)) w.

(** User code appends an entry to the shared log. *)
Definition record (tag : string) : M U unit :=
  fun w => Ok tt (addLog (EvUser tag) w).

(** The runtime's next choice.  When two cases of a [select] are ready at
    the same instant it picks one, [true] for the context's; with no choice
    left on record the answer is [true]. *)
Definition pick (w : World U) : bool * World U :=
  match sched w with
  | [] => (true, w)
  | b :: rest => (b, setSched rest w)
  end.

(** [ctx.Err()].  A context becomes done when its timer fires or its owner
    cancels it; a goroutine that asks at that very instant comes before or
    after that, as the runtime picks ([true] for after).  From the next
    instant on the context is done for every caller. *)
Definition CtxErr (ctx : Context) : M U (option error) :=
  fun w =>
    if decide (context.doneAt ctx = Some (now w)) then
      let '(b, w') := pick w in
      Ok (if b then context.Err ctx (now w) else None) w'
    else Ok (context.Err ctx (now w)) w.

(** [ctx.Err()] in the case [<-ctx.Done()] of a [select]: the channel is
    closed, so the context is done. *)
Definition CtxErrClosed (ctx : Context) : M U (option error) :=
  fun w => Ok (context.Err ctx (now w)) w.

(** The instant at which a receive from [ctx.Done()] can proceed. *)
Definition doneReady (ctx : Context) (w : World U) : option Z :=
  Z.max (now w) <$> context.doneAt ctx.

(** [select] between [<-ctx.Done()] (the answer [true]) and
    [<-time.After(d)] (the answer [false]).  The case that is ready first
    is taken and the clock moves to that instant; a timer of a duration
    that is not positive fires at once. *)
Definition SelectDoneAfter (ctx : Context) (d : Z) : M U bool :=
  fun w =>
    let timer := now w + Z.max d 0 in
    match doneReady ctx w with
    | None => Ok false (addLog (EvAfter d) (setNow timer w))
    | Some td =>
        if td <? timer then Ok true (addLog EvDone (setNow td w))
        else if timer <? td then Ok false (addLog (EvAfter d) (setNow timer w))
        else let '(b, w') := pick w in
             if b then Ok true (addLog EvDone (setNow td w'))
             else Ok false (addLog (EvAfter d) (setNow timer w'))
    end.

(** [select] between the send [sem <- struct{}{}] on a semaphore channel
    of capacity [cap] (the answer [true]) and [<-ctx.Done()] (the answer
    [false]).  The send can proceed at once when a slot is free, and
    otherwise when another holder gives one back; when neither case ever
    becomes ready the call blocks. *)
Definition SelectSlotDone (cap : Z) (ctx : Context) : M U bool :=
  fun w =>
    let slot : option Z :=
      if held w <? cap then Some (now w)
      else Z.max (now w) <$> releaseAt w in
    let take t w :=
      Ok true (addLog EvSlot (setHeld (Z.min cap (held w + 1)) (setNow t w))) in
    let stop t w := Ok false (addLog EvDone (setNow t w)) in
    match slot, doneReady ctx w with
    | None, None => Blocked
    | Some ts, None => take ts w
    | None, Some td => stop td w
    | Some ts, Some td =>
        if ts <? td then take ts w
        else if td <? ts then stop td w
        else let '(b, w') := pick w in
             if b then stop td w' else take ts w'
    end.

(** [<-sem]: give the slot back. *)
Definition ReleaseSlot : M U unit :=
  fun w => Ok tt (setHeld (held w - 1) w).

(** The goroutine that goes next among those that are ready, as the runtime
    picks: the candidates are offered in turn, [true] takes the one on
    offer, and the last one is taken when the others were passed over.
    The answer is the goroutine taken and the others. *)
Fixpoint chooseNext {A} (passed ready : list A) (w : World U)
  : option (A * list A * World U) :=
  match ready with
  | [] => None
  | [x] => Some (x, passed, w)
  | x :: rest =>
      let '(b, w') := pick w in
      if b then Some (x, passed ++ rest, w')
      else chooseNext (passed ++ [x]) rest w'
  end.

(** [go body(x)] for each [x] of [todo], and then [wg.Wait()].  The
    goroutines run concurrently: each starts at the instant [t0] of the
    launch, their effects on the state of the run take place one goroutine
    after the other, in the order that the runtime picks, and [Wait]
    returns at the instant [tmax] at which the last of them ends; a
    goroutine finds the semaphore as the goroutines before it left it.  A
    goroutine that blocks for ever blocks [Wait], and one that panics ends
    the program.  [n] bounds the number of goroutines; the answer pairs
    each [x] with what its goroutine computed, in the order of the
    effects. *)
Fixpoint goAll {A B} (body : A -> M U B) (n : nat) (todo : list A) (t0 tmax : Z)
    (done : list (A * B)) : M U (list (A * B)) :=
  fun w =>
    match n with
    | 0%nat => Ok done (setNow tmax w)
    | S n' =>
        match chooseNext [] todo w with
        | None => Ok done (setNow tmax w)
        | Some (x, rest, w1) =>
            match body x (setNow t0 w1) with
            | Ok b w2 =>
                goAll body n' rest t0 (Z.max tmax (now w2)) (done ++ [(x, b)]) w2
            | Blocked => Blocked
            | Panicked msg => Panicked msg
            end
        end
    end.

Definition GoAll {A B} (body : A -> M U B) (todo : list A) : M U (list (A * B)) :=
  fun w => goAll body (length todo) todo (now w) (now w) [] w.

(** What the goroutines computed, without what they were started with. *)
Definition computed {A B} (r : Res U (list (A * B))) : Res U (list B) :=
  match r with
  | Ok out w => Ok out.*2 w
  | Blocked => Blocked
  | Panicked msg => Panicked msg
  end.

(** [&LambdaMetrics{}] and the reads and writes through the pointer. *)
Definition zeroMetrics : LambdaMetrics := mkMetrics 0 0 0 0 0 0.

Definition newMetrics : M U loc :=
  fun w => let p := fresh (dom (heap w)) in
           Ok p (setHeap (<[p := zeroMetrics]> (heap w)) w).

Definition loadMetrics (p : loc) : M U LambdaMetrics :=
  fun w => match heap w !! p with
           | Some m => Ok m w
           | None => Panicked "nil pointer dereference"
           end.

Definition storeMetrics (p : loc) (m : LambdaMetrics) : M U unit :=
  fun w => Ok tt (setHeap (<[p := m]> (heap w)) w).

End Primitives.

End rt.

Export rt.

(** ** Package core: lambda.go *)

Module core.

Section Lambda.
Context {U I O : Type} `{!GoZero O, !Reflect I, !Reflect O}.

(** [type InvokeFunc[I, O] func(ctx context.Context, input I) (O, error)] *)
Definition InvokeFunc : Type := Context -> I -> M U (O * option error).

(** The struct [Lambda]; [options] is never written to after construction,
    [metrics] points to a cell that clones share. *)
Record Lambda : Type := mkLambda {
  name : string;
  invoke : InvokeFunc;
  options : LambdaOptions;
  metrics : loc
}.

Definition applyOptions (opts : list LambdaOption) (o : LambdaOptions) : LambdaOptions :=
  fold_left (fun acc opt => opt acc) opts o.

Definition NewLambda (name : string) (invoke : InvokeFunc) (opts : list LambdaOption)
  : M U Lambda :=
  let options := applyOptions opts DefaultOptions in
  p ← newMetrics;
  mret (mkLambda name invoke options p).

(** The loop of [invokeWithRetry], from the iteration numbered [attempt],
    with [n] iterations to go. *)
Fixpoint retryLoop (l : Lambda) (ctx : Context) (input : I)
    (n : nat) (attempt : Z) (lastErr : option error) : M U (O * option error) :=
  match n with
  | 0%nat => mret (zero, lastErr)
  | S n' =>
      stop ← (if 0 <? attempt
              then SelectDoneAfter ctx
                     (time.mul (time.mul attempt 100) time.Millisecond)
              else mret false);
      if (stop : bool) then
        e ← CtxErrClosed ctx; mret (zero, e)
      else
        '(output, err) ← invoke l ctx input;
        match err with
        | None => mret (output, None)
        | Some _ =>
            e ← CtxErr ctx;
            match e with
            | Some _ => mret (zero, e)
            | None => retryLoop l ctx input n' (attempt + 1) err
            end
        end
  end.

(** [for attempt := 0; attempt <= l.options.Retries; attempt++] *)
Definition invokeWithRetry (l : Lambda) (ctx : Context) (input : I)
  : M U (O * option error) :=
  retryLoop l ctx input (Z.to_nat (Retries (options l) + 1)) 0 None.

Definition updateMetrics (l : Lambda) (duration : Z) (err : option error) : M U unit :=
  m ← loadMetrics (metrics l);
  let total := time.add (TotalInvocations m) 1 in
  let totalDuration := time.add (TotalDuration m) duration in
  if total =? 0 then panic "integer divide by zero" else
  let average := time.wrap64 (Z.quot totalDuration total) in
  t ← Now;
  storeMetrics (metrics l)
    (match err with
     | Some _ =>
         mkMetrics total (SuccessInvocations m) (time.add (ErrorInvocations m) 1)
           totalDuration average t
     | None =>
         mkMetrics total (time.add (SuccessInvocations m) 1) (ErrorInvocations m)
           totalDuration average t
     end).

Definition Invoke (l : Lambda) (ctx : Context) (input : I)
  : M U (option (LambdaResult O) * option error) :=
  start ← Now;
  ctx ← (if 0 <? Timeout (options l)
         then WithTimeout ctx (Timeout (options l))
         else mret ctx);
  '(output, err) ← invokeWithRetry l ctx input;
  d ← Since start;
  let result := mkResult output err d start in
  _ ← (if EnableMetrics (options l) then updateMetrics l d err else mret tt);
  mret (Some result, err).

Definition GetMetrics (l : Lambda) : M U LambdaMetrics := loadMetrics (metrics l).

Definition GetName (l : Lambda) : string := name l.

Definition GetOptions (l : Lambda) : LambdaOptions := options l.

Definition GetMeta (l : Lambda) : M U LambdaMeta :=
  t ← Now;
  mret (mkMeta (name l) (typeString I) (typeString O) (ComponentType (options l)) t).

Definition WithOptions (l : Lambda) (opts : list LambdaOption) : Lambda :=
  mkLambda (name l) (invoke l) (applyOptions opts (options l)) (metrics l).

(** ** Package core: middleware.go *)

(** [type Middleware[I, O] func(ctx, input I, next InvokeFunc[I, O]) (O, error)] *)
Definition Middleware : Type := Context -> I -> InvokeFunc -> M U (O * option error).

Record Chain : Type := mkChain {
  middlewares : list Middleware;
  final : InvokeFunc
}.

Definition NewChain (final : InvokeFunc) (middlewares : list Middleware) : Chain :=
  mkChain middlewares final.

Definition Use (c : Chain) (mws : list Middleware) : Chain :=
  mkChain (middlewares c ++ mws) (final c).

(** [buildChain(index)] calls itself at [index + 1] until [index] reaches
    the length of [c.middlewares]; [depth] bounds the calls. *)
Fixpoint buildChainRec (c : Chain) (depth : nat) (index : nat) : InvokeFunc :=
  if decide (length (middlewares c) <= index)%nat then
    fun ctx input => final c ctx input
  else
    match depth, (middlewares c !! index : option Middleware) with
    | S depth', Some currentMiddleware =>
        let nextHandler := buildChainRec c depth' (index + 1) in
        fun ctx input => currentMiddleware ctx input nextHandler
    | _, _ => fun _ _ => panic "index out of range"
    end.

Definition buildChain (c : Chain) (index : nat) : InvokeFunc :=
  buildChainRec c (length (middlewares c) - index) index.

Definition Execute (c : Chain) (ctx : Context) (input : I) : M U (O * option error) :=
  let handler := buildChain c 0 in
  handler ctx input.

(** The backoff of the middleware [Retry] before the iteration numbered
    [attempt]. *)
Definition backoff (attempt : Z) : Z :=
  let b := time.mul (time.mul (time.shl 1 (attempt - 1)) 100) time.Millisecond in
  if 5 * time.Second <? b then 5 * time.Second else b.

Fixpoint retryMiddlewareLoop (maxRetries : Z) (ctx : Context) (input : I)
    (next : InvokeFunc) (n : nat) (attempt : Z) (lastErr : option error)
  : M U (O * option error) :=
  match n with
  | 0%nat => mret (zero, Some (AfterRetries maxRetries lastErr))
  | S n' =>
      stop ← (if 0 <? attempt
              then SelectDoneAfter ctx (backoff attempt)
              else mret false);
      if (stop : bool) then
        e ← CtxErrClosed ctx; mret (zero, e)
      else
        '(output, err) ← next ctx input;
        match err with
        | None => mret (output, None)
        | Some _ =>
            e ← CtxErr ctx;
            match e with
            | Some _ => mret (zero, e)
            | None => retryMiddlewareLoop maxRetries ctx input next n' (attempt + 1) err
            end
        end
  end.

Definition Retry (maxRetries : Z) : Middleware :=
  fun ctx input next =>
    retryMiddlewareLoop maxRetries ctx input next (Z.to_nat (maxRetries + 1)) 0 None.

End Lambda.

Arguments InvokeFunc : clear implicits.
Arguments Middleware : clear implicits.
Arguments Lambda : clear implicits.
Arguments Chain : clear implicits.

(** *** The built-in middlewares

    A function value that a middleware is given ([validator],
    [transformer], a cache accessor, a hook) is a computation of the run,
    as it may close over state.  [Errorf format e] is the error that
    [fmt.Errorf] makes from a format and the error that its [%w] wraps;
    what a [%v] prints is left out. *)

Section Builtins.
Context {U I O : Type} `{!GoZero O}.
Variable Errorf : string -> option error -> error.

Definition ValidateInput (validator : I -> M U (option error)) : Middleware U I O :=
  fun ctx input next =>
    err ← validator input;
    match err with
    | Some _ => mret (zero, Some (Errorf "input validation failed: %w" err))
    | None => next ctx input
    end.

Definition TransformInput (transformer : I -> M U (I * option error)) : Middleware U I O :=
  fun ctx input next =>
    '(transformed, err) ← transformer input;
    match err with
    | Some _ => mret (zero, Some (Errorf "input transformation failed: %w" err))
    | None => next ctx transformed
    end.

Definition TransformOutput (transformer : O -> M U (O * option error)) : Middleware U I O :=
  fun ctx input next =>
    '(output, err) ← next ctx input;
    match err with
    | Some _ => mret (output, err)
    | None =>
        '(transformed, err) ← transformer output;
        match err with
        | Some _ => mret (zero, Some (Errorf "output transformation failed: %w" err))
        | None => mret (transformed, None)
        end
    end.

Definition CacheOutput (cacheGetter : I -> M U (O * bool))
    (cacheSetter : I -> O -> M U unit) : Middleware U I O :=
  fun ctx input next =>
    '(cached, found) ← cacheGetter input;
    if (found : bool) then mret (cached, None)
    else
      '(output, err) ← next ctx input;
      match err with
      | Some _ => mret (output, err)
      | None => _ ← cacheSetter input output; mret (output, None)
      end.

(** A hook that is nil is [None]. *)
Definition BeforeAfter (before : option (Context -> I -> M U unit))
    (after : option (Context -> I -> O -> option error -> Z -> M U unit))
  : Middleware U I O :=
  fun ctx input next =>
    start ← Now;
    _ ← match before with
        | Some f => f ctx input
        | None => mret tt
        end;
    '(output, err) ← next ctx input;
    duration ← Since start;
    _ ← match after with
        | Some f => f ctx input output err duration
        | None => mret tt
        end;
    mret (output, err).

(** [Metrics(metrics)], with the record it is given a pointer to. *)
Definition Metrics (metrics : loc) : Middleware U I O :=
  fun ctx input next =>
    start ← Now;
    '(output, err) ← next ctx input;
    duration ← Since start;
    m ← loadMetrics metrics;
    let total := time.add (TotalInvocations m) 1 in
    let totalDuration := time.add (TotalDuration m) duration in
    if total =? 0 then panic "integer divide by zero" else
    let average := time.wrap64 (Z.quot totalDuration total) in
    t ← Now;
    _ ← storeMetrics metrics
          (match err with
           | Some _ =>
               mkMetrics total (SuccessInvocations m) (time.add (ErrorInvocations m) 1)
                 totalDuration average t
           | None =>
               mkMetrics total (time.add (SuccessInvocations m) 1) (ErrorInvocations m)
                 totalDuration average t
           end);
    mret (output, err).

(** The struct [LambdaWithMiddleware]; its field [meta] is never set. *)
Record LambdaWithMiddleware : Type := mkLambdaWithMiddleware {
  mwChain : Chain U I O;
  mwName : string;
  mwMeta : option LambdaMeta;
  mwMetrics : loc
}.

Definition NewLambdaWithMiddleware (name : string) (handler : InvokeFunc U I O)
    (middlewares : list (Middleware U I O)) : M U LambdaWithMiddleware :=
  let chain := NewChain handler middlewares in
  p ← newMetrics;
  mret (mkLambdaWithMiddleware chain name None p).

(** The method [Invoke] of [LambdaWithMiddleware]. *)
Definition InvokeWithMiddleware (l : LambdaWithMiddleware) (ctx : Context) (input : I)
  : M U (option (LambdaResult O) * option error) :=
  start ← Now;
  '(output, err) ← Execute (mwChain l) ctx input;
  d ← Since start;
  mret (Some (mkResult output err d start), err).

(** The method [Use] of [LambdaWithMiddleware]. *)
Definition UseWithMiddleware (l : LambdaWithMiddleware)
    (middlewares : list (Middleware U I O)) : LambdaWithMiddleware :=
  mkLambdaWithMiddleware (Use (mwChain l) middlewares) (mwName l) None (mwMetrics l).

(** The method [GetMetrics] of [LambdaWithMiddleware]. *)
Definition GetMetricsWithMiddleware (l : LambdaWithMiddleware) : M U LambdaMetrics :=
  loadMetrics (mwMetrics l).

End Builtins.

Arguments LambdaWithMiddleware : clear implicits.

(** *** The rate limiter

    The limiter that a [RateLimit] middleware holds a pointer to is the
    state that the middleware closes over. *)

Record RateLimiter : Type := mkRateLimiter {
  maxRequests : Z;
  window : Z;
  requests : list Z
}.

Definition NewRateLimiter (maxRequests : Z) (window : Z) : RateLimiter :=
  mkRateLimiter maxRequests window [].

Section RateLimit.
Context {U : Type}.

(** [rl.Allow()]: the answer and the limiter it leaves.  [now.Sub(t)]
    saturates at the bounds of [int64], which a comparison with a window
    above the least [int64] cannot tell from the difference. *)
Definition Allow (rl : RateLimiter) : M U (bool * RateLimiter) :=
  now ← Now;
  let valid := filter (fun t => now - t < window rl) (requests rl) in
  if maxRequests rl <=? Z.of_nat (length valid)
  then mret (false, mkRateLimiter (maxRequests rl) (window rl) valid)
  else mret (true, mkRateLimiter (maxRequests rl) (window rl) (valid ++ [now])).

End RateLimit.

Definition getUser {U} : M U U := fun w => Ok (user w) w.
Definition putUser {U} (s : U) : M U unit := fun w => Ok tt (setUser s w).

Section RateLimitMiddleware.
Context {I O : Type} `{!GoZero O}.
Variable Errorf : string -> option error -> error.

Definition RateLimit : Middleware RateLimiter I O :=
  fun ctx input next =>
    limiter ← getUser;
    '(allowed, limiter) ← Allow limiter;
    _ ← putUser limiter;
    if (allowed : bool) then next ctx input
    else mret (zero, Some (Errorf "rate limit exceeded" None)).

End RateLimitMiddleware.

(** *** The circuit breaker *)

Inductive CircuitBreakerState : Type := CircuitClosed | CircuitOpen | CircuitHalfOpen.

Global Instance CircuitBreakerState_eq_dec : EqDecision CircuitBreakerState.
Proof. solve_decision. Defined.

Section CircuitBreaker.
Context {I O : Type} `{Countable I} `{!GoZero O}.
Variable Errorf : string -> option error -> error.

Record CircuitBreaker : Type := mkCircuitBreaker {
  maxFailures : Z;
  resetTimeout : Z;
  lastFailure : Z;
  state : CircuitBreakerState;
  failures : gmap I Z
}.

Definition NewCircuitBreaker (maxFailures : Z) (resetTimeout : Z) : CircuitBreaker :=
  mkCircuitBreaker maxFailures resetTimeout 0 CircuitClosed ∅.

(** [cb.failures[input]], which is 0 for an input that has no entry. *)
Definition failuresOf (cb : CircuitBreaker) (input : I) : Z :=
  default 0 (failures cb !! input).

(** What the middleware does once the breaker lets the call through: it
    calls [next], and counts a failure or resets the count of [input]. *)
Definition callThrough (ctx : Context) (input : I) (next : InvokeFunc CircuitBreaker I O)
  : M CircuitBreaker (O * option error) :=
  '(output, err) ← next ctx input;
  cb ← getUser;
  match err with
  | Some _ =>
      let count := time.add (failuresOf cb input) 1 in
      t ← Now;
      _ ← putUser (mkCircuitBreaker (maxFailures cb) (resetTimeout cb) t
                     (if maxFailures cb <=? count then CircuitOpen else state cb)
                     (<[input := count]> (failures cb)));
      mret (output, err)
  | None =>
      _ ← putUser (mkCircuitBreaker (maxFailures cb) (resetTimeout cb) (lastFailure cb)
                     (if decide (state cb = CircuitHalfOpen)
                      then CircuitClosed else state cb)
                     (<[input := 0]> (failures cb)));
      mret (output, None)
  end.

(** The middleware that [cb.Middleware()] returns; the breaker is the state
    that it closes over, and its output type [any] is [O], with nil for
    zero value. *)
Definition CircuitBreakerMiddleware : Middleware CircuitBreaker I O :=
  fun ctx input next =>
    cb ← getUser;
    if decide (state cb = CircuitOpen) then
      since ← Since (lastFailure cb);
      if resetTimeout cb <? since then
        _ ← putUser (mkCircuitBreaker (maxFailures cb) (resetTimeout cb)
                       (lastFailure cb) CircuitHalfOpen (failures cb));
        callThrough ctx input next
      else
        mret (zero, Some (Errorf "circuit breaker is OPEN for input: %v" None))
    else callThrough ctx input next.

End CircuitBreaker.

Arguments CircuitBreaker I {_ _}.

End core.

(** ** Package registry *)

Module registry.

Section Registry.
Context {U I O : Type} `{!GoZero O, !Reflect I, !Reflect O}.

Local Abbreviation Lambda := (core.Lambda U I O).

(** The struct [Registry]; each method holds the lock [mu] from its start
    to its end, and is one step here. *)
Record Registry : Type := mkRegistry {
  lambdas : gmap string Lambda;
  constructors : gmap string (M U Lambda);
  meta : gmap string LambdaMeta
}.

Definition NewRegistry : Registry := mkRegistry ∅ ∅ ∅.

Definition Register (r : Registry) (lambda : Lambda) : M U (Registry * option error) :=
  let name := core.GetName lambda in
  match lambdas r !! name with
  | Some _ => mret (r, Some (AlreadyRegistered name))
  | None =>
      m ← core.GetMeta lambda;
      mret (mkRegistry (<[name := lambda]> (lambdas r)) (constructors r)
              (<[name := m]> (meta r)), None)
  end.

Definition RegisterWithConstructor (r : Registry) (name : string)
    (constructor : M U Lambda) : Registry :=
  mkRegistry (lambdas r) (<[name := constructor]> (constructors r)) (meta r).

Definition Get (r : Registry) (name : string) : option Lambda :=
  lambdas r !! name.

(** [Build] drops what [r.Register(lambda)] returns. *)
Definition Build (r : Registry) (name : string)
  : M U (Registry * (option Lambda * option error)) :=
  match constructors r !! name with
  | None => mret (r, (None, Some (ConstructorNotFound name)))
  | Some constructor =>
      lambda ← constructor;
      '(r', _) ← Register r lambda;
      mret (r', (Some lambda, None))
  end.

(** The order of the names is that of Go's map iteration, which is not
    specified; here it is that of [map_to_list]. *)
Definition List (r : Registry) : list string :=
  (map_to_list (lambdas r)).*1 ++
  filter (fun name => lambdas r !! name = None) (map_to_list (constructors r)).*1.

Definition GetMeta (r : Registry) (name : string) : option LambdaMeta :=
  meta r !! name.

Definition GetAllMeta (r : Registry) : gmap string LambdaMeta := meta r.

Definition Unregister (r : Registry) (name : string) : Registry * bool :=
  match lambdas r !! name with
  | Some _ =>
      (mkRegistry (delete name (lambdas r)) (constructors r) (delete name (meta r)), true)
  | None =>
      match constructors r !! name with
      | Some _ =>
          (mkRegistry (lambdas r) (delete name (constructors r)) (meta r), true)
      | None => (r, false)
      end
  end.

Definition Clear (r : Registry) : Registry := mkRegistry ∅ ∅ ∅.

Definition Count (r : Registry) : Z :=
  Z.of_nat (size (lambdas r)) + Z.of_nat (size (constructors r)).

End Registry.

Arguments Registry : clear implicits.

(** *** The registries of all type pairs

    [globalRegistries] is a [sync.Map] from the key of a type pair to a
    value of type [any] that holds the [*Registry[I, O]] of that pair.  Go
    types are the codes [T], [El t] is the type of the values of [t]. *)

Section Global.
Context {U T : Type} `{EqDecision T} (El : T -> Type).
Context {El_zero : forall t, GoZero (El t)} {El_reflect : forall t, Reflect (El t)}.

(** A value of type [any]: a registry with its dynamic type. *)
Record AnyRegistry : Type := mkAny {
  anyIn : T;
  anyOut : T;
  anyReg : Registry U (El anyIn) (El anyOut)
}.

Definition registryKey (i o : T) : string :=
  typeString (El i) +:+ "->" +:+ typeString (El o).

(** The type assertion of the stored value to a pointer to [Registry[I, O]]. *)
Definition assertRegistry (i o : T) (a : AnyRegistry)
  : option (Registry U (El i) (El o)) :=
  match decide (anyIn a = i), decide (anyOut a = o) with
  | left ei, left eo =>
      Some (eq_rect (anyOut a) (fun o' => Registry U (El i) (El o'))
              (eq_rect (anyIn a) (fun i' => Registry U (El i') (El (anyOut a)))
                 (anyReg a) i ei) o eo)
  | _, _ => None
  end.

Definition getRegistry (i o : T) (g : gmap string AnyRegistry)
  : M U (gmap string AnyRegistry * Registry U (El i) (El o)) :=
  let key := registryKey i o in
  match g !! key with
  | Some a =>
      match assertRegistry i o a with
      | Some reg => mret (g, reg)
      | None => panic "interface conversion"
      end
  | None =>
      let reg := NewRegistry in
      mret (<[key := mkAny i o reg]> g, reg)
  end.

(** The registry that the map holds for a pair, an empty one when it holds
    none; and the invariant of the map: a registry is stored under the key
    of its own type pair. *)
Definition stored (i o : T) (g : gmap string AnyRegistry) : Registry U (El i) (El o) :=
  match g !! registryKey i o with
  | Some a => default NewRegistry (assertRegistry i o a)
  | None => NewRegistry
  end.

Definition keyed (g : gmap string AnyRegistry) : Prop :=
  forall k a, g !! k = Some a -> k = registryKey (anyIn a) (anyOut a).

(** The key of the pair [i], [o] is free, or holds a registry of that
    pair.  Two pairs can have one key: [Type.String()] qualifies the name
    of a type by the name of its package, not by the path. *)
Definition available (i o : T) (g : gmap string AnyRegistry) : Prop :=
  forall a, g !! registryKey i o = Some a -> anyIn a = i /\ anyOut a = o.

(** A method with a pointer receiver changes the registry that the map
    holds. *)
Definition putRegistry (i o : T) (reg : Registry U (El i) (El o))
    (g : gmap string AnyRegistry) : gmap string AnyRegistry :=
  <[registryKey i o := mkAny i o reg]> g.

Definition RegisterLambda (i o : T) (name : string)
    (invoke : core.InvokeFunc U (El i) (El o)) (opts : list LambdaOption)
    (g : gmap string AnyRegistry) : M U (gmap string AnyRegistry * option error) :=
  lambda ← core.NewLambda name invoke opts;
  '(g, reg) ← getRegistry i o g;
  '(reg, err) ← Register reg lambda;
  mret (putRegistry i o reg g, err).

Definition RegisterLambdaWithConstructor (i o : T) (name : string)
    (constructor : M U (core.Lambda U (El i) (El o)))
    (g : gmap string AnyRegistry) : M U (gmap string AnyRegistry) :=
  '(g, reg) ← getRegistry i o g;
  mret (putRegistry i o (RegisterWithConstructor reg name constructor) g).

Definition GetLambda (i o : T) (name : string) (g : gmap string AnyRegistry)
  : M U (gmap string AnyRegistry * option (core.Lambda U (El i) (El o))) :=
  '(g, reg) ← getRegistry i o g;
  mret (g, Get reg name).

Definition BuildLambda (i o : T) (name : string) (g : gmap string AnyRegistry)
  : M U (gmap string AnyRegistry *
         (option (core.Lambda U (El i) (El o)) * option error)) :=
  '(g, reg) ← getRegistry i o g;
  '(reg, res) ← Build reg name;
  mret (putRegistry i o reg g, res).

Definition UnregisterLambda (i o : T) (name : string) (g : gmap string AnyRegistry)
  : M U (gmap string AnyRegistry * bool) :=
  '(g, reg) ← getRegistry i o g;
  let '(reg, ok) := Unregister reg name in
  mret (putRegistry i o reg g, ok).

End Global.

(** *** What the maps of a registry keep

    A concrete Unit is stored under its own name, a name has metadata
    exactly when it has a concrete Unit, and the metadata carry the name. *)

Section Invariant.
Context {U I O : Type}.

Definition consistent (r : Registry U I O) : Prop :=
  (forall k l, lambdas r !! k = Some l -> core.GetName l = k) /\
  dom (meta r) = dom (lambdas r) /\
  (forall k m, meta r !! k = Some m -> Name m = k).

End Invariant.

(** *** auto.go: the handlers that register Units at start *)

Section Auto.
Context {U : Type}.

Record AutoRegisterer : Type := mkAutoRegisterer {
  handlers : list (M U unit)
}.

Definition RegisterHandler (ar : AutoRegisterer) (handler : M U unit) : AutoRegisterer :=
  mkAutoRegisterer (handlers ar ++ [handler]).

Fixpoint runHandlers (hs : list (M U unit)) : M U unit :=
  match hs with
  | [] => mret tt
  | handler :: rest => _ ← handler; runHandlers rest
  end.

Definition ExecuteHandlers (ar : AutoRegisterer) : M U unit :=
  runHandlers (handlers ar).

End Auto.

Arguments AutoRegisterer : clear implicits.

End registry.

(** ** Package invoker *)

Module invoker.

Section Invoker.
Context {U I O : Type} `{!GoZero O, !Reflect I, !Reflect O}.

Local Abbreviation Lambda := (core.Lambda U I O).
Local Abbreviation Registry := (registry.Registry U I O).

(** The struct [Invoker]: [semaphore] is nil or a channel of the given
    capacity. *)
Record Invoker : Type := mkInvoker {
  semaphore : option Z
}.

Definition NewInvoker : Invoker := mkInvoker None.

(** [inv.Get(name)] is [registry.GetLambda[I, O](name)]; [reg] is the
    registry that the global map holds for the pair [I], [O]. *)
Definition Get (reg : Registry) (name : string) : option Lambda :=
  registry.Get reg name.

Definition WithConcurrency (inv : Invoker) (concurrency : Z) : Invoker :=
  if 0 <? concurrency then mkInvoker (Some concurrency) else mkInvoker None.

Definition Invoke (reg : Registry) (inv : Invoker) (ctx : Context)
    (name : string) (input : I) : M U (option (LambdaResult O) * option error) :=
  match Get reg name with
  | None => mret (None, Some (NotFound name))
  | Some lambda =>
      match semaphore inv with
      | Some cap =>
          acquired ← SelectSlotDone cap ctx;
          if (acquired : bool) then
            r ← core.Invoke lambda ctx input;
            _ ← ReleaseSlot;
            mret r
          else
            e ← CtxErrClosed ctx; mret (None, e)
      | None => core.Invoke lambda ctx input
      end
  end.


(** The goroutine that [InvokeMultiple] starts for a request: what it
    stores in [results] under the name of the request. *)
Definition invokeOne (reg : Registry) (inv : Invoker) (ctx : Context)
    (request : string * I) : M U (option (LambdaResult O)) :=
  '(result, err) ← Invoke reg inv ctx request.1 request.2;
  match err with
  | Some _ => t ← Now; mret (Some (mkResult zero err 0 t))
  | None => mret result
  end.

(** One goroutine for each request, and [wg.Wait()]; the names of a map
    are distinct, so the stores under the lock come to the same map in any
    order. *)
Definition InvokeMultiple (reg : Registry) (inv : Invoker) (ctx : Context)
    (requests : gmap string I) : M U (gmap string (option (LambdaResult O))) :=
  finished ← GoAll (invokeOne reg inv ctx) (map_to_list requests);
  mret (list_to_map ((fun '(request, result) => (request.1, result)) <$> finished)).

(** The loop of [Pipeline] at index [i]; a nil slice is [None]. *)
Fixpoint pipelineLoop (reg : Registry) (inv : Invoker) (ctx : Context) (name : string)
    (inputs : list I) (i : nat) (results : list (option (LambdaResult O)))
  : M U (option (list (option (LambdaResult O))) * option error) :=
  match inputs with
  | [] => mret (Some results, None)
  | input :: rest =>
      '(result, err) ← Invoke reg inv ctx name input;
      match err with
      | Some e => mret (None, Some (PipelineFailed (Z.of_nat i) e))
      | None =>
          let results := <[i := result]> results in
          match result with
          | None => panic "nil pointer dereference"
          | Some res =>
              match Error res with
              | Some _ => mret (Some (take (i + 1) results), Error res)
              | None => pipelineLoop reg inv ctx name rest (i + 1) results
              end
          end
      end
  end.

Definition Pipeline (reg : Registry) (inv : Invoker) (ctx : Context) (name : string)
    (inputs : list I) : M U (option (list (option (LambdaResult O))) * option error) :=
  pipelineLoop reg inv ctx name inputs 0 (replicate (length inputs) None).

Fixpoint retryLoop (reg : Registry) (inv : Invoker) (ctx : Context) (name : string)
    (input : I) (delay : Z) (n : nat) (attempt : Z) (lastErr : option error)
  : M U (option (LambdaResult O) * option error) :=
  match n with
  | 0%nat =>
      t ← Now;
      mret (Some (mkResult zero (Some (MaxRetriesExceeded lastErr)) 0 t), lastErr)
  | S n' =>
      stop ← (if 0 <? attempt then SelectDoneAfter ctx delay else mret false);
      if (stop : bool) then
        e ← CtxErrClosed ctx; mret (None, e)
      else
        '(result, err) ← Invoke reg inv ctx name input;
        match err, result with
        | Some _, _ => retryLoop reg inv ctx name input delay n' (attempt + 1) err
        | None, None => panic "nil pointer dereference"
        | None, Some res =>
            match Error res with
            | None => mret (result, None)
            | Some _ =>
                retryLoop reg inv ctx name input delay n' (attempt + 1) (Error res)
            end
        end
  end.

Definition Retry (reg : Registry) (inv : Invoker) (ctx : Context) (name : string)
    (input : I) (maxRetries : Z) (delay : Z)
  : M U (option (LambdaResult O) * option error) :=
  retryLoop reg inv ctx name input delay (Z.to_nat (maxRetries + 1)) 0 None.

Definition Timeout (reg : Registry) (inv : Invoker) (ctx : Context) (name : string)
    (input : I) (timeout : Z) : M U (option (LambdaResult O) * option error) :=
  ctx ← WithTimeout ctx timeout;
  Invoke reg inv ctx name input.

(** [for _, result := range batchResults]: the error of the first result
    that has one. *)
Fixpoint firstError (results : list (option (LambdaResult O))) : M U (option error) :=
  match results with
  | [] => mret None
  | None :: _ => panic "nil pointer dereference"
  | Some result :: rest =>
      match Error result with
      | Some e => mret (Some e)
      | None => firstError rest
      end
  end.

(** The slices [inputs[i:end]] of the loop of [Batch], for [i] from 0 in
    steps of [batchSize]; [fuel] bounds their number. *)
Fixpoint batches (inputs : list I) (batchSize : nat) (fuel : nat) : list (list I) :=
  match fuel, inputs with
  | S fuel', _ :: _ =>
      take batchSize inputs :: batches (drop batchSize inputs) batchSize fuel'
  | _, _ => []
  end.

(** The goroutine of a batch, up to the lock: it calls [InvokeMultiple] on
    the first input of the batch. *)
Definition batchCall (reg : Registry) (inv : Invoker) (ctx : Context) (name : string)
    (batch : list I) : M U (gmap string (option (LambdaResult O))) :=
  match batch with
  | [] => panic "index out of range"
  | first :: _ => InvokeMultiple reg inv ctx {[ name := first ]}
  end.

(** The goroutines of the batches under the lock, in the order in which
    the runtime lets them take it, which need not be the order of their
    calls: a goroutine gives up if an earlier one met an error, or sends
    the first error of its results to [errChan] if the channel is empty, or
    appends its result. *)
Fixpoint settle (name : string) (n : nat)
    (finished : list (gmap string (option (LambdaResult O))))
    (allResults : list (option (LambdaResult O))) (hasError : bool)
    (errChan : option error)
  : M U (list (option (LambdaResult O)) * option error) :=
  fun w =>
    match n with
    | 0%nat => Ok (allResults, errChan) w
    | S n' =>
        match chooseNext [] finished w with
        | None => Ok (allResults, errChan) w
        | Some (batchResults, rest, w1) =>
            if hasError then settle name n' rest allResults hasError errChan w1
            else
              match firstError (map_to_list batchResults).*2 w1 with
              | Ok (Some e) w2 =>
                  settle name n' rest allResults true
                    (match errChan with Some _ => errChan | None => Some e end) w2
              | Ok None w2 =>
                  settle name n' rest
                    (allResults ++ [default None (batchResults !! name)])
                    hasError errChan w2
              | Blocked => Blocked
              | Panicked msg => Panicked msg
              end
        end
    end.

(** A nil slice of results is the empty list. *)
Definition Batch (reg : Registry) (inv : Invoker) (ctx : Context) (name : string)
    (inputs : list I) (batchSize : Z)
  : M U (list (option (LambdaResult O)) * option error) :=
  let batchSize :=
    if batchSize <=? 0 then length inputs else Z.to_nat batchSize in
  finished ← GoAll (batchCall reg inv ctx name)
                (batches inputs batchSize (length inputs));
  settle name (length finished) finished.*2 [] false None.

End Invoker.

Arguments Invoker : clear implicits.

End invoker.

(** ** Units and runs used to exercise the model *)

Module fixtures.

(** Two Go types, [int] and [string]. *)
Inductive GoType : Type := TInt | TString.

Global Instance GoType_eq_dec : EqDecision GoType.
Proof. solve_decision. Defined.

Definition El (t : GoType) : Type :=
  match t with TInt => Z | TString => string end.

Global Instance El_GoZero (t : GoType) : GoZero (El t) :=
  match t with TInt => (0 : Z) | TString => EmptyString end.

Global Instance El_Reflect (t : GoType) : Reflect (El t) :=
  match t with TInt => "int" | TString => "string" end.

(** The types [User] of two packages that are both named [model], which
    [reflect] prints alike, and [int]. *)
Inductive ModelType : Type := UserA | UserB | Int.

Global Instance ModelType_eq_dec : EqDecision ModelType.
Proof. solve_decision. Defined.

Definition ElModel (t : ModelType) : Type :=
  match t with UserA => string | UserB => Z | Int => Z end.

Global Instance ElModel_GoZero (t : ModelType) : GoZero (ElModel t) :=
  match t with UserA => EmptyString | UserB => (0 : Z) | Int => (0 : Z) end.

Global Instance ElModel_Reflect (t : ModelType) : Reflect (ElModel t) :=
  match t with UserA => "model.User" | UserB => "model.User" | Int => "int" end.

(** A run that starts at instant 0 with two metrics cells allocated. *)
Definition w0 : World unit :=
  mkWorld 0 tt {[ 1%positive := zeroMetrics; 2%positive := zeroMetrics ]} [] 0 None [].

(** [func(ctx, input int) (int, error) { return input * 2, nil }] *)
Definition double : core.InvokeFunc unit Z Z :=
  fun _ input => mret (input * 2, None).

(** A function that fails on the input [bad] and doubles the others. *)
Definition failOn (bad : Z) : core.InvokeFunc unit Z Z :=
  fun _ input =>
    if input =? bad then mret (0, Some (UserError "boom"))
    else mret (input * 2, None).

(** A function that fails until the instant [t] and doubles its input from
    then on. *)
Definition failUntil (t : Z) : core.InvokeFunc unit Z Z :=
  fun _ input w =>
    if now w <? t then Ok (0, Some (UserError "boom")) w
    else Ok (input * 2, None) w.

(** [func(ctx, input string) (int, error) { return len(input), nil }] *)
Definition strlen : core.InvokeFunc unit string Z :=
  fun _ input => mret (Z.of_nat (String.length input), None).

Definition unitAt (name : string) (f : core.InvokeFunc unit Z Z) (p : loc)
  : core.Lambda unit Z Z :=
  core.mkLambda name f DefaultOptions p.

Definition regDouble : registry.Registry unit Z Z :=
  registry.mkRegistry {[ "math_double" := unitAt "math_double" double 1%positive ]}
    ∅ {[ "math_double" := mkMeta "math_double" "int" "int" "Lambda" 0 ]}.

Definition regFailOn2 : registry.Registry unit Z Z :=
  registry.mkRegistry {[ "fail_on_2" := unitAt "fail_on_2" (failOn 2) 1%positive ]}
    ∅ {[ "fail_on_2" := mkMeta "fail_on_2" "int" "int" "Lambda" 0 ]}.

(** [regDouble] with a constructor stored under the name of its unit. *)
Definition regBoth : registry.Registry unit Z Z :=
  registry.RegisterWithConstructor regDouble "math_double"
    (mret (unitAt "math_double" double 2%positive)).

Section Recorders.
Context {U I O : Type} `{!GoZero O}.

(** A middleware that records into the shared log before and after it
    calls [next], and returns what [next] returned. *)
Definition recorder (tag : string) : core.Middleware U I O :=
  fun ctx input next =>
    _ ← record (tag +:+ "-before");
    r ← next ctx input;
    _ ← record (tag +:+ "-after");
    mret r.

(** A terminal function that records its run. *)
Definition terminal (tag : string) (f : I -> O) : core.InvokeFunc U I O :=
  fun _ input => _ ← record tag; mret (f input, None).

(** A function that records each of its runs before it does what [g]
    does; [keepsLog g] says that [g] itself writes nothing to the log. *)
Definition recording (tag : string) (g : core.InvokeFunc U I O) : core.InvokeFunc U I O :=
  fun ctx input => _ ← record tag; g ctx input.

Definition keepsLog (g : core.InvokeFunc U I O) : Prop :=
  forall ctx input w r w', g ctx input w = Ok r w' -> log w' = log w.

(** A middleware that rejects every input without calling [next]. *)
Definition reject (msg : string) : core.Middleware U I O :=
  fun _ _ _ => mret (zero, Some (UserError msg)).

End Recorders.

(** The log of [n] recorded attempts numbered from [k], where each
    re-attempt comes after the timer of [k * 100ms]. *)
Fixpoint linearBackoffLog (tag : string) (k : Z) (n : nat) : list Event :=
  match n with
  | 0%nat => []
  | S n' =>
      (if 0 <? k then [EvAfter (k * 100 * time.Millisecond)] else [])
      ++ EvUser tag :: linearBackoffLog tag (k + 1) n'
  end.

(** A Unit with three retries whose function fails on its first two runs:
    at the instants 0 and 100ms, with the third run at 300ms. *)
Definition flaky : core.Lambda unit Z Z :=
  core.mkLambda "flaky" (recording "attempt" (failUntil 300000000))
    (WithRetries 3 DefaultOptions) 1%positive.

(** A context that was cancelled at the instant 0. *)
Definition cancelled : Context := context.mkContext None (Some 0).

End fixtures.

(** ** What user code may leave alone, and more Units and runs *)

Module samples.

Section Frames.
Context {U I O : Type}.

(** A function that leaves the semaphore, the metrics cells, or the state
    that user code closes over as it found them. *)
Definition keepsHeld (g : core.InvokeFunc U I O) : Prop :=
  forall ctx input w r w', g ctx input w = Ok r w' -> held w' = held w.

Definition keepsHeap (g : core.InvokeFunc U I O) : Prop :=
  forall ctx input w r w', g ctx input w = Ok r w' -> heap w' = heap w.

Definition keepsUser (g : core.InvokeFunc U I O) : Prop :=
  forall ctx input w r w', g ctx input w = Ok r w' -> user w' = user w.

End Frames.

(** [fmt.Errorf] for the runs below: the message, and the wrapped error
    dropped. *)
Definition errorf (format : string) (e : option error) : error := UserError format.

(** A cache in the state that user code closes over. *)
Definition cacheGet : Z -> M (gmap Z Z) (Z * bool) :=
  fun input w =>
    match user w !! input with
    | Some v => Ok (v, true) w
    | None => Ok (0, false) w
    end.

Definition cacheSet : Z -> Z -> M (gmap Z Z) unit :=
  fun input output w => Ok tt (setUser (<[input := output]> (user w)) w).

(** A function that always fails, in any state. *)
Definition failing {U} : core.InvokeFunc U Z Z :=
  fun _ _ => mret (0, Some (UserError "boom")).

(** [fixtures.double] in any state. *)
Definition twice {U} : core.InvokeFunc U Z Z :=
  fun _ input => mret (input * 2, None).

(** A run that starts at the instant 0 with the given state of user code. *)
Definition start {U} (u : U) : World U := mkWorld 0 u ∅ [] 0 None [].

(** [k] calls of [m], one after the other, and what they return. *)
Fixpoint burst {U A} (k : nat) (m : M U A) : M U (list A) :=
  match k with
  | 0%nat => mret []
  | S k' => a ← m; rest ← burst k' m; mret (a :: rest)
  end.

End samples.

(** * Properties *)

Section Runs.
Context {U : Type}.

Lemma bind_run {A B} (m : M U A) (f : A -> M U B) (w : World U) :
  (m ≫= f) w =
  match m w with
  | Ok a w' => f a w'
  | Blocked => Blocked
  | Panicked msg => Panicked msg
  end.
Proof. reflexivity. Qed.

Lemma ret_run {A} (a : A) (w : World U) : (mret a : M U A) w = Ok a w.
Proof. reflexivity. Qed.

Lemma NewLambda_run {I O} name (f : core.InvokeFunc U I O) opts (w : World U) :
  core.NewLambda name f opts w =
  Ok (core.mkLambda name f (core.applyOptions opts DefaultOptions)
        (fresh (dom (heap w))))
     (setHeap (<[fresh (dom (heap w)) := zeroMetrics]> (heap w)) w).
Proof. reflexivity. Qed.




(** The runtime's pick among goroutines does not look at them. *)
Lemma chooseNext_related {A A'} (R : A -> A' -> Prop) (ready : list A) (ready' : list A') :
  Forall2 R ready ready' ->
  forall passed passed' (w : World U),
    Forall2 R passed passed' ->
    match chooseNext passed ready w, chooseNext passed' ready' w with
    | Some (x, rest, w1), Some (x', rest', w1') =>
        R x x' /\ Forall2 R rest rest' /\ w1 = w1'
    | None, None => True
    | _, _ => False
    end.
Proof.
  induction 1 as [|x x' ready ready' Hx Hready IH]; intros passed passed' w Hpassed;
    [exact I|].
  destruct Hready as [|y y' ready ready' Hy Hready].
  - cbn. auto.
  - change (chooseNext passed (x :: y :: ready) w)
      with (let '(b, w') := pick w in
            if b then Some (x, passed ++ y :: ready, w')
            else chooseNext (passed ++ [x]) (y :: ready) w').
    change (chooseNext passed' (x' :: y' :: ready') w)
      with (let '(b, w') := pick w in
            if b then Some (x', passed' ++ y' :: ready', w')
            else chooseNext (passed' ++ [x']) (y' :: ready') w').
    destruct (pick w) as [[] w1].
    + split; [exact Hx|]. split; [|reflexivity].
      apply Forall2_app; [exact Hpassed|]. constructor; assumption.
    + apply IH. apply Forall2_app; [exact Hpassed|]. constructor; [exact Hx|constructor].
Qed.

Lemma goAll_related {A A' B} (R : A -> A' -> Prop) (body : A -> M U B)
    (body' : A' -> M U B) (n : nat) :
  (forall x x', R x x' -> body x = body' x') ->
  forall todo todo' t0 tmax done done' w,
    Forall2 R todo todo' -> done.*2 = done'.*2 ->
    computed (goAll body n todo t0 tmax done w)
    = computed (goAll body' n todo' t0 tmax done' w).
Proof.
  intros Hbody. induction n as [|n IH]; intros todo todo' t0 tmax done done' w Htodo Hdone.
  - cbn. rewrite Hdone. reflexivity.
  - cbn [goAll].
    assert (Hnil : Forall2 R [] []) by constructor.
    pose proof (chooseNext_related R todo todo' Htodo [] [] w Hnil) as Hnext.
    destruct (chooseNext [] todo w) as [[[x rest] w1]|],
             (chooseNext [] todo' w) as [[[x' rest'] w1']|]; try contradiction.
    + destruct Hnext as (Hx & Hrest & <-). rewrite (Hbody x x' Hx).
      destruct (body' x' (setNow t0 w1)) as [b w2| |]; [|reflexivity..].
      apply IH; [exact Hrest|]. rewrite !fmap_app, Hdone. reflexivity.
    + cbn. rewrite Hdone. reflexivity.
Qed.

End Runs.

Section RegistryProperties.
Context {U I O : Type} `{!GoZero O, !Reflect I, !Reflect O}.

Local Abbreviation Lambda := (core.Lambda U I O).
Local Abbreviation Registry := (registry.Registry U I O).

Implicit Types (r : Registry) (lambda : Lambda) (w : World U).

Lemma Register_run r lambda w :
  registry.Register r lambda w =
  match registry.lambdas r !! core.GetName lambda with
  | Some _ => Ok (r, Some (AlreadyRegistered (core.GetName lambda))) w
  | None =>
      Ok (registry.mkRegistry
            (<[core.GetName lambda := lambda]> (registry.lambdas r))
            (registry.constructors r)
            (<[core.GetName lambda :=
                 mkMeta (core.name lambda) (typeString I) (typeString O)
                   (ComponentType (core.options lambda)) (now w)]>
               (registry.meta r)), None) w
  end.
Proof.
  unfold registry.Register.
  destruct (registry.lambdas r !! core.GetName lambda); reflexivity.
Qed.

Lemma Get_RegisterWithConstructor r name name' c :
  registry.Get (registry.RegisterWithConstructor r name c) name' = registry.Get r name'.
Proof. reflexivity. Qed.

Lemma elem_of_List r name :
  name ∈ registry.List r <->
  is_Some (registry.lambdas r !! name) \/
  (registry.lambdas r !! name = None /\ is_Some (registry.constructors r !! name)).
Proof.
  unfold registry.List.
  rewrite elem_of_app, list_elem_of_filter, !list_elem_of_fmap.
  split.
  - intros [[[k v] [-> Hin]]|[Hnone [[k v] [-> Hin]]]].
    + left. apply elem_of_map_to_list in Hin. eauto.
    + right. apply elem_of_map_to_list in Hin. eauto.
  - intros [[v Hv]|[Hnone [v Hv]]].
    + left. exists (name, v). split; [reflexivity|]. by apply elem_of_map_to_list.
    + right. split; [assumption|].
      exists (name, v). split; [reflexivity|]. by apply elem_of_map_to_list.
Qed.

Lemma Build_run r name w :
  registry.Build r name w =
  match (registry.constructors r !! name : option (M U Lambda)) with
  | None => Ok (r, (None, Some (ConstructorNotFound name))) w
  | Some c =>
      match c w with
      | Ok lambda w1 =>
          match registry.lambdas r !! core.GetName lambda with
          | Some _ => Ok (r, (Some lambda, None)) w1
          | None =>
              Ok (registry.mkRegistry
                    (<[core.GetName lambda := lambda]> (registry.lambdas r))
                    (registry.constructors r)
                    (<[core.GetName lambda :=
                         mkMeta (core.name lambda) (typeString I) (typeString O)
                           (ComponentType (core.options lambda)) (now w1)]>
                       (registry.meta r)), (Some lambda, None)) w1
          end
      | Blocked => Blocked
      | Panicked msg => Panicked msg
      end
  end.
Proof.
  unfold registry.Build.
  destruct (registry.constructors r !! name) as [c|]; [|reflexivity].
  unfold mbind, M_bind at 1.
  destruct (c w) as [lambda w1| |msg]; try reflexivity.
  unfold mbind, M_bind. rewrite Register_run.
  destruct (registry.lambdas r !! core.GetName lambda); reflexivity.
Qed.

(** C4. Registering a Unit whose name is already taken by a concrete Unit
    of the registry fails with the duplicate-name error and changes
    nothing: the registry (and the state of the run) is the one before the
    call, [Get] still returns the Unit registered first, [GetMeta] its
    metadata. *)
Theorem Register_duplicate_leaves_registry r lambda prev w :
  registry.Get r (core.GetName lambda) = Some prev ->
  exists r',
    registry.Register r lambda w
      = Ok (r', Some (AlreadyRegistered (core.GetName lambda))) w /\
    r' = r /\
    registry.Get r' (core.GetName lambda) = Some prev /\
    registry.GetMeta r' (core.GetName lambda) = registry.GetMeta r (core.GetName lambda).
Proof.
  intros Hprev. exists r.
  rewrite Register_run. unfold registry.Get in Hprev. rewrite Hprev.
  repeat split; assumption.
Qed.

(** C6. After a successful [Register] of a Unit named [n], [Get n] finds a
    Unit whose name is [n]: the Unit that was registered.  [Get] only looks
    the name up among the concrete Units: [RegisterWithConstructor] never
    changes what [Get] returns, and a name that a new registry was given
    constructors for, with no [Build], is not found. *)
Theorem Get_after_Register_round_trip :
  (forall r lambda w r' w',
     registry.Register r lambda w = Ok (r', None) w' ->
     exists found, registry.Get r' (core.GetName lambda) = Some found /\
       core.GetName found = core.GetName lambda /\ found = lambda) /\
  (forall r name c n,
     registry.Get (registry.RegisterWithConstructor r name c) n = registry.Get r n) /\
  (forall name (cs : list (M U Lambda)),
     registry.Get
       (fold_left (fun acc c => registry.RegisterWithConstructor acc name c) cs
          registry.NewRegistry)
       name = None).
Proof.
  split; [|split].
  - intros r lambda w r' w'. rewrite Register_run.
    destruct (registry.lambdas r !! core.GetName lambda) eqn:Hl; [discriminate|].
    intros [= <- <-]. exists lambda. unfold registry.Get. cbn [registry.lambdas].
    rewrite lookup_insert_eq. auto.
  - intros. apply Get_RegisterWithConstructor.
  - intros name cs.
    assert (H : forall r0 : Registry, registry.Get r0 name = None ->
              registry.Get
                (fold_left (fun acc c => registry.RegisterWithConstructor acc name c) cs r0)
                name = None).
    { induction cs as [|c cs IH]; intros r0 Hnone; cbn [fold_left]; [assumption|].
      apply IH. rewrite Get_RegisterWithConstructor. assumption. }
    apply H. reflexivity.
Qed.

(** C3, as the code has it.  [Build name] fails exactly when no constructor
    is stored under [name].  Otherwise it runs the constructor, calls
    [Register] on the Unit it made and returns that Unit with a nil error
    whatever [Register] answered: the registry after [Build] is the one
    [Register] leaves, which is the unchanged registry when a concrete Unit
    of that name exists. *)
Theorem Build_registers_and_returns r name w :
  (registry.constructors r !! name = None ->
   registry.Build r name w = Ok (r, (None, Some (ConstructorNotFound name))) w) /\
  (forall (c : M U Lambda) lambda w1,
     registry.constructors r !! name = Some c ->
     c w = Ok lambda w1 ->
     exists r' e,
       registry.Register r lambda w1 = Ok (r', e) w1 /\
       registry.Build r name w = Ok (r', (Some lambda, None)) w1 /\
       (is_Some (registry.Get r (core.GetName lambda)) ->
        r' = r /\ e = Some (AlreadyRegistered (core.GetName lambda))) /\
       (registry.Get r (core.GetName lambda) = None ->
        registry.Get r' (core.GetName lambda) = Some lambda /\ e = None)).
Proof.
  split.
  - intros Hc. rewrite Build_run, Hc. reflexivity.
  - intros c lambda w1 Hc Hrun.
    rewrite Build_run, Hc, Hrun, Register_run. unfold registry.Get.
    destruct (registry.lambdas r !! core.GetName lambda) as [prev|] eqn:Hl.
    + exists r, (Some (AlreadyRegistered (core.GetName lambda))).
      split; [reflexivity|]. split; [reflexivity|]. split.
      * intros _. split; reflexivity.
      * intros [=].
    + eexists _, None.
      split; [reflexivity|]. split; [reflexivity|]. split.
      * intros [? [=]].
      * intros _. split; [|reflexivity].
        cbn [registry.lambdas]. apply lookup_insert_eq.
Qed.

(** C10. When [name] has both a concrete Unit and a constructor,
    [Unregister name] answers true and deletes the Unit and its metadata
    only; the constructor stays, so [name] is still listed and [Build name]
    still materializes a Unit; a second [Unregister name] answers true and
    deletes the constructor. *)
Theorem Unregister_keeps_constructor r name l (c : M U Lambda) :
  registry.lambdas r !! name = Some l ->
  registry.constructors r !! name = Some c ->
  exists r1 r2,
    registry.Unregister r name = (r1, true) /\
    registry.lambdas r1 = delete name (registry.lambdas r) /\
    registry.meta r1 = delete name (registry.meta r) /\
    registry.constructors r1 = registry.constructors r /\
    name ∈ registry.List r1 /\
    (forall w built w1, c w = Ok built w1 ->
       exists r', registry.Build r1 name w = Ok (r', (Some built, None)) w1 /\
                  (core.GetName built = name -> registry.Get r' name = Some built)) /\
    registry.Unregister r1 name = (r2, true) /\
    registry.constructors r2 = delete name (registry.constructors r) /\
    registry.lambdas r2 = registry.lambdas r1 /\
    registry.meta r2 = registry.meta r1.
Proof.
  intros Hl Hc.
  exists (registry.mkRegistry (delete name (registry.lambdas r)) (registry.constructors r)
            (delete name (registry.meta r))).
  exists (registry.mkRegistry (delete name (registry.lambdas r))
            (delete name (registry.constructors r)) (delete name (registry.meta r))).
  assert (Hfirst : registry.Unregister r name =
            (registry.mkRegistry (delete name (registry.lambdas r))
               (registry.constructors r) (delete name (registry.meta r)), true)).
  { unfold registry.Unregister. rewrite Hl. reflexivity. }
  assert (Hsecond : registry.Unregister
            (registry.mkRegistry (delete name (registry.lambdas r))
               (registry.constructors r) (delete name (registry.meta r))) name =
            (registry.mkRegistry (delete name (registry.lambdas r))
               (delete name (registry.constructors r)) (delete name (registry.meta r)),
             true)).
  { unfold registry.Unregister.
    cbn [registry.constructors registry.lambdas registry.meta].
    rewrite lookup_delete_eq, Hc. reflexivity. }
  repeat split; try assumption.
  - apply elem_of_List. right. split.
    + apply lookup_delete_eq.
    + exists c. exact Hc.
  - intros w built w1 Hrun.
    rewrite Build_run. cbn [registry.constructors registry.lambdas registry.meta].
    rewrite Hc, Hrun.
    destruct (delete name (registry.lambdas r) !! core.GetName built) eqn:Hb.
    + eexists. split; [reflexivity|].
      intros Hname. rewrite Hname, lookup_delete_eq in Hb. discriminate.
    + eexists. split; [reflexivity|].
      intros Hname. unfold registry.Get. cbn [registry.lambdas].
      rewrite Hname. apply lookup_insert_eq.
Qed.

End RegistryProperties.

Section ChainProperties.
Context {U I O : Type} `{!GoZero O, !Reflect I, !Reflect O}.

Local Abbreviation InvokeFunc := (core.InvokeFunc U I O).
Local Abbreviation Middleware := (core.Middleware U I O).

(** Right-to-left composition: each middleware wraps the handler built
    from the ones after it. *)
Local Abbreviation compose final ms :=
  (foldr (fun (m : Middleware) (next : InvokeFunc) =>
            (fun ctx input => m ctx input next) : InvokeFunc) final ms).

Lemma buildChainRec_compose (c : core.Chain U I O) depth index :
  (length (core.middlewares c) <= index + depth)%nat ->
  core.buildChainRec c depth index
  = compose (core.final c) (drop index (core.middlewares c)).
Proof.
  revert index. induction depth as [|depth IH]; intros index Hlen.
  - cbn [core.buildChainRec].
    destruct (decide (length (core.middlewares c) <= index)%nat) as [Hge|Hlt]; [|lia].
    rewrite drop_ge by assumption. reflexivity.
  - cbn [core.buildChainRec].
    destruct (decide (length (core.middlewares c) <= index)%nat) as [Hge|Hlt].
    + rewrite drop_ge by assumption. reflexivity.
    + destruct (lookup_lt_is_Some_2 (core.middlewares c) index) as [cur Hcur]; [lia|].
      rewrite Hcur, (drop_S _ _ _ Hcur). cbn [foldr].
      rewrite IH by lia. rewrite Nat.add_1_r. reflexivity.
Qed.

Lemma Execute_compose (c : core.Chain U I O) ctx input :
  core.Execute c ctx input = compose (core.final c) (core.middlewares c) ctx input.
Proof.
  unfold core.Execute, core.buildChain.
  rewrite buildChainRec_compose by lia. rewrite drop_0. reflexivity.
Qed.

(** C7. [Execute] composes the chain right to left: the middleware at
    index 0 is outermost, each middleware wraps the handler made of the
    later ones, the terminal function is innermost.  With recording
    middlewares A then B and a recording terminal T the log reads
    A-before, B-before, T, B-after, A-after.  T runs only if every
    middleware calls [next]: when one middleware of the chain never uses
    its [next], the run of the chain does not depend on T. *)
Theorem Execute_middleware_order :
  (forall (c : core.Chain U I O) ctx input,
     core.Execute c ctx input
     = compose (core.final c) (core.middlewares c) ctx input) /\
  (forall a b t (f : I -> O) ctx input (w : World U),
     core.Execute
       (core.NewChain (fixtures.terminal t f) [fixtures.recorder a; fixtures.recorder b])
       ctx input w
     = Ok (f input, None)
         (addLogs [EvUser (a +:+ "-before"); EvUser (b +:+ "-before"); EvUser t;
                   EvUser (b +:+ "-after"); EvUser (a +:+ "-after")] w)) /\
  (forall (before after : list Middleware) (m : Middleware) (T1 T2 : InvokeFunc)
          ctx input,
     (forall ctx input next1 next2, m ctx input next1 = m ctx input next2) ->
     core.Execute (core.NewChain T1 (before ++ m :: after)) ctx input
     = core.Execute (core.NewChain T2 (before ++ m :: after)) ctx input).
Proof.
  split; [exact Execute_compose|]. split.
  - intros. reflexivity.
  - intros before after m T1 T2 ctx input Hignore.
    rewrite !Execute_compose. cbn [core.NewChain core.final core.middlewares].
    rewrite !foldr_app. cbn [foldr].
    replace (fun ctx0 input0 => m ctx0 input0 (compose T1 after))
      with (fun ctx0 input0 => m ctx0 input0 (compose T2 after)); [reflexivity|].
    extensionality ctx0. extensionality input0. apply Hignore.
Qed.

End ChainProperties.

Section GlobalProperties.
Context {U T : Type} `{EqDecision T} (El : T -> Type).
Context {El_zero : forall t, GoZero (El t)} {El_reflect : forall t, Reflect (El t)}.

Local Abbreviation Store := (gmap string (registry.AnyRegistry (U:=U) El)).
Local Abbreviation key := (registry.registryKey El).

Lemma assertRegistry_same i o (reg : registry.Registry U (El i) (El o)) :
  registry.assertRegistry El i o (registry.mkAny El i o reg) = Some reg.
Proof.
  unfold registry.assertRegistry. cbn.
  destruct (decide (i = i)) as [ei|]; [|congruence].
  destruct (decide (o = o)) as [eo|]; [|congruence].
  rewrite (proof_irrel ei eq_refl), (proof_irrel eo eq_refl). reflexivity.
Qed.

Lemma assertRegistry_other i o i' o' (reg : registry.Registry U (El i') (El o')) :
  (i', o') <> (i, o) ->
  registry.assertRegistry El i o (registry.mkAny El i' o' reg) = None.
Proof.
  intros Hne. unfold registry.assertRegistry. cbn [registry.anyIn registry.anyOut].
  destruct (decide (i' = i)) as [->|]; [|reflexivity].
  destruct (decide (o' = o)) as [->|]; [congruence|reflexivity].
Qed.

Lemma assertRegistry_Some i o (a : registry.AnyRegistry (U:=U) El) reg :
  registry.assertRegistry El i o a = Some reg -> a = registry.mkAny El i o reg.
Proof.
  destruct a as [ai ao r]. unfold registry.assertRegistry.
  cbn [registry.anyIn registry.anyOut registry.anyReg].
  destruct (decide (ai = i)) as [ei|]; [|discriminate].
  destruct (decide (ao = o)) as [eo|]; [|discriminate].
  destruct ei, eo. cbn. intros [= <-]. reflexivity.
Qed.

Lemma available_lookup (g : Store) i o a :
  registry.available El i o g -> g !! key i o = Some a ->
  exists reg, a = registry.mkAny El i o reg.
Proof.
  intros Hav Ha. apply Hav in Ha as [Hi Ho].
  destruct a as [ai ao reg]. cbn in Hi, Ho. subst. exists reg. reflexivity.
Qed.

Lemma available_empty i o : registry.available El i o (∅ : Store).
Proof. intros a. rewrite lookup_empty. discriminate. Qed.

Lemma available_insert (g : Store) i o reg :
  registry.available El i o (<[key i o := registry.mkAny El i o reg]> g).
Proof. intros a. rewrite lookup_insert_eq. intros [= <-]. auto. Qed.

Lemma available_insert_ne (g : Store) i o reg i' o' :
  key i o <> key i' o' -> registry.available El i' o' g ->
  registry.available El i' o' (<[key i o := registry.mkAny El i o reg]> g).
Proof. intros Hne Hav a. rewrite lookup_insert_ne by exact Hne. apply Hav. Qed.

Lemma stored_available (g : Store) i o l name :
  registry.Get (registry.stored El i o g) name = Some l ->
  registry.available El i o g /\
  g !! key i o = Some (registry.mkAny El i o (registry.stored El i o g)).
Proof.
  unfold registry.stored, registry.available.
  destruct (g !! key i o) as [a|]; [|discriminate].
  destruct (registry.assertRegistry El i o a) as [reg|] eqn:Ha; [|discriminate].
  intros _. apply assertRegistry_Some in Ha as ->. split; [|reflexivity].
  intros a [= <-]. auto.
Qed.

Lemma keyed_empty : registry.keyed El (∅ : Store).
Proof. intros k a. rewrite lookup_empty. discriminate. Qed.

Lemma keyed_insert (g : Store) i o reg :
  registry.keyed El g -> registry.keyed El (<[key i o := registry.mkAny El i o reg]> g).
Proof.
  intros Hk k a. rewrite lookup_insert. case_decide as Heq.
  - intros [= <-]. symmetry. exact Heq.
  - apply Hk.
Qed.

Lemma stored_insert (g : Store) i o reg :
  registry.stored El i o (<[key i o := registry.mkAny El i o reg]> g) = reg.
Proof.
  unfold registry.stored. rewrite lookup_insert_eq, assertRegistry_same. reflexivity.
Qed.

(** A write through one pair leaves what the map holds for the other
    pairs, also for a pair of the same key. *)
Lemma stored_insert_other (g : Store) i o reg i' o' :
  (i, o) <> (i', o') ->
  registry.available El i o g ->
  registry.stored El i' o' (<[key i o := registry.mkAny El i o reg]> g)
  = registry.stored El i' o' g.
Proof.
  intros Hne Hav. unfold registry.stored.
  destruct (decide (key i o = key i' o')) as [Heq|Hk].
  - rewrite <- Heq, lookup_insert_eq, assertRegistry_other by exact Hne.
    destruct (g !! key i o) as [a|] eqn:Ha; [|reflexivity].
    destruct (available_lookup g i o a Hav Ha) as [r ->].
    rewrite assertRegistry_other by exact Hne. reflexivity.
  - rewrite lookup_insert_ne by exact Hk. reflexivity.
Qed.

(** [getRegistry] returns [stored] when the key of the pair is available. *)
Lemma getRegistry_run (g : Store) i o (w : World U) :
  registry.available El i o g ->
  exists g',
    registry.getRegistry El i o g w = Ok (g', registry.stored El i o g) w /\
    <[key i o := registry.mkAny El i o (registry.stored El i o g)]> g = g' /\
    (is_Some (g !! key i o) -> g' = g).
Proof.
  intros Hav. unfold registry.getRegistry, registry.stored.
  destruct (g !! key i o) as [a|] eqn:Ha.
  - destruct (available_lookup g i o a Hav Ha) as [reg ->].
    rewrite assertRegistry_same. exists g. repeat split.
    apply insert_id. exact Ha.
  - eexists. repeat split. intros [? [=]].
Qed.

(** When the map holds the registry of another type pair under the key of
    [i], [o], the type assertion of [getRegistry] panics. *)
Lemma getRegistry_key_clash (g : Store) i o i' o' reg (w : World U) :
  g !! key i o = Some (registry.mkAny El i' o' reg) ->
  (i', o') <> (i, o) ->
  registry.getRegistry El i o g w = Panicked "interface conversion".
Proof.
  intros Hg Hne. unfold registry.getRegistry. rewrite Hg.
  rewrite assertRegistry_other by exact Hne. reflexivity.
Qed.

Lemma GetLambda_run (g : Store) i o name (w : World U) :
  registry.available El i o g ->
  exists g',
    registry.GetLambda El i o name g w
      = Ok (g', registry.Get (registry.stored El i o g) name) w /\
    (is_Some (g !! key i o) -> g' = g).
Proof.
  intros Hav. destruct (getRegistry_run g i o w Hav) as (g' & Hrun & _ & Hsame).
  exists g'. split; [|exact Hsame].
  unfold registry.GetLambda, mbind, M_bind. rewrite Hrun. reflexivity.
Qed.

Lemma RegisterLambda_run (g : Store) i o name f opts (w : World U) :
  registry.available El i o g ->
  registry.Get (registry.stored El i o g) name = None ->
  exists reg w',
    registry.RegisterLambda El i o name f opts g w
      = Ok (<[key i o := registry.mkAny El i o reg]> g, None) w' /\
    (exists l, registry.Get reg name = Some l /\ core.invoke l = f /\ core.GetName l = name) /\
    (forall nm, nm <> name ->
       registry.Get reg nm = registry.Get (registry.stored El i o g) nm).
Proof.
  intros Hav Hfree.
  unfold registry.RegisterLambda.
  rewrite bind_run, NewLambda_run.
  set (w1 := setHeap _ w). set (l := core.mkLambda name f _ _).
  destruct (getRegistry_run g i o w1 Hav) as (g' & Hrun & Hins & _).
  rewrite bind_run, Hrun, bind_run, Register_run.
  change (core.GetName l) with name.
  unfold registry.Get in Hfree. rewrite Hfree.
  unfold registry.putRegistry. rewrite <- Hins, insert_insert_eq.
  eexists _, _. split; [reflexivity|]. split.
  - exists l. unfold registry.Get. cbn [registry.lambdas].
    rewrite lookup_insert_eq. auto.
  - intros nm Hnm. unfold registry.Get. cbn [registry.lambdas].
    rewrite lookup_insert_ne by congruence. reflexivity.
Qed.

(** Two type pairs whose keys differ are independent: a name that is free
    in both can be registered in both, one after the other, with no error.
    After the first registration the lookup of the name through the second
    pair still finds nothing; after both, the lookup through each pair
    finds the Unit registered through that pair, and no lookup through a
    pair, of any name, is changed by the registration through the other
    pair. *)
Lemma type_pairs_of_different_keys_independent
    (g : Store) i1 o1 i2 o2 name f1 f2 opts1 opts2 (w : World U) :
  key i1 o1 <> key i2 o2 ->
  registry.available El i1 o1 g ->
  registry.available El i2 o2 g ->
  registry.Get (registry.stored El i1 o1 g) name = None ->
  registry.Get (registry.stored El i2 o2 g) name = None ->
  exists g1 w1 g2 w2,
    registry.RegisterLambda El i1 o1 name f1 opts1 g w = Ok (g1, None) w1 /\
    registry.RegisterLambda El i2 o2 name f2 opts2 g1 w1 = Ok (g2, None) w2 /\
    (exists g', registry.GetLambda El i2 o2 name g1 w1 = Ok (g', None) w1) /\
    (exists l1, registry.GetLambda El i1 o1 name g2 w2 = Ok (g2, Some l1) w2 /\
                core.invoke l1 = f1 /\ core.GetName l1 = name) /\
    (exists l2, registry.GetLambda El i2 o2 name g2 w2 = Ok (g2, Some l2) w2 /\
                core.invoke l2 = f2 /\ core.GetName l2 = name) /\
    (forall nm, registry.Get (registry.stored El i2 o2 g1) nm
                = registry.Get (registry.stored El i2 o2 g) nm) /\
    (forall nm, registry.Get (registry.stored El i1 o1 g2) nm
                = registry.Get (registry.stored El i1 o1 g1) nm).
Proof.
  intros Hkeys Hav1 Hav2 Hfree1 Hfree2.
  assert (Hne : (i1, o1) <> (i2, o2)) by (intros [= -> ->]; congruence).
  destruct (RegisterLambda_run g i1 o1 name f1 opts1 w Hav1 Hfree1)
    as (reg1 & w1 & Hrun1 & (l1 & Hl1 & Hf1 & Hn1) & _).
  set (g1 := <[key i1 o1 := registry.mkAny El i1 o1 reg1]> g) in *.
  assert (Hav21 : registry.available El i2 o2 g1)
    by (apply available_insert_ne; assumption).
  assert (Hother1 : registry.stored El i2 o2 g1 = registry.stored El i2 o2 g)
    by (apply stored_insert_other; assumption).
  assert (Hfree2' : registry.Get (registry.stored El i2 o2 g1) name = None)
    by (rewrite Hother1; exact Hfree2).
  destruct (RegisterLambda_run g1 i2 o2 name f2 opts2 w1 Hav21 Hfree2')
    as (reg2 & w2 & Hrun2 & (l2 & Hl2 & Hf2 & Hn2) & _).
  set (g2 := <[key i2 o2 := registry.mkAny El i2 o2 reg2]> g1) in *.
  assert (Hav12 : registry.available El i1 o1 g2).
  { apply available_insert_ne; [congruence|]. apply available_insert. }
  assert (Hother2 : registry.stored El i1 o1 g2 = registry.stored El i1 o1 g1).
  { apply stored_insert_other; [congruence|exact Hav21]. }
  assert (Hin1 : is_Some (g2 !! key i1 o1)).
  { unfold g2. rewrite lookup_insert_ne by congruence.
    unfold g1. rewrite lookup_insert_eq. eauto. }
  assert (Hin2 : is_Some (g2 !! key i2 o2)).
  { unfold g2. rewrite lookup_insert_eq. eauto. }
  exists g1, w1, g2, w2.
  split; [exact Hrun1|]. split; [exact Hrun2|]. split; [|split; [|split; [|split]]].
  - destruct (GetLambda_run g1 i2 o2 name w1 Hav21) as (g' & Hget & _).
    exists g'. rewrite Hget, Hfree2'. reflexivity.
  - destruct (GetLambda_run g2 i1 o1 name w2 Hav12) as (g' & Hget & Hsame).
    rewrite (Hsame Hin1) in Hget. exists l1.
    rewrite Hget, Hother2. unfold g1. rewrite stored_insert, Hl1. auto.
  - destruct (GetLambda_run g2 i2 o2 name w2 (available_insert g1 i2 o2 reg2))
      as (g' & Hget & Hsame).
    rewrite (Hsame Hin2) in Hget. exists l2.
    rewrite Hget. unfold g2. rewrite stored_insert, Hl2. auto.
  - intros nm. rewrite Hother1. reflexivity.
  - intros nm. rewrite Hother2. reflexivity.
Qed.

End GlobalProperties.

Section InvokerProperties.
Context {U I O : Type} `{!GoZero O, !Reflect I, !Reflect O}.

Lemma updateMetrics_now (l : core.Lambda U I O) d err w w' :
  core.updateMetrics l d err w = Ok tt w' -> now w' = now w.
Proof.
  unfold core.updateMetrics. rewrite bind_run. unfold loadMetrics.
  destruct (heap w !! core.metrics l) as [m|]; [|discriminate].
  destruct (time.add (TotalInvocations m) 1 =? 0); [discriminate|].
  rewrite bind_run. unfold Now, storeMetrics.
  intros [= <-]. reflexivity.
Qed.

Lemma Lambda_Invoke_run (l : core.Lambda U I O) ctx input w :
  core.Invoke l ctx input w =
  match core.invokeWithRetry l
          (if 0 <? Timeout (core.options l)
           then context.WithTimeoutAt ctx (Timeout (core.options l)) (now w)
           else ctx) input w with
  | Ok (output, err) w1 =>
      let d := now w1 - now w in
      match (if EnableMetrics (core.options l)
             then core.updateMetrics l d err else mret tt) w1 with
      | Ok _ w2 => Ok (Some (mkResult output err d (now w)), err) w2
      | Blocked => Blocked
      | Panicked msg => Panicked msg
      end
  | Blocked => Blocked
  | Panicked msg => Panicked msg
  end.
Proof.
  unfold core.Invoke. rewrite bind_run. unfold Now at 1.
  rewrite bind_run.
  destruct (0 <? Timeout (core.options l)).
  - unfold WithTimeout. rewrite bind_run.
    destruct (core.invokeWithRetry _ _ _ _) as [[output err] w1| |]; try reflexivity.
  - rewrite ret_run, bind_run.
    destruct (core.invokeWithRetry _ _ _ _) as [[output err] w1| |]; try reflexivity.
Qed.

Lemma Lambda_Invoke_result (l : core.Lambda U I O) ctx input w res err w' :
  core.Invoke l ctx input w = Ok (res, err) w' ->
  exists out, res = Some (mkResult out err (now w' - now w) (now w)).
Proof.
  rewrite Lambda_Invoke_run.
  destruct (core.invokeWithRetry _ _ _ _) as [[output e] w1| |]; try discriminate.
  cbn zeta.
  destruct (EnableMetrics (core.options l)).
  - destruct (core.updateMetrics _ _ _ _) as [[] w2| |] eqn:Hup; try discriminate.
    intros [= <- <- <-]. apply updateMetrics_now in Hup. rewrite Hup. eauto.
  - rewrite ret_run. intros [= <- <- <-]. eauto.
Qed.

Lemma Err_done ctx t n :
  context.doneAt ctx = Some t -> t <= n -> is_Some (context.Err ctx n).
Proof.
  unfold context.doneAt, context.Err.
  destruct (context.cancelAt ctx) as [tc|], (context.deadline ctx) as [td|];
    intros [= <-] Hle.
  - destruct (Z.leb_spec tc td).
    + rewrite (proj2 (Z.leb_le tc n)) by lia. eauto.
    + rewrite (proj2 (Z.leb_le td n)) by lia. eauto.
  - rewrite (proj2 (Z.leb_le tc n)) by lia. eauto.
  - rewrite (proj2 (Z.leb_le td n)) by lia. eauto.
Qed.

Lemma doneReady_Err ctx (w : World U) td :
  doneReady ctx w = Some td -> now w <= td /\ is_Some (context.Err ctx td).
Proof.
  unfold doneReady. destruct (context.doneAt ctx) as [t|] eqn:Hd; [|discriminate].
  intros [= <-]. split; [lia|]. apply (Err_done ctx t); [assumption|lia].
Qed.

Lemma SelectSlotDone_false cap ctx (w w1 : World U) :
  SelectSlotDone cap ctx w = Ok false w1 -> is_Some (context.Err ctx (now w1)).
Proof.
  unfold SelectSlotDone.
  destruct (doneReady ctx w) as [td|] eqn:Hd.
  - apply doneReady_Err in Hd as [_ Herr].
    destruct (if held w <? cap then Some (now w) else Z.max (now w) <$> releaseAt w)
      as [ts|].
    + destruct (ts <? td); [discriminate|].
      destruct (td <? ts).
      * intros [= <-]. exact Herr.
      * destruct (pick w) as [[] w2]; [|discriminate].
        intros [= <-]. exact Herr.
    + intros [= <-]. exact Herr.
  - destruct (if held w <? cap then Some (now w) else Z.max (now w) <$> releaseAt w);
      discriminate.
Qed.

Local Abbreviation Registry := (registry.Registry U I O).
Implicit Types (reg : Registry) (inv : invoker.Invoker).

Lemma Invoke_cases reg inv ctx name input w res err w' :
  invoker.Invoke reg inv ctx name input w = Ok (res, err) w' ->
  (res = None /\ invoker.Get reg name = None /\ err = Some (NotFound name) /\ w' = w) \/
  (res = None /\ is_Some (invoker.Get reg name) /\ is_Some (invoker.semaphore inv) /\
   is_Some err /\ err = context.Err ctx (now w')) \/
  (exists r, is_Some (invoker.Get reg name) /\ res = Some r /\ Error r = err /\
             Duration r = now w' - Timestamp r).
Proof.
  unfold invoker.Invoke.
  destruct (invoker.Get reg name) as [l|]; [|intros [= <- <- <-]; auto].
  destruct (invoker.semaphore inv) as [cap|].
  - rewrite bind_run.
    destruct (SelectSlotDone cap ctx w) as [[] w1| |] eqn:Hsel; try discriminate.
    + rewrite bind_run.
      destruct (core.Invoke l ctx input w1) as [[res0 err0] w2| |] eqn:HI;
        try discriminate.
      rewrite bind_run. unfold ReleaseSlot. rewrite ret_run.
      intros [= <- <- <-]. right. right.
      apply Lambda_Invoke_result in HI as [out ->].
      eexists. repeat split; eauto.
    + rewrite bind_run. unfold CtxErrClosed. rewrite ret_run.
      intros [= <- <- <-]. right. left.
      apply SelectSlotDone_false in Hsel. repeat split; eauto.
  - intros HI. right. right.
    apply Lambda_Invoke_result in HI as [out ->].
    eexists. repeat split; eauto.
Qed.

Lemma Invoke_nil_error reg inv ctx name input w res w' :
  invoker.Invoke reg inv ctx name input w = Ok (res, None) w' ->
  exists r, res = Some r /\ Error r = None.
Proof.
  intros H. apply Invoke_cases in H as [(_ & _ & [=] & _)|[(_ & _ & _ & [? [=]] & _)|H]].
  destruct H as (r & _ & -> & He & _). eauto.
Qed.








Lemma pipelineLoop_error reg inv ctx name inputs i results w slice err w' :
  invoker.pipelineLoop reg inv ctx name inputs i results w = Ok (slice, Some err) w' ->
  slice = None.
Proof.
  revert i results w. induction inputs as [|input inputs IH]; intros i results w.
  - cbn. discriminate.
  - cbn [invoker.pipelineLoop]. rewrite bind_run.
    destruct (invoker.Invoke reg inv ctx name input w) as [[result [e|]] w1| |] eqn:HI;
      try discriminate.
    + rewrite ret_run. intros [= <- _ _]. reflexivity.
    + apply Invoke_nil_error in HI as (r & -> & ->). apply IH.
Qed.


End InvokerProperties.

Section RetryProperties.
Context {U I O : Type} `{!GoZero O, !Reflect I, !Reflect O}.

Lemma wrap64_small z : - 2 ^ 63 <= z < 2 ^ 63 -> time.wrap64 z = z.
Proof. intros Hz. unfold time.wrap64. rewrite Z.mod_small; lia. Qed.

Lemma linear_duration k :
  0 <= k <= 92233720368 ->
  time.mul (time.mul k 100) time.Millisecond = k * 100 * time.Millisecond.
Proof.
  intros Hk. unfold time.mul, time.Millisecond.
  rewrite (wrap64_small (k * 100)) by lia. apply wrap64_small. lia.
Qed.

Lemma setNow_now (w : World U) : setNow (now w) w = w.
Proof. destruct w; reflexivity. Qed.

Lemma Err_Some_doneAt ctx n :
  is_Some (context.Err ctx n) -> exists t, context.doneAt ctx = Some t /\ t <= n.
Proof.
  unfold context.doneAt, context.Err.
  destruct (context.cancelAt ctx) as [tc|], (context.deadline ctx) as [td|].
  - destruct (Z.leb_spec tc td).
    + destruct (Z.leb_spec tc n); intros [? [=]]. exists (Z.min tc td). split; [auto|lia].
    + destruct (Z.leb_spec td n); intros [? [=]]. exists (Z.min tc td). split; [auto|lia].
  - destruct (Z.leb_spec tc n); intros [? [=]]. eauto.
  - destruct (Z.leb_spec td n); intros [? [=]]. eauto.
  - intros [? [=]].
Qed.

Lemma pick_world (w w2 : World U) b :
  pick w = (b, w2) -> log w2 = log w /\ now w2 = now w.
Proof.
  unfold pick. destruct (sched w); intros [= <- <-]; auto.
Qed.

Lemma SelectDoneAfter_cases ctx d (w : World U) :
  exists b w1,
    SelectDoneAfter ctx d w = Ok b w1 /\
    ((b = true /\ log w1 = log w ++ [EvDone] /\ is_Some (context.Err ctx (now w1))) \/
     (b = false /\ log w1 = log w ++ [EvAfter d])).
Proof.
  unfold SelectDoneAfter.
  destruct (doneReady ctx w) as [td|] eqn:Hd.
  - apply doneReady_Err in Hd as [_ Herr].
    destruct (td <? now w + Z.max d 0).
    + eexists _, _. split; [reflexivity|]. left. auto.
    + destruct (now w + Z.max d 0 <? td).
      * eexists _, _. split; [reflexivity|]. right. auto.
      * destruct (pick w) as [[] w2] eqn:Hp.
        -- apply pick_world in Hp as [Hl _].
           eexists _, _. split; [reflexivity|]. left. cbn. rewrite Hl. auto.
        -- apply pick_world in Hp as [Hl _].
           eexists _, _. split; [reflexivity|]. right. cbn. rewrite Hl. auto.
  - eexists _, _. split; [reflexivity|]. right. auto.
Qed.

Lemma SelectDoneAfter_already_done ctx d (w : World U) :
  0 < d -> is_Some (context.Err ctx (now w)) ->
  SelectDoneAfter ctx d w = Ok true (addLog EvDone w).
Proof.
  intros Hd Herr. apply Err_Some_doneAt in Herr as (t & Hdone & Ht).
  unfold SelectDoneAfter, doneReady. rewrite Hdone. cbn [fmap option_fmap option_map].
  rewrite (Z.max_l (now w) t) by lia.
  rewrite (proj2 (Z.ltb_lt (now w) (now w + Z.max d 0))) by lia.
  rewrite setNow_now. reflexivity.
Qed.

Lemma updateMetrics_log (l : core.Lambda U I O) d err w w' :
  core.updateMetrics l d err w = Ok tt w' -> log w' = log w.
Proof.
  unfold core.updateMetrics. rewrite bind_run. unfold loadMetrics.
  destruct (heap w !! core.metrics l) as [m|]; [|discriminate].
  destruct (time.add (TotalInvocations m) 1 =? 0); [discriminate|].
  rewrite bind_run. unfold Now, storeMetrics.
  intros [= <-]. reflexivity.
Qed.

(** A poll of the context: it finds the context done or not, and at the
    instant at which the context becomes done either. *)
Lemma CtxErr_cases ctx (w : World U) :
  exists e w1,
    CtxErr ctx w = Ok e w1 /\ log w1 = log w /\ now w1 = now w /\
    (e = None \/ (is_Some e /\ e = context.Err ctx (now w))).
Proof.
  unfold CtxErr. destruct (decide (context.doneAt ctx = Some (now w))) as [Htie|_].
  - destruct (pick w) as [[] w1] eqn:Hp; apply pick_world in Hp as [Hl Hn].
    + eexists _, _. split; [reflexivity|]. split; [exact Hl|]. split; [exact Hn|].
      right. split; [|reflexivity]. apply (Err_done ctx (now w)); [exact Htie|lia].
    + eexists _, _. split; [reflexivity|]. auto.
  - eexists _, _. split; [reflexivity|]. split; [reflexivity|]. split; [reflexivity|].
    destruct (context.Err ctx (now w)) eqn:He; [right; eauto|left; reflexivity].
Qed.

Lemma CtxErr_not_done ctx (w : World U) :
  context.Err ctx (now w) = None -> CtxErr ctx w = Ok None w.
Proof.
  intros He. unfold CtxErr.
  destruct (decide (context.doneAt ctx = Some (now w))) as [Htie|_].
  - destruct (Err_done ctx (now w) (now w) Htie) as [e He']; [lia|congruence].
  - rewrite He. reflexivity.
Qed.

Lemma CtxErr_done_before ctx (w : World U) td :
  context.doneAt ctx = Some td -> td < now w ->
  CtxErr ctx w = Ok (context.Err ctx (now w)) w /\ is_Some (context.Err ctx (now w)).
Proof.
  intros Hd Hlt. unfold CtxErr.
  destruct (decide (context.doneAt ctx = Some (now w))) as [Htie|_].
  - rewrite Hd in Htie. injection Htie as ->. lia.
  - split; [reflexivity|]. apply (Err_done ctx td); [exact Hd|lia].
Qed.

Section Loop.
Variables (l : core.Lambda U I O) (tag : string) (g : core.InvokeFunc U I O).
Variable input : I.
Hypothesis Hinvoke : core.invoke l = fixtures.recording tag g.
Hypothesis Hframe : fixtures.keepsLog g.

Lemma invoke_log ctx w res w1 :
  core.invoke l ctx input w = Ok res w1 -> log w1 = log w ++ [EvUser tag].
Proof.
  rewrite Hinvoke. unfold fixtures.recording. rewrite bind_run. unfold record.
  intros Hg. apply Hframe in Hg. exact Hg.
Qed.

Lemma wait_step ctx k (w : World U) :
  0 <= k <= 92233720368 ->
  exists b w1,
    (if 0 <? k
     then SelectDoneAfter ctx (time.mul (time.mul k 100) time.Millisecond)
     else mret false) w = Ok b w1 /\
    ((b = true /\ 0 < k /\ log w1 = log w ++ [EvDone] /\
      is_Some (context.Err ctx (now w1))) \/
     (b = false /\
      log w1 = log w ++ (if 0 <? k then [EvAfter (k * 100 * time.Millisecond)] else []))).
Proof.
  intros Hk. destruct (Z.ltb_spec 0 k) as [Hpos|Hzero].
  - rewrite linear_duration by lia.
    destruct (SelectDoneAfter_cases ctx (k * 100 * time.Millisecond) w)
      as (b & w1 & Hsel & [(-> & Hlog & Herr)|(-> & Hlog)]).
    + exists true, w1. split; [exact Hsel|]. left. auto.
    + exists false, w1. split; [exact Hsel|]. right. auto.
  - exists false, w. split; [reflexivity|]. right. rewrite app_nil_r. auto.
Qed.

Lemma retryLoop_log ctx n : forall k lastErr w res w',
  0 <= k -> k + Z.of_nat n <= 92233720369 ->
  core.retryLoop l ctx input n k lastErr w = Ok res w' ->
  exists j : nat, (j <= n)%nat /\
    (((1 <= j)%nat /\ log w' = log w ++ fixtures.linearBackoffLog tag k j /\
      res.2 = None /\ exists wj, core.invoke l ctx input wj = Ok res w') \/
     ((j < n)%nat /\ 0 < k + Z.of_nat j /\
      log w' = log w ++ fixtures.linearBackoffLog tag k j ++ [EvDone] /\
      res = (zero, context.Err ctx (now w')) /\ is_Some (context.Err ctx (now w'))) \/
     ((1 <= j)%nat /\ log w' = log w ++ fixtures.linearBackoffLog tag k j /\
      res = (zero, context.Err ctx (now w')) /\ is_Some (context.Err ctx (now w'))) \/
     (j = n /\ log w' = log w ++ fixtures.linearBackoffLog tag k j /\
      res.1 = zero /\ (n = 0%nat -> res.2 = lastErr) /\ ((0 < n)%nat -> is_Some res.2))).
Proof.
  induction n as [|n IH]; intros k lastErr w res w' Hk Hbound Hrun.
  - cbn in Hrun. injection Hrun as <- <-. exists 0%nat. split; [lia|].
    right. right. right. cbn. rewrite app_nil_r. repeat split; auto. lia.
  - cbn [core.retryLoop] in Hrun. rewrite bind_run in Hrun.
    destruct (wait_step ctx k w) as (b & w1 & Hwait & Hcase); [lia|].
    rewrite Hwait in Hrun.
    destruct Hcase as [(-> & Hpos & Hlog & Herr)|(-> & Hlog)].
    + rewrite bind_run in Hrun. unfold CtxErrClosed in Hrun.
      injection Hrun as <- <-. exists 0%nat. split; [lia|].
      right. left. cbn. repeat split; auto; lia.
    + rewrite bind_run in Hrun.
      destruct (core.invoke l ctx input w1) as [[output err] w2| |] eqn:Hcall;
        try discriminate.
      pose proof (invoke_log _ _ _ _ Hcall) as Hlog2.
      destruct err as [e|].
      * rewrite bind_run in Hrun.
        destruct (CtxErr_cases ctx w2) as (ce & w3 & Hpoll & Hlog3 & Hnow3 & Hce).
        rewrite Hpoll in Hrun.
        assert (Hlog13 : log w3 = log w ++ fixtures.linearBackoffLog tag k 1).
        { rewrite Hlog3, Hlog2, Hlog. cbn. rewrite <- app_assoc. reflexivity. }
        destruct Hce as [->|[[ce' Hsome] Hce]].
        -- apply IH in Hrun; [|lia|lia].
           destruct Hrun as (j & Hj & Hcases).
           assert (Hlogj : forall tl,
             log w3 ++ fixtures.linearBackoffLog tag (k + 1) j ++ tl
             = log w ++ fixtures.linearBackoffLog tag k (S j) ++ tl).
           { intros tl. rewrite Hlog3, Hlog2, Hlog. cbn [fixtures.linearBackoffLog].
             rewrite <- !app_assoc. reflexivity. }
           exists (S j). split; [lia|].
           destruct Hcases as [(H1 & Hl & Hres & Hwj)|[(H1 & H2 & Hl & Hres & He)|
             [(H1 & Hl & Hres & He)|(H1 & Hl & Hz & Hn0 & Hn1)]]].
           ++ left. split; [lia|]. split; [|auto].
              rewrite Hl. specialize (Hlogj []). rewrite !app_nil_r in Hlogj. exact Hlogj.
           ++ right. left. split; [lia|]. split; [lia|]. split; [|auto].
              rewrite Hl. apply Hlogj.
           ++ right. right. left. split; [lia|]. split; [|auto].
              rewrite Hl. specialize (Hlogj []). rewrite !app_nil_r in Hlogj. exact Hlogj.
           ++ right. right. right. split; [lia|]. split.
              { rewrite Hl. specialize (Hlogj []). rewrite !app_nil_r in Hlogj. exact Hlogj. }
              split; [exact Hz|]. split; [lia|]. intros _.
              destruct n as [|n']; [rewrite Hn0 by reflexivity; eauto|apply Hn1; lia].
        -- rewrite Hsome in Hrun. rewrite ret_run in Hrun. injection Hrun as <- <-.
           assert (Herr3 : context.Err ctx (now w3) = Some ce') by congruence.
           exists 1%nat. split; [lia|]. right. right. left.
           rewrite Herr3. repeat split; eauto.
      * rewrite ret_run in Hrun. injection Hrun as <- <-.
        exists 1%nat. split; [lia|]. left. repeat split; eauto.
        rewrite Hlog2, Hlog. cbn. rewrite <- app_assoc. reflexivity.
Qed.

(** The loop returns when the function does. *)
Lemma retryLoop_returns ctx n :
  (forall w, exists r w1, g ctx input w = Ok r w1) ->
  forall k lastErr w, exists res w', core.retryLoop l ctx input n k lastErr w = Ok res w'.
Proof.
  intros Hret. induction n as [|n IH]; intros k lastErr w; [eexists _, _; reflexivity|].
  cbn [core.retryLoop]. rewrite bind_run.
  assert (Hwait : exists b w1,
    (if 0 <? k
     then SelectDoneAfter ctx (time.mul (time.mul k 100) time.Millisecond)
     else mret false) w = Ok b w1).
  { destruct (0 <? k); [|eexists _, _; reflexivity].
    destruct (SelectDoneAfter_cases ctx (time.mul (time.mul k 100) time.Millisecond) w)
      as (b & w1 & Hsel & _). eauto. }
  destruct Hwait as ([] & w1 & ->).
  - eexists _, _. reflexivity.
  - rewrite bind_run, Hinvoke. unfold fixtures.recording. rewrite bind_run. unfold record.
    destruct (Hret (addLog (EvUser tag) w1)) as ([out [e|]] & w2 & ->).
    + rewrite bind_run.
      destruct (CtxErr_cases ctx w2) as (ce & w3 & -> & _ & _ & _).
      destruct ce; [eexists _, _; reflexivity|apply IH].
    + eexists _, _. reflexivity.
Qed.

(** C8.  For a Unit with retry count [r] (up to 92233720368, beyond which
    [attempt * 100ms] leaves the range of [int64]) whose function returns
    and records each of its runs, [invokeWithRetry] returns, after [j]
    attempts, [j <= r + 1]; the log holds these attempts in order, the
    re-attempt numbered [k] after the timer of [k * 100ms]; and the call
    ends in one of four ways: the attempt [j] succeeded and its result is
    returned with nothing run after it; the context was done during the
    wait that follows the attempt [j], and the context's error is returned
    with no further attempt; the attempt [j] failed with the context done,
    and the context's error is returned; or all [r + 1] attempts failed.
    Step by step: when the context is already done at the wait before a
    re-attempt, the loop returns the context's error at once; an attempt
    that succeeds is what the loop returns; an attempt that fails with the
    context not done is followed by the next iteration, with its error for
    last error; and an attempt that fails after the context was done ends
    the loop with the context's error.  [Invoke] returns what
    [invokeWithRetry] returns under the deadline it derives, and the update
    of the metrics adds nothing to the log. *)
Theorem invokeWithRetry_linear_backoff :
  0 <= Retries (core.options l) <= 92233720368 ->
  (forall ctx w, exists r w1, g ctx input w = Ok r w1) ->
  (forall ctx w, exists res w' (j : nat),
     core.invokeWithRetry l ctx input w = Ok res w' /\
     Z.of_nat j <= Retries (core.options l) + 1 /\
     (((1 <= j)%nat /\ log w' = log w ++ fixtures.linearBackoffLog tag 0 j /\
       res.2 = None /\ exists wj, core.invoke l ctx input wj = Ok res w') \/
      (0 < Z.of_nat j <= Retries (core.options l) /\
       log w' = log w ++ fixtures.linearBackoffLog tag 0 j ++ [EvDone] /\
       res = (zero, context.Err ctx (now w')) /\ is_Some (context.Err ctx (now w'))) \/
      ((1 <= j)%nat /\ log w' = log w ++ fixtures.linearBackoffLog tag 0 j /\
       res = (zero, context.Err ctx (now w')) /\ is_Some (context.Err ctx (now w'))) \/
      (Z.of_nat j = Retries (core.options l) + 1 /\
       log w' = log w ++ fixtures.linearBackoffLog tag 0 j /\
       res.1 = zero /\ is_Some res.2))) /\
  (forall ctx n k lastErr w,
     0 < k <= 92233720368 ->
     is_Some (context.Err ctx (now w)) ->
     core.retryLoop l ctx input (S n) k lastErr w
     = Ok (zero, context.Err ctx (now w)) (addLog EvDone w)) /\
  (forall ctx n k lastErr w w1 out err w2,
     (if 0 <? k
      then SelectDoneAfter ctx (time.mul (time.mul k 100) time.Millisecond)
      else mret false) w = Ok false w1 ->
     core.invoke l ctx input w1 = Ok (out, err) w2 ->
     (err = None ->
      core.retryLoop l ctx input (S n) k lastErr w = Ok (out, None) w2) /\
     (is_Some err -> context.Err ctx (now w2) = None ->
      core.retryLoop l ctx input (S n) k lastErr w
      = core.retryLoop l ctx input n (k + 1) err w2) /\
     (forall td, is_Some err -> context.doneAt ctx = Some td -> td < now w2 ->
      core.retryLoop l ctx input (S n) k lastErr w
      = Ok (zero, context.Err ctx (now w2)) w2)) /\
  (forall ctx w,
     core.Invoke l ctx input w =
     match core.invokeWithRetry l
             (if 0 <? Timeout (core.options l)
              then context.WithTimeoutAt ctx (Timeout (core.options l)) (now w)
              else ctx) input w with
     | Ok (out, err) w1 =>
         match (if EnableMetrics (core.options l)
                then core.updateMetrics l (now w1 - now w) err else mret tt) w1 with
         | Ok _ w2 => Ok (Some (mkResult out err (now w1 - now w) (now w)), err) w2
         | Blocked => Blocked
         | Panicked msg => Panicked msg
         end
     | Blocked => Blocked
     | Panicked msg => Panicked msg
     end) /\
  (forall d err w1 w2, core.updateMetrics l d err w1 = Ok tt w2 -> log w2 = log w1).
Proof.
  intros Hr Hret. split; [|split; [|split; [|split]]].
  - intros ctx w. unfold core.invokeWithRetry.
    destruct (retryLoop_returns ctx (Z.to_nat (Retries (core.options l) + 1)) (Hret ctx)
                0 None w) as (res & w' & Hrun).
    exists res, w'. pose proof Hrun as Hlog.
    apply (retryLoop_log ctx) in Hlog; [|lia|lia].
    destruct Hlog as (j & Hj & Hcases). exists j. split; [exact Hrun|]. split; [lia|].
    destruct Hcases as [H|[(H1 & H2 & H)|[H|(H1 & Hl & Hz & _ & Hn1)]]].
    + left. exact H.
    + right. left. split; [lia|exact H].
    + right. right. left. exact H.
    + right. right. right. split; [lia|]. split; [exact Hl|]. split; [exact Hz|].
      apply Hn1. lia.
  - intros ctx n k lastErr w Hk Herr. cbn [core.retryLoop]. rewrite bind_run.
    rewrite (proj2 (Z.ltb_lt 0 k)) by lia.
    rewrite linear_duration by lia.
    rewrite SelectDoneAfter_already_done; [reflexivity| |exact Herr].
    unfold time.Millisecond. lia.
  - intros ctx n k lastErr w w1 out err w2 Hwait Hcall.
    assert (Hstep : core.retryLoop l ctx input (S n) k lastErr w =
      match err with
      | None => Ok (out, None) w2
      | Some _ =>
          match CtxErr ctx w2 with
          | Ok (Some ce) w3 => Ok (zero, Some ce) w3
          | Ok None w3 => core.retryLoop l ctx input n (k + 1) err w3
          | Blocked => Blocked
          | Panicked msg => Panicked msg
          end
      end).
    { cbn [core.retryLoop]. rewrite bind_run, Hwait, bind_run, Hcall.
      destruct err as [e|]; [|reflexivity].
      rewrite bind_run. destruct (CtxErr ctx w2) as [[ce|] w3| |]; reflexivity. }
    split; [|split].
    + intros ->. exact Hstep.
    + intros [e ->] Hnone. rewrite Hstep, CtxErr_not_done by exact Hnone. reflexivity.
    + intros td [e ->] Hd Hlt. rewrite Hstep.
      destruct (CtxErr_done_before ctx w2 td Hd Hlt) as [-> [ce Hce]].
      rewrite Hce. reflexivity.
  - intros ctx w. apply Lambda_Invoke_run.
  - intros d err w1 w2. apply updateMetrics_log.
Qed.

End Loop.

(** The backoff of the middleware [Retry] is [2^(k-1) * 100ms] capped at 5s
    for the re-attempts 1 to 37. *)
Lemma backoff_exponential_capped k :
  1 <= k <= 37 ->
  core.backoff k = Z.min (2 ^ (k - 1) * 100 * time.Millisecond) (5 * time.Second).
Proof.
  intros Hk.
  assert (H : forallb
                (fun k => core.backoff k
                          =? Z.min (2 ^ (k - 1) * 100 * time.Millisecond) (5 * time.Second))
                (seqZ 1 37) = true) by (vm_compute; reflexivity).
  rewrite forallb_forall in H. apply Z.eqb_eq, H, list_elem_of_In, elem_of_seqZ. lia.
Qed.

End RetryProperties.

Section Witnesses.
Import fixtures.

Lemma Register_duplicate_leaves_registry_witness :
  registry.Get regDouble (core.GetName (unitAt "math_double" double 2%positive))
    = Some (unitAt "math_double" double 1%positive) /\
  exists r',
    registry.Register regDouble (unitAt "math_double" double 2%positive) w0
      = Ok (r', Some (AlreadyRegistered "math_double")) w0 /\
    r' = regDouble /\
    registry.Get r' "math_double" = Some (unitAt "math_double" double 1%positive) /\
    registry.GetMeta r' "math_double" = registry.GetMeta regDouble "math_double".
Proof.
  split; [vm_compute; reflexivity|].
  apply (Register_duplicate_leaves_registry regDouble
           (unitAt "math_double" double 2%positive)
           (unitAt "math_double" double 1%positive) w0).
  vm_compute; reflexivity.
Defined.

Lemma Get_after_Register_round_trip_witness :
  registry.Register registry.NewRegistry (unitAt "math_double" double 1%positive) w0
    = Ok (regDouble, None) w0 /\
  exists found,
    registry.Get regDouble "math_double" = Some found /\
    core.GetName found = "math_double" /\
    found = unitAt "math_double" double 1%positive.
Proof.
  split; [vm_compute; reflexivity|].
  destruct (Get_after_Register_round_trip (U:=unit) (I:=Z) (O:=Z)) as (H & _).
  apply (H registry.NewRegistry (unitAt "math_double" double 1%positive) w0 regDouble w0).
  vm_compute; reflexivity.
Defined.

(** C3, as claimed, fails: ["math_double"] has a concrete Unit in
    [regBoth], and [Build] of that name succeeds, with a nil error and the
    registry unchanged. *)
Lemma Build_duplicate_succeeds :
  registry.Get regBoth "math_double" = Some (unitAt "math_double" double 1%positive) /\
  registry.Build regBoth "math_double" w0
    = Ok (regBoth, (Some (unitAt "math_double" double 2%positive), None)) w0.
Proof. split; vm_compute; reflexivity. Qed.

Lemma Build_registers_and_returns_witness :
  registry.constructors regBoth !! "math_double"
    = Some (mret (unitAt "math_double" double 2%positive)) /\
  exists r' e,
    registry.Register regBoth (unitAt "math_double" double 2%positive) w0
      = Ok (r', e) w0 /\
    registry.Build regBoth "math_double" w0
      = Ok (r', (Some (unitAt "math_double" double 2%positive), None)) w0.
Proof.
  split; [vm_compute; reflexivity|].
  destruct (Build_registers_and_returns regBoth "math_double" w0) as [_ H].
  destruct (H (mret (unitAt "math_double" double 2%positive))
              (unitAt "math_double" double 2%positive) w0) as (r' & e & H1 & H2 & _).
  - vm_compute; reflexivity.
  - reflexivity.
  - exists r', e. split; assumption.
Defined.

Lemma Unregister_keeps_constructor_witness :
  registry.lambdas regBoth !! "math_double" = Some (unitAt "math_double" double 1%positive) /\
  registry.constructors regBoth !! "math_double"
    = Some (mret (unitAt "math_double" double 2%positive)) /\
  exists r1 r2,
    registry.Unregister regBoth "math_double" = (r1, true) /\
    "math_double" ∈ registry.List r1 /\
    registry.Unregister r1 "math_double" = (r2, true).
Proof.
  split; [vm_compute; reflexivity|].
  split; [vm_compute; reflexivity|].
  destruct (Unregister_keeps_constructor regBoth "math_double"
              (unitAt "math_double" double 1%positive)
              (mret (unitAt "math_double" double 2%positive)))
    as (r1 & r2 & H1 & _ & _ & _ & H5 & _ & H7 & _).
  - vm_compute; reflexivity.
  - vm_compute; reflexivity.
  - exists r1, r2. repeat split; assumption.
Defined.

(** C5 on two types that [reflect] prints alike.  Two packages named
    [model] each declare a type [User]; both print as ["model.User"], so
    the pairs ([User], [int]) of the two packages, which differ, have the
    key ["model.User->int"] in common.  The name ["same"] is free in both.
    The registration through the first pair succeeds and stores its
    registry under that key; the registration through the second pair
    finds that registry there, and the type assertion of [getRegistry]
    panics, as does the lookup through the second pair. *)
Theorem RegisterLambda_same_type_string_panics :
  (UserA, Int) <> (UserB, Int) /\
  registry.registryKey ElModel UserA Int = "model.User->int" /\
  registry.registryKey ElModel UserB Int = "model.User->int" /\
  registry.Get (registry.stored (U:=unit) ElModel UserA Int ∅) "same" = None /\
  registry.Get (registry.stored (U:=unit) ElModel UserB Int ∅) "same" = None /\
  exists g1 w1,
    registry.RegisterLambda ElModel UserA Int "same" strlen [] ∅ w0 = Ok (g1, None) w1 /\
    registry.RegisterLambda ElModel UserB Int "same" double [] g1 w1
      = Panicked "interface conversion" /\
    registry.GetLambda ElModel UserB Int "same" g1 w1 = Panicked "interface conversion".
Proof.
  split; [discriminate|]. split; [reflexivity|]. split; [reflexivity|].
  split; [reflexivity|]. split; [reflexivity|].
  eexists _, _. split; [vm_compute; reflexivity|].
  split; vm_compute; reflexivity.
Qed.

(** Where the keys differ the pairs are independent: the pairs ([int],
    [int]) and ([string], [int]) under one name. *)
Example int_and_string_pairs_independent :
  exists g1 w1 g2 w2,
    registry.RegisterLambda El TInt TInt "same" double [] ∅ w0 = Ok (g1, None) w1 /\
    registry.RegisterLambda El TString TInt "same" strlen [] g1 w1 = Ok (g2, None) w2 /\
    (exists g', registry.GetLambda El TString TInt "same" g1 w1 = Ok (g', None) w1) /\
    (exists l1, registry.GetLambda El TInt TInt "same" g2 w2 = Ok (g2, Some l1) w2 /\
                core.invoke l1 = double /\ core.GetName l1 = "same") /\
    (exists l2, registry.GetLambda El TString TInt "same" g2 w2 = Ok (g2, Some l2) w2 /\
                core.invoke l2 = strlen /\ core.GetName l2 = "same").
Proof.
  destruct (type_pairs_of_different_keys_independent El
              ∅ TInt TInt TString TInt "same" double strlen [] [] w0)
    as (g1 & w1 & g2 & w2 & H1 & H2 & H3 & H4 & H5 & _).
  - vm_compute. discriminate.
  - apply available_empty.
  - apply available_empty.
  - reflexivity.
  - reflexivity.
  - exists g1, w1, g2, w2. repeat split; assumption.
Qed.

Lemma Execute_middleware_order_witness :
  (forall ctx input (next1 next2 : core.InvokeFunc unit Z Z),
     reject "no" ctx input next1 = reject "no" ctx input next2) /\
  core.Execute
    (core.NewChain (terminal "T" id) ([recorder "A"] ++ reject "no" :: [recorder "B"]))
    context.Background 1
  = core.Execute
      (core.NewChain double ([recorder "A"] ++ reject "no" :: [recorder "B"]))
      context.Background 1.
Proof.
  split; [reflexivity|].
  destruct (Execute_middleware_order (U:=unit) (I:=Z) (O:=Z)) as (_ & _ & H).
  apply H. reflexivity.
Defined.



(** C2 on a function-level error.  The Unit ["fail_on_2"] succeeds on 1
    and fails on 2: [Pipeline] on the inputs 1, 2, 3 returns a nil slice
    and the error of step 1 wrapped, not the results of the steps 0 and 1
    with the error of the function. *)
Theorem Pipeline_function_error_returns_nil_slice :
  exists w',
    invoker.Pipeline regFailOn2 invoker.NewInvoker context.Background "fail_on_2"
      [1; 2; 3] w0
    = Ok (None, Some (PipelineFailed 1 (UserError "boom"))) w'.
Proof. eexists. vm_compute. reflexivity. Qed.

Lemma failUntil_keepsLog t : keepsLog (failUntil t).
Proof.
  intros ctx input w r w'. unfold failUntil.
  destruct (now w <? t); intros [= _ <-]; reflexivity.
Defined.

Lemma failUntil_returns t ctx input (w : World unit) :
  exists r w1, failUntil t ctx input w = Ok r w1.
Proof. unfold failUntil. destruct (now w <? t); eexists _, _; reflexivity. Defined.

Lemma invokeWithRetry_linear_backoff_witness :
  core.invoke flaky = recording "attempt" (failUntil 300000000) /\
  0 <= Retries (core.options flaky) <= 92233720368 /\
  (forall ctx w, exists r w1, failUntil 300000000 ctx 21 w = Ok r w1) /\
  exists res w' (j : nat),
    core.invokeWithRetry flaky context.Background 21 w0 = Ok res w' /\
    Z.of_nat j <= Retries (core.options flaky) + 1 /\
    (log w' = log w0 ++ linearBackoffLog "attempt" 0 j \/
     log w' = log w0 ++ linearBackoffLog "attempt" 0 j ++ [EvDone]).
Proof.
  split; [reflexivity|]. split; [vm_compute; split; discriminate|].
  split; [intros ctx w; apply failUntil_returns|].
  destruct (invokeWithRetry_linear_backoff flaky "attempt" (failUntil 300000000) 21
              eq_refl (failUntil_keepsLog 300000000)) as (H & _).
  - vm_compute; split; discriminate.
  - intros ctx w. apply failUntil_returns.
  - destruct (H context.Background w0) as (res & w' & j & Hrun & Hj & Hcases).
    exists res, w', j. split; [exact Hrun|]. split; [exact Hj|].
    destruct Hcases as [(_ & Hl & _)|[(_ & Hl & _)|[(_ & Hl & _)|(_ & Hl & _)]]]; auto.
Defined.

(** A function that fails twice and succeeds on its third run, under three
    retries: the third attempt is returned, after the timers of 100ms and
    200ms, and no fourth attempt is recorded. *)
Example flaky_third_attempt_succeeds :
  exists w',
    core.invokeWithRetry flaky context.Background 21 w0 = Ok (42, None) w' /\
    log w' = [EvUser "attempt"; EvAfter 100000000; EvUser "attempt";
              EvAfter 200000000; EvUser "attempt"] /\
    now w' = 300000000.
Proof. eexists. split; [vm_compute; reflexivity|]. split; reflexivity. Qed.

(** C9 at [Retry(38)].  Before the re-attempt 38 the backoff is
    [2^37 * 100 * 10^6] nanoseconds in [int64], which wraps to a negative
    duration; it is not above 5s, so it is not capped, and its timer fires
    at once.  With a [next] that always fails, the 39 attempts take
    161.3s: 6.3s for the six doubling waits, 31 waits of 5s, and no wait
    before the last attempt. *)
Theorem Retry_backoff_overflows_at_attempt_38 :
  core.backoff 37 = 5 * time.Second /\
  core.backoff 38 = -4702848726509551616 /\
  exists w',
    core.Retry 38 context.Background 1 (failOn 1) w0
    = Ok (0, Some (AfterRetries 38 (Some (UserError "boom")))) w' /\
    last (log w') = Some (EvAfter (-4702848726509551616)) /\
    now w' = 161300000000.
Proof.
  split; [vm_compute; reflexivity|]. split; [vm_compute; reflexivity|].
  eexists. split; [vm_compute; reflexivity|]. split; vm_compute; reflexivity.
Qed.

End Witnesses.

(** * Further properties *)

(** ** The registry of one type pair *)

Section MoreRegistry.
Context {U I O : Type} `{!GoZero O, !Reflect I, !Reflect O}.

Local Abbreviation Lambda := (core.Lambda U I O).
Local Abbreviation Registry := (registry.Registry U I O).

Implicit Types (r : Registry) (lambda : Lambda) (w : World U).

Lemma filter_length_all {A} (P : A -> Prop) `{forall x, Decision (P x)} (l : list A) :
  (length (filter P l) <= length l)%nat /\
  (length (filter P l) = length l <-> Forall P l).
Proof.
  induction l as [|x l [IHle IHeq]]; [split; [reflexivity|split; auto]|].
  rewrite filter_cons. destruct (decide (P x)) as [Hx|Hx]; cbn [length].
  - split; [lia|]. rewrite Forall_cons. split.
    + intros Hlen. split; [exact Hx|]. apply IHeq. lia.
    + intros [_ Hall]. f_equal. apply IHeq. exact Hall.
  - split; [lia|]. rewrite Forall_cons. split; [lia|]. intros [Hx' _]. contradiction.
Qed.

(** X1.  [List] returns every name once: a name is listed exactly when it
    has a concrete Unit or a constructor, and a name that has both is not
    listed twice. *)
Theorem List_names_once r :
  NoDup (registry.List r) /\
  (forall name,
     name ∈ registry.List r <->
     is_Some (registry.lambdas r !! name) \/ is_Some (registry.constructors r !! name)).
Proof.
  split.
  - unfold registry.List. apply NoDup_app. split; [apply NoDup_fst_map_to_list|]. split.
    + intros name Hin1 Hin2. apply list_elem_of_filter in Hin2 as [Hnone _].
      apply list_elem_of_fmap in Hin1 as [[k v] [-> Hin1]].
      apply elem_of_map_to_list in Hin1. cbn in Hnone. congruence.
    + apply NoDup_filter, NoDup_fst_map_to_list.
  - intros name. rewrite elem_of_List. split.
    + intros [Hl|[_ Hc]]; auto.
    + intros [Hl|Hc]; [auto|].
      destruct (registry.lambdas r !! name) eqn:Hl; [left; eauto|right; auto].
Qed.

(** X2.  [Count] is the number of concrete Units plus the number of
    constructors, so it is at least the length of [List], and equal to it
    exactly when no constructor shares its name with a concrete Unit. *)
Theorem Count_counts_twice r :
  Z.of_nat (length (registry.List r)) <= registry.Count r /\
  (Z.of_nat (length (registry.List r)) = registry.Count r <->
   forall name, is_Some (registry.constructors r !! name) ->
                registry.lambdas r !! name = None).
Proof.
  unfold registry.List, registry.Count.
  rewrite length_app, !length_fmap.
  pose proof (filter_length_all (fun name => registry.lambdas r !! name = None)
                (map_to_list (registry.constructors r)).*1) as [Hle Heq].
  rewrite length_fmap in Hle, Heq.
  rewrite <- !(length_map_to_list (M:=gmap string)) in *.
  split; [lia|]. split.
  - intros Hlen name [c Hc].
    assert (Hall : Forall (fun name => registry.lambdas r !! name = None)
                     (map_to_list (registry.constructors r)).*1) by (apply Heq; lia).
    rewrite Forall_forall in Hall. apply Hall.
    apply list_elem_of_fmap. exists (name, c). split; [reflexivity|].
    apply elem_of_map_to_list. exact Hc.
  - intros Hnone.
    assert (Hall : Forall (fun name => registry.lambdas r !! name = None)
                     (map_to_list (registry.constructors r)).*1).
    { rewrite Forall_forall. intros name Hin.
      apply list_elem_of_fmap in Hin as [[k c] [-> Hin]].
      apply elem_of_map_to_list in Hin. apply Hnone. eauto. }
    apply Heq in Hall. lia.
Qed.

(** X3.  [Unregister] answers true exactly when the name has a concrete Unit
    or a constructor, and leaves the registry as it was when it answers
    false.  After it the name has no concrete Unit; when it had one, its
    metadata is gone and the constructors are untouched; when it had none,
    its constructor is gone and the metadata is untouched.  Every other
    name keeps its Unit, its metadata and its constructor. *)
Theorem Unregister_removes_one_name r name r' ok :
  registry.Unregister r name = (r', ok) ->
  (ok = true <->
   is_Some (registry.Get r name) \/ is_Some (registry.constructors r !! name)) /\
  (ok = false -> r' = r) /\
  registry.Get r' name = None /\
  (is_Some (registry.Get r name) ->
   registry.GetMeta r' name = None /\
   registry.constructors r' = registry.constructors r) /\
  (registry.Get r name = None ->
   registry.constructors r' !! name = None /\ registry.meta r' = registry.meta r) /\
  (forall n, n <> name ->
     registry.Get r' n = registry.Get r n /\
     registry.GetMeta r' n = registry.GetMeta r n /\
     registry.constructors r' !! n = registry.constructors r !! n).
Proof.
  unfold registry.Unregister, registry.Get, registry.GetMeta.
  destruct (registry.lambdas r !! name) as [l|] eqn:Hl.
  - intros [= <- <-]. cbn [registry.lambdas registry.meta registry.constructors].
    rewrite !lookup_delete_eq.
    split; [split; eauto|]. split; [discriminate|]. split; [reflexivity|].
    split; [auto|]. split; [discriminate|].
    intros n Hn. rewrite !lookup_delete_ne by congruence. auto.
  - destruct (registry.constructors r !! name) as [c|] eqn:Hc.
    + intros [= <- <-]. cbn [registry.lambdas registry.meta registry.constructors].
      rewrite lookup_delete_eq.
      split; [split; eauto|]. split; [discriminate|]. split; [exact Hl|].
      split; [intros [? [=]]|]. split; [auto|].
      intros n Hn. rewrite lookup_delete_ne by congruence. auto.
    + intros [= <- <-].
      split; [split; [discriminate|intros [[? [=]]|[? [=]]]]|].
      split; [reflexivity|]. split; [exact Hl|].
      split; [intros [? [=]]|]. split; [auto|]. auto.
Qed.

Lemma consistent_insert r lambda m :
  registry.consistent r ->
  Name m = core.GetName lambda ->
  registry.consistent
    (registry.mkRegistry (<[core.GetName lambda := lambda]> (registry.lambdas r))
       (registry.constructors r) (<[core.GetName lambda := m]> (registry.meta r))).
Proof.
  intros (Hnames & Hdom & Hmeta) Hm. repeat split; cbn [registry.lambdas registry.meta].
  - intros k l. rewrite lookup_insert. case_decide as Hk; [intros [= <-]; congruence|].
    apply Hnames.
  - rewrite !dom_insert_L, Hdom. reflexivity.
  - intros k m'. rewrite lookup_insert. case_decide as Hk; [intros [= <-]; congruence|].
    apply Hmeta.
Qed.

Lemma consistent_Register r lambda w r' e w' :
  registry.consistent r ->
  registry.Register r lambda w = Ok (r', e) w' -> registry.consistent r'.
Proof.
  intros Hc. rewrite Register_run.
  destruct (registry.lambdas r !! core.GetName lambda); intros [= <- _ _];
    [exact Hc|].
  apply consistent_insert; [exact Hc|reflexivity].
Qed.

(** X4.  A new registry is consistent (every Unit is stored under its own
    name, and the names that have metadata are those that have a Unit, each
    with metadata of that name), and [Register],
    [RegisterWithConstructor], [Build], [Unregister] and [Clear] keep it
    so.  In a consistent registry a Unit that [Get] finds has the name
    asked for, and [GetMeta] finds metadata of that name. *)
Theorem registry_stays_consistent :
  registry.consistent (registry.NewRegistry : Registry) /\
  (forall r, registry.consistent r ->
     (forall lambda w r' e w',
        registry.Register r lambda w = Ok (r', e) w' -> registry.consistent r') /\
     (forall name c, registry.consistent (registry.RegisterWithConstructor r name c)) /\
     (forall name w r' res w',
        registry.Build r name w = Ok (r', res) w' -> registry.consistent r') /\
     (forall name, registry.consistent (registry.Unregister r name).1) /\
     registry.consistent (registry.Clear r) /\
     (forall name l, registry.Get r name = Some l ->
        core.GetName l = name /\
        exists m, registry.GetMeta r name = Some m /\ Name m = name)).
Proof.
  assert (Hnew : registry.consistent (registry.NewRegistry : Registry)).
  { unfold registry.consistent, registry.NewRegistry.
    cbn [registry.lambdas registry.meta]. split; [|split].
    - intros k l. rewrite lookup_empty. discriminate.
    - rewrite !dom_empty_L. reflexivity.
    - intros k m. rewrite lookup_empty. discriminate. }
  split; [exact Hnew|]. intros r Hc. split; [|split; [|split; [|split; [|split]]]].
  - intros lambda w r' e w'. apply consistent_Register. exact Hc.
  - intros name c. exact Hc.
  - intros name w r' res w'. unfold registry.Build.
    destruct (registry.constructors r !! name) as [c|]; [|intros [= <- _ _]; exact Hc].
    rewrite bind_run. destruct (c w) as [lambda w1| |]; try discriminate.
    rewrite bind_run.
    destruct (registry.Register r lambda w1) as [[r1 e] w2| |] eqn:Hreg; try discriminate.
    intros [= <- _ _]. apply (consistent_Register _ _ _ _ _ _ Hc Hreg).
  - intros name. destruct Hc as (Hnames & Hdom & Hmeta). unfold registry.Unregister.
    destruct (registry.lambdas r !! name) as [l|].
    + repeat split; cbn [fst registry.lambdas registry.meta].
      * intros k l'. rewrite lookup_delete. case_decide; [discriminate|]. apply Hnames.
      * rewrite !dom_delete_L, Hdom. reflexivity.
      * intros k m. rewrite lookup_delete. case_decide; [discriminate|]. apply Hmeta.
    + destruct (registry.constructors r !! name); repeat split; assumption.
  - exact Hnew.
  - intros name l Hl. destruct Hc as (Hnames & Hdom & Hmeta). split; [apply Hnames, Hl|].
    assert (Hin : name ∈ dom (registry.meta r)).
    { rewrite Hdom. apply elem_of_dom. unfold registry.Get in Hl. eauto. }
    apply elem_of_dom in Hin as [m Hm]. exists m. split; [exact Hm|]. apply Hmeta, Hm.
Qed.

(** X5.  [Register] of a Unit whose name is free returns a nil error, and
    then [Get] finds that Unit and [GetMeta] finds metadata with its name,
    the strings of its input and output types, the component type of its
    options, and the instant of the registration.  The constructors and the
    other names are untouched, and so is the run. *)
Theorem Register_records_unit_and_metadata r lambda w :
  registry.Get r (core.GetName lambda) = None ->
  exists r',
    registry.Register r lambda w = Ok (r', None) w /\
    registry.Get r' (core.GetName lambda) = Some lambda /\
    registry.GetMeta r' (core.GetName lambda)
      = Some (mkMeta (core.GetName lambda) (typeString I) (typeString O)
                (ComponentType (core.GetOptions lambda)) (now w)) /\
    registry.constructors r' = registry.constructors r /\
    (forall n, n <> core.GetName lambda ->
       registry.Get r' n = registry.Get r n /\
       registry.GetMeta r' n = registry.GetMeta r n).
Proof.
  intros Hfree. rewrite Register_run. unfold registry.Get in Hfree. rewrite Hfree.
  eexists. split; [reflexivity|].
  unfold registry.Get, registry.GetMeta. cbn [registry.lambdas registry.meta registry.constructors].
  rewrite !lookup_insert_eq. split; [reflexivity|]. split; [reflexivity|].
  split; [reflexivity|]. intros n Hn.
  rewrite !lookup_insert_ne by congruence. auto.
Qed.
End MoreRegistry.

(** ** The global map of registries *)

Section MoreGlobal.
Context {U T : Type} `{EqDecision T} (El : T -> Type).
Context {El_zero : forall t, GoZero (El t)} {El_reflect : forall t, Reflect (El t)}.

Local Abbreviation Store := (gmap string (registry.AnyRegistry (U:=U) El)).
Local Abbreviation key := (registry.registryKey El).
Local Abbreviation put i o reg g := (<[key i o := registry.mkAny El i o reg]> g).

Lemma getRegistry_put (g : Store) i o (w : World U) :
  registry.available El i o g ->
  exists g',
    registry.getRegistry El i o g w = Ok (g', registry.stored El i o g) w /\
    forall reg, registry.putRegistry El i o reg g' = put i o reg g.
Proof.
  intros Hav. destruct (getRegistry_run El g i o w Hav) as (g' & Hrun & Hins & _).
  exists g'. split; [exact Hrun|]. intros reg. unfold registry.putRegistry.
  rewrite <- Hins, insert_insert_eq. reflexivity.
Qed.

(** [getRegistry] returns only where the key of the pair is available. *)
Lemma getRegistry_returns (g : Store) i o (w : World U) r w' :
  registry.getRegistry El i o g w = Ok r w' -> registry.available El i o g.
Proof.
  unfold registry.getRegistry, registry.available.
  destruct (g !! key i o) as [a|]; [|intros _ a [=]].
  destruct (registry.assertRegistry El i o a) as [reg|] eqn:Ha; [|discriminate].
  apply assertRegistry_Some in Ha as ->. intros _ a [= <-]. auto.
Qed.

Lemma RegisterLambda_any_run (g : Store) i o name f opts (w : World U) :
  registry.available El i o g ->
  exists reg e w',
    registry.RegisterLambda El i o name f opts g w = Ok (put i o reg g, e) w' /\
    w' = setHeap (<[fresh (dom (heap w)) := zeroMetrics]> (heap w)) w /\
    registry.Register (registry.stored El i o g)
      (core.mkLambda name f (core.applyOptions opts DefaultOptions)
         (fresh (dom (heap w)))) w' = Ok (reg, e) w'.
Proof.
  intros Hav. unfold registry.RegisterLambda. rewrite bind_run, NewLambda_run.
  set (w1 := setHeap _ w). set (l := core.mkLambda name f _ _).
  destruct (getRegistry_put g i o w1 Hav) as (g' & Hrun & Hput).
  rewrite bind_run, Hrun, bind_run.
  destruct (registry.Register (registry.stored El i o g) l w1) as [[reg e] w2| |] eqn:Hreg.
  - assert (w2 = w1) as ->.
    { rewrite Register_run in Hreg.
      destruct (registry.lambdas _ !! core.GetName l); injection Hreg as _ _ <-;
        reflexivity. }
    rewrite ret_run, Hput. eauto 10.
  - rewrite Register_run in Hreg. destruct (registry.lambdas _ !! core.GetName l);
      discriminate.
  - rewrite Register_run in Hreg. destruct (registry.lambdas _ !! core.GetName l);
      discriminate.
Qed.

Lemma UnregisterLambda_run (g : Store) i o name (w : World U) :
  registry.available El i o g ->
  registry.UnregisterLambda El i o name g w
  = Ok (put i o (registry.Unregister (registry.stored El i o g) name).1 g,
        (registry.Unregister (registry.stored El i o g) name).2) w.
Proof.
  intros Hav. unfold registry.UnregisterLambda.
  destruct (getRegistry_put g i o w Hav) as (g' & Hrun & Hput).
  rewrite bind_run, Hrun.
  destruct (registry.Unregister (registry.stored El i o g) name) as [reg ok].
  rewrite ret_run, Hput. reflexivity.
Qed.

Lemma RegisterLambdaWithConstructor_run (g : Store) i o name c (w : World U) :
  registry.available El i o g ->
  registry.RegisterLambdaWithConstructor El i o name c g w
  = Ok (put i o (registry.RegisterWithConstructor (registry.stored El i o g) name c) g) w.
Proof.
  intros Hav. unfold registry.RegisterLambdaWithConstructor.
  destruct (getRegistry_put g i o w Hav) as (g' & Hrun & Hput).
  rewrite bind_run, Hrun, ret_run, Hput. reflexivity.
Qed.

Lemma BuildLambda_run (g : Store) i o name (w : World U) :
  registry.available El i o g ->
  registry.BuildLambda El i o name g w
  = match registry.Build (registry.stored El i o g) name w with
    | Ok (reg, res) w' => Ok (put i o reg g, res) w'
    | Blocked => Blocked
    | Panicked msg => Panicked msg
    end.
Proof.
  intros Hav. unfold registry.BuildLambda.
  destruct (getRegistry_put g i o w Hav) as (g' & Hrun & Hput).
  rewrite bind_run, Hrun, bind_run.
  destruct (registry.Build _ name w) as [[reg res] w'| |]; [|reflexivity..].
  rewrite ret_run, Hput. reflexivity.
Qed.

(** Where the key of the pair holds the registry of another pair, every
    function of the package that goes through [getRegistry] panics. *)
Lemma key_clash_panics (g : Store) i o i' o' reg (w : World U) :
  g !! key i o = Some (registry.mkAny El i' o' reg) ->
  (i', o') <> (i, o) ->
  (forall name f opts,
     registry.RegisterLambda El i o name f opts g w = Panicked "interface conversion") /\
  (forall name c,
     registry.RegisterLambdaWithConstructor El i o name c g w
     = Panicked "interface conversion") /\
  (forall name, registry.GetLambda El i o name g w = Panicked "interface conversion") /\
  (forall name, registry.BuildLambda El i o name g w = Panicked "interface conversion") /\
  (forall name,
     registry.UnregisterLambda El i o name g w = Panicked "interface conversion").
Proof.
  intros Hg Hne.
  assert (Hpanic : forall w1 : World U,
            registry.getRegistry El i o g w1 = Panicked "interface conversion").
  { intros w1. apply (getRegistry_key_clash El g i o i' o' reg); assumption. }
  split; [|split; [|split; [|split]]].
  - intros name f opts. unfold registry.RegisterLambda.
    rewrite bind_run, NewLambda_run, bind_run, Hpanic. reflexivity.
  - intros name c. unfold registry.RegisterLambdaWithConstructor.
    rewrite bind_run, Hpanic. reflexivity.
  - intros name. unfold registry.GetLambda. rewrite bind_run, Hpanic. reflexivity.
  - intros name. unfold registry.BuildLambda. rewrite bind_run, Hpanic. reflexivity.
  - intros name. unfold registry.UnregisterLambda. rewrite bind_run, Hpanic. reflexivity.
Qed.

(** X6.  [getRegistry] finds, makes or panics.  When the key of the type
    pair is free it stores an empty registry under the key and returns it;
    when the key holds a registry of the pair it returns that registry and
    leaves the map as it is; when the key holds the registry of another
    pair, as it does when the types of the two pairs print alike, its type
    assertion panics, and so does every function of the package that goes
    through it.  A call of one of these functions that returns leaves every
    registry of the map under the key of its own type pair, and
    [GetLambda] returns what [Get] finds in the registry of the pair. *)
Theorem getRegistry_finds_makes_or_panics (g : Store) i o (w : World U) :
  (g !! key i o = None ->
   registry.getRegistry El i o g w
   = Ok (<[key i o := registry.mkAny El i o registry.NewRegistry]> g,
         registry.NewRegistry) w) /\
  (forall reg,
     g !! key i o = Some (registry.mkAny El i o reg) ->
     registry.getRegistry El i o g w = Ok (g, reg) w) /\
  (forall i' o' reg,
     g !! key i o = Some (registry.mkAny El i' o' reg) ->
     (i', o') <> (i, o) ->
     registry.getRegistry El i o g w = Panicked "interface conversion" /\
     (forall name f opts,
        registry.RegisterLambda El i o name f opts g w
        = Panicked "interface conversion") /\
     (forall name c,
        registry.RegisterLambdaWithConstructor El i o name c g w
        = Panicked "interface conversion") /\
     (forall name,
        registry.GetLambda El i o name g w = Panicked "interface conversion") /\
     (forall name,
        registry.BuildLambda El i o name g w = Panicked "interface conversion") /\
     (forall name,
        registry.UnregisterLambda El i o name g w = Panicked "interface conversion")) /\
  (registry.keyed El g ->
   (forall name f opts g' e w',
      registry.RegisterLambda El i o name f opts g w = Ok (g', e) w' ->
      registry.keyed El g') /\
   (forall name c g' w',
      registry.RegisterLambdaWithConstructor El i o name c g w = Ok g' w' ->
      registry.keyed El g') /\
   (forall name g' found w',
      registry.GetLambda El i o name g w = Ok (g', found) w' ->
      registry.keyed El g' /\ found = registry.Get (registry.stored El i o g) name) /\
   (forall name g' res w',
      registry.BuildLambda El i o name g w = Ok (g', res) w' ->
      registry.keyed El g') /\
   (forall name g' ok w',
      registry.UnregisterLambda El i o name g w = Ok (g', ok) w' ->
      registry.keyed El g')).
Proof.
  split; [|split; [|split]].
  - intros Hnone. unfold registry.getRegistry. rewrite Hnone. reflexivity.
  - intros reg Hreg. unfold registry.getRegistry.
    rewrite Hreg, assertRegistry_same. reflexivity.
  - intros i' o' reg Hg Hne.
    split; [apply (getRegistry_key_clash El g i o i' o' reg); assumption|].
    apply (key_clash_panics g i o i' o' reg); assumption.
  - intros Hk. split; [|split; [|split; [|split]]].
    + intros name f opts g' e w'. unfold registry.RegisterLambda.
      rewrite bind_run, NewLambda_run, bind_run.
      destruct (registry.getRegistry El i o g _) as [[g1 reg1] w1| |] eqn:Hget;
        try discriminate.
      apply getRegistry_returns in Hget as Hav. intros Hrun.
      destruct (RegisterLambda_any_run g i o name f opts w Hav)
        as (reg & e0 & w0 & Hrun' & _).
      unfold registry.RegisterLambda in Hrun'.
      rewrite bind_run, NewLambda_run, bind_run, Hget in Hrun'.
      rewrite Hrun' in Hrun. injection Hrun as <- _ _. apply keyed_insert, Hk.
    + intros name c g' w' Hrun.
      assert (Hav : registry.available El i o g).
      { unfold registry.RegisterLambdaWithConstructor in Hrun. rewrite bind_run in Hrun.
        destruct (registry.getRegistry El i o g w) as [r w1| |] eqn:Hget;
          try discriminate.
        apply (getRegistry_returns _ _ _ _ _ _ Hget). }
      rewrite RegisterLambdaWithConstructor_run in Hrun by exact Hav.
      injection Hrun as <- _. apply keyed_insert, Hk.
    + intros name g' found w' Hrun.
      assert (Hav : registry.available El i o g).
      { unfold registry.GetLambda in Hrun. rewrite bind_run in Hrun.
        destruct (registry.getRegistry El i o g w) as [r w1| |] eqn:Hget;
          try discriminate.
        apply (getRegistry_returns _ _ _ _ _ _ Hget). }
      destruct (getRegistry_run El g i o w Hav) as (g0 & Hget & Hins & _).
      unfold registry.GetLambda in Hrun. rewrite bind_run, Hget, ret_run in Hrun.
      injection Hrun as <- <- _. split; [|reflexivity].
      rewrite <- Hins. apply keyed_insert, Hk.
    + intros name g' res w' Hrun.
      assert (Hav : registry.available El i o g).
      { unfold registry.BuildLambda in Hrun. rewrite bind_run in Hrun.
        destruct (registry.getRegistry El i o g w) as [r w1| |] eqn:Hget;
          try discriminate.
        apply (getRegistry_returns _ _ _ _ _ _ Hget). }
      rewrite BuildLambda_run in Hrun by exact Hav.
      destruct (registry.Build _ name w) as [[reg res0] w0| |]; try discriminate.
      injection Hrun as <- _ _. apply keyed_insert, Hk.
    + intros name g' ok w' Hrun.
      assert (Hav : registry.available El i o g).
      { unfold registry.UnregisterLambda in Hrun. rewrite bind_run in Hrun.
        destruct (registry.getRegistry El i o g w) as [r w1| |] eqn:Hget;
          try discriminate.
        apply (getRegistry_returns _ _ _ _ _ _ Hget). }
      rewrite UnregisterLambda_run in Hrun by exact Hav.
      injection Hrun as <- _ _. apply keyed_insert, Hk.
Qed.

(** X7.  [RegisterLambda] of a name that is taken for the type pair returns
    the already-registered error.  It has by then made the new Unit, so a
    fresh metrics record is allocated, but the map of the registries is as
    it was, and [GetLambda] still returns the first Unit. *)
Theorem RegisterLambda_duplicate_keeps_first (g : Store) i o name f opts l (w : World U) :
  registry.Get (registry.stored El i o g) name = Some l ->
  exists w',
    registry.RegisterLambda El i o name f opts g w
      = Ok (g, Some (AlreadyRegistered name)) w' /\
    heap w' = <[fresh (dom (heap w)) := zeroMetrics]> (heap w) /\
    registry.GetLambda El i o name g w' = Ok (g, Some l) w'.
Proof.
  intros Hl. destruct (stored_available El g i o l name Hl) as [Hav Hentry].
  destruct (RegisterLambda_any_run g i o name f opts w Hav)
    as (reg & e & w' & Hrun & Hw & Hreg).
  rewrite Register_run in Hreg. cbn [core.GetName core.name] in Hreg.
  unfold registry.Get in Hl. rewrite Hl in Hreg. injection Hreg as <- <-.
  assert (Hput : put i o (registry.stored El i o g) g = g)
    by (apply insert_id; exact Hentry).
  rewrite Hput in Hrun.
  exists w'. split; [exact Hrun|]. split; [rewrite Hw; reflexivity|].
  destruct (GetLambda_run El g i o name w' Hav) as (g2 & Hget & Hg2).
  rewrite Hget, Hg2 by (rewrite Hentry; eauto).
  unfold registry.Get. rewrite Hl. reflexivity.
Qed.

(** X8.  [UnregisterLambda] of a registered name answers true and leaves
    the run as it was; the name is then free for the type pair, the
    registries of the other type pairs are untouched, and [RegisterLambda]
    of the same name succeeds again. *)
Theorem UnregisterLambda_frees_name (g : Store) i o name l (w : World U) :
  registry.Get (registry.stored El i o g) name = Some l ->
  exists g',
    registry.UnregisterLambda El i o name g w = Ok (g', true) w /\
    registry.Get (registry.stored El i o g') name = None /\
    (forall i' o', (i, o) <> (i', o') ->
       registry.stored El i' o' g' = registry.stored El i' o' g) /\
    (forall f opts, exists g2 w2,
       registry.RegisterLambda El i o name f opts g' w = Ok (g2, None) w2).
Proof.
  intros Hl. destruct (stored_available El g i o l name Hl) as [Hav _].
  rewrite UnregisterLambda_run by exact Hav.
  unfold registry.Unregister. unfold registry.Get in Hl. rewrite Hl. cbn [fst snd].
  eexists. split; [reflexivity|].
  rewrite stored_insert.
  assert (Hnone : forall reg : registry.Registry U (El i) (El o),
            registry.lambdas reg = delete name (registry.lambdas (registry.stored El i o g)) ->
            registry.Get reg name = None).
  { intros reg Hreg. unfold registry.Get. rewrite Hreg. apply lookup_delete_eq. }
  split; [apply Hnone; reflexivity|]. split.
  - intros i' o' Hne. apply (stored_insert_other El); assumption.
  - intros f opts.
    destruct (RegisterLambda_run El
                (put i o (registry.mkRegistry
                            (delete name (registry.lambdas (registry.stored El i o g)))
                            (registry.constructors (registry.stored El i o g))
                            (delete name (registry.meta (registry.stored El i o g)))) g)
                i o name f opts w)
      as (reg2 & w2 & Hrun & _);
      [apply available_insert|rewrite stored_insert; apply Hnone; reflexivity|].
    eauto.
Qed.

(** X9.  Where the key of the type pair is free or holds the registry of
    the pair, [RegisterLambdaWithConstructor] stores the constructor
    without running it: [Get] still finds nothing under the name.
    [BuildLambda] then runs the constructor, returns the Unit it made with
    a nil error, and registers it, so that [Get] finds it afterwards.
    Where the key holds the registry of another pair, both calls panic. *)
Theorem BuildLambda_materializes (g : Store) i o name
    (c : M U (core.Lambda U (El i) (El o))) (w : World U) :
  (registry.available El i o g ->
   registry.Get (registry.stored El i o g) name = None ->
   forall l w1,
     c w = Ok l w1 ->
     core.GetName l = name ->
     exists g1 g2,
       registry.RegisterLambdaWithConstructor El i o name c g w = Ok g1 w /\
       registry.Get (registry.stored El i o g1) name = None /\
       registry.BuildLambda El i o name g1 w = Ok (g2, (Some l, None)) w1 /\
       registry.Get (registry.stored El i o g2) name = Some l) /\
  (forall i' o' reg,
     g !! key i o = Some (registry.mkAny El i' o' reg) ->
     (i', o') <> (i, o) ->
     registry.RegisterLambdaWithConstructor El i o name c g w
     = Panicked "interface conversion" /\
     registry.BuildLambda El i o name g w = Panicked "interface conversion").
Proof.
  split.
  - intros Hav Hfree l w1 Hc Hname.
    rewrite RegisterLambdaWithConstructor_run by exact Hav.
    eexists _, _. split; [reflexivity|].
    rewrite stored_insert. split; [exact Hfree|].
    rewrite BuildLambda_run by apply available_insert.
    rewrite stored_insert, Build_run.
    cbn [registry.RegisterWithConstructor registry.constructors registry.lambdas
         registry.meta].
    rewrite lookup_insert_eq, Hc, Hname.
    unfold registry.Get in Hfree. rewrite Hfree.
    split; [reflexivity|]. rewrite stored_insert. unfold registry.Get.
    cbn [registry.lambdas]. apply lookup_insert_eq.
  - intros i' o' reg Hg Hne.
    destruct (key_clash_panics g i o i' o' reg w Hg Hne) as (_ & Hc & _ & Hb & _).
    split; [apply Hc|apply Hb].
Qed.
End MoreGlobal.

(** ** The Unit: invocation and statistics *)

Section MoreLambda.
Context {U I O : Type} `{!GoZero O, !Reflect I, !Reflect O}.

Implicit Types (l : core.Lambda U I O) (w : World U).

(** X10.  With a negative [Retries] the loop of [invokeWithRetry] has no
    iteration: the function is never called, the run is untouched, and
    [Invoke] returns a result with the zero output, no error and a zero
    duration, with a nil error. *)
Theorem negative_retries_skip_the_function l ctx input w :
  Retries (core.options l) < 0 ->
  core.invokeWithRetry l ctx input w = Ok (zero, None) w /\
  (forall res err w',
     core.Invoke l ctx input w = Ok (res, err) w' ->
     res = Some (mkResult zero None 0 (now w)) /\ err = None).
Proof.
  intros Hneg.
  assert (Hrun : forall ctx, core.invokeWithRetry l ctx input w = Ok (zero, None) w).
  { intros ctx0. unfold core.invokeWithRetry.
    replace (Z.to_nat (Retries (core.options l) + 1)) with 0%nat by lia. reflexivity. }
  split; [apply Hrun|]. intros res err w'. rewrite Lambda_Invoke_run, Hrun. cbn zeta.
  rewrite Z.sub_diag.
  destruct ((if EnableMetrics (core.options l)
             then core.updateMetrics l 0 None else mret tt) w) as [[] w2| |];
    try discriminate.
  intros [= <- <- _]. auto.
Qed.



Lemma CtxErr_frame ctx w e w1 :
  CtxErr ctx w = Ok e w1 ->
  heap w1 = heap w /\ held w1 = held w /\ user w1 = user w.
Proof.
  unfold CtxErr. destruct (decide _); [|intros [= _ <-]; auto].
  unfold pick. destruct (sched w) as [|b rest]; intros [= _ <-]; auto.
Qed.

Lemma SelectDoneAfter_frame ctx d w b w1 :
  SelectDoneAfter ctx d w = Ok b w1 ->
  heap w1 = heap w /\ held w1 = held w /\ user w1 = user w.
Proof.
  unfold SelectDoneAfter. destruct (doneReady ctx w) as [td|].
  - destruct (td <? now w + Z.max d 0); [intros [= _ <-]; auto|].
    destruct (now w + Z.max d 0 <? td); [intros [= _ <-]; auto|].
    unfold pick. destruct (sched w) as [|[] rest]; intros [= _ <-]; auto.
  - intros [= _ <-]. auto.
Qed.

Lemma retryLoop_frame {X} (proj : World U -> X) l ctx input n :
  (forall d w b w1, SelectDoneAfter ctx d w = Ok b w1 -> proj w1 = proj w) ->
  (forall w e w1, CtxErr ctx w = Ok e w1 -> proj w1 = proj w) ->
  (forall w r w1, core.invoke l ctx input w = Ok r w1 -> proj w1 = proj w) ->
  forall attempt lastErr w r w',
    core.retryLoop l ctx input n attempt lastErr w = Ok r w' -> proj w' = proj w.
Proof.
  intros Hsel Hpoll Hg. induction n as [|n IH]; intros attempt lastErr w r w'.
  - cbn. intros [= _ <-]. reflexivity.
  - cbn [core.retryLoop]. rewrite bind_run.
    assert (Hwait : forall b w1,
      (if 0 <? attempt
       then SelectDoneAfter ctx (time.mul (time.mul attempt 100) time.Millisecond)
       else mret false) w = Ok b w1 -> proj w1 = proj w).
    { destruct (0 <? attempt); [apply Hsel|]. intros b w1 [= _ <-]. reflexivity. }
    destruct ((if 0 <? attempt then SelectDoneAfter ctx _ else mret false) w)
      as [[] w1| |]; try discriminate; specialize (Hwait _ _ eq_refl) as Hw.
    + rewrite bind_run. unfold CtxErrClosed. rewrite ret_run. intros [= _ <-]. exact Hw.
    + rewrite bind_run.
      destruct (core.invoke l ctx input w1) as [[output [fe|]] w2| |] eqn:Hcall;
        try discriminate; apply Hg in Hcall.
      * rewrite bind_run.
        destruct (CtxErr ctx w2) as [[ce|] w3| |] eqn:Hp; try discriminate;
          apply Hpoll in Hp.
        -- rewrite ret_run. intros [= _ <-]. congruence.
        -- intros Hrec. apply IH in Hrec. congruence.
      * rewrite ret_run. intros [= _ <-]. congruence.
Qed.

Lemma Invoke_heap l ctx input w m res err w' :
  samples.keepsHeap (core.invoke l) ->
  heap w !! core.metrics l = Some m ->
  0 <= SuccessInvocations m -> 0 <= ErrorInvocations m ->
  TotalInvocations m = SuccessInvocations m + ErrorInvocations m ->
  TotalInvocations m < 2 ^ 63 - 1 ->
  0 <= TotalDuration m -> 0 <= now w' - now w ->
  TotalDuration m + (now w' - now w) < 2 ^ 63 ->
  core.Invoke l ctx input w = Ok (res, err) w' ->
  heap w' =
  if EnableMetrics (core.options l) then
    <[core.metrics l :=
        mkMetrics (TotalInvocations m + 1)
          (SuccessInvocations m + (if err is Some _ then 0 else 1))
          (ErrorInvocations m + (if err is Some _ then 1 else 0))
          (TotalDuration m + (now w' - now w))
          (Z.quot (TotalDuration m + (now w' - now w)) (TotalInvocations m + 1))
          (now w')]> (heap w)
  else heap w.
Proof.
  intros Hkeep Hm Hs He Htot Hmax Htd Hd Hsum.
  rewrite Lambda_Invoke_run.
  destruct (core.invokeWithRetry l _ input w) as [[output e0] w1| |] eqn:Hretry;
    try discriminate.
  unfold core.invokeWithRetry in Hretry.
  apply (retryLoop_frame heap) in Hretry as Hheap;
    [|intros d w2 b w3 Hsel; apply (SelectDoneAfter_frame _ _ _ _ _ Hsel)
     |intros w2 e w3 Hp; apply (CtxErr_frame _ _ _ _ Hp)
     |intros w2 r w3 Hcall; apply (Hkeep _ _ _ _ _ Hcall)].
  cbn zeta. destruct (EnableMetrics (core.options l)).
  - unfold core.updateMetrics. rewrite bind_run. unfold loadMetrics.
    rewrite Hheap, Hm.
    assert (Hadd : forall z, - 2 ^ 63 <= z < 2 ^ 63 -> time.wrap64 z = z)
      by (intros z Hz; unfold time.wrap64; rewrite Z.mod_small; lia).
    unfold time.add.
    destruct (Z.eqb_spec (time.wrap64 (TotalInvocations m + 1)) 0) as [H0|_].
    { rewrite Hadd in H0 by lia. lia. }
    unfold Now, storeMetrics, mbind, M_bind.
    intros [= <- <- <-]. cbn [heap setHeap now] in Hd, Hsum |- *.
    rewrite Hheap. f_equal.
    pose proof (Z.quot_pos (TotalDuration m + (now w1 - now w)) (TotalInvocations m + 1)
                  ltac:(lia) ltac:(lia)) as Hq0.
    assert (Hq1 : Z.quot (TotalDuration m + (now w1 - now w)) (TotalInvocations m + 1)
                  <= TotalDuration m + (now w1 - now w)).
    { apply Z.quot_le_upper_bound; [lia|nia]. }
    rewrite !(Hadd (TotalInvocations m + 1)), !(Hadd (TotalDuration m + _)) by lia.
    rewrite (Hadd (Z.quot _ _)) by lia.
    destruct e0; rewrite Hadd by lia; f_equal; lia.
  - rewrite ret_run. intros [= <- <- <-]. exact Hheap.
Qed.

(** X12.  With metrics enabled, one [Invoke] adds one to the total and one
    to the successes or to the errors, by the error it returns, so that the
    total stays their sum; it adds the duration of the call to the total
    duration, sets the average to the truncated quotient and the last
    invocation time to the end of the call, and leaves every other metrics
    record alone.  The function is one that writes to no metrics record,
    and the counters are in the range where [int64] does not wrap. *)
Theorem Invoke_counts_the_call l ctx input w m res err w' :
  samples.keepsHeap (core.invoke l) ->
  EnableMetrics (core.options l) = true ->
  heap w !! core.metrics l = Some m ->
  0 <= SuccessInvocations m -> 0 <= ErrorInvocations m ->
  TotalInvocations m = SuccessInvocations m + ErrorInvocations m ->
  TotalInvocations m < 2 ^ 63 - 1 ->
  0 <= TotalDuration m -> 0 <= now w' - now w ->
  TotalDuration m + (now w' - now w) < 2 ^ 63 ->
  core.Invoke l ctx input w = Ok (res, err) w' ->
  exists m',
    core.GetMetrics l w' = Ok m' w' /\
    TotalInvocations m' = TotalInvocations m + 1 /\
    SuccessInvocations m' = SuccessInvocations m + (if err is Some _ then 0 else 1) /\
    ErrorInvocations m' = ErrorInvocations m + (if err is Some _ then 1 else 0) /\
    TotalInvocations m' = SuccessInvocations m' + ErrorInvocations m' /\
    TotalDuration m' = TotalDuration m + (now w' - now w) /\
    AverageDuration m' = Z.quot (TotalDuration m') (TotalInvocations m') /\
    LastInvocationTime m' = now w' /\
    (forall p, p <> core.metrics l -> heap w' !! p = heap w !! p).
Proof.
  intros Hkeep Hon Hm Hs He Htot Hmax Htd Hd Hsum Hrun.
  pose proof (Invoke_heap _ _ _ _ _ _ _ _ Hkeep Hm Hs He Htot Hmax Htd Hd Hsum Hrun)
    as Hheap.
  rewrite Hon in Hheap. eexists. unfold core.GetMetrics, loadMetrics.
  rewrite Hheap, lookup_insert_eq. split; [reflexivity|]. cbn.
  repeat split; try reflexivity.
  - destruct err; lia.
  - intros p Hp. rewrite lookup_insert_ne by congruence. reflexivity.
Qed.

(** X13.  [NewLambda] gives each Unit a metrics record of its own: the record
    is newly allocated and zero, two Units made one after the other have
    different records, making the second leaves the first's alone, and the
    Unit has the name, the function and the options it was made with. *)
Theorem NewLambda_allocates_its_own_statistics
    name1 name2 (f1 f2 : core.InvokeFunc U I O) opts1 opts2 w l1 w1 l2 w2 :
  core.NewLambda name1 f1 opts1 w = Ok l1 w1 ->
  core.NewLambda name2 f2 opts2 w1 = Ok l2 w2 ->
  heap w !! core.metrics l1 = None /\
  heap w1 !! core.metrics l1 = Some zeroMetrics /\
  core.metrics l1 <> core.metrics l2 /\
  (forall p, p <> core.metrics l2 -> heap w2 !! p = heap w1 !! p) /\
  core.GetName l1 = name1 /\ core.invoke l1 = f1 /\
  core.GetOptions l1 = core.applyOptions opts1 DefaultOptions.
Proof.
  rewrite !NewLambda_run. intros [= <- <-] [= <- <-].
  cbn [core.metrics core.GetName core.name core.invoke core.GetOptions core.options
       heap setHeap].
  assert (Hfresh : forall h : gmap loc LambdaMetrics, h !! fresh (dom h) = None).
  { intros h. apply not_elem_of_dom, is_fresh. }
  split; [apply Hfresh|]. split; [apply lookup_insert_eq|]. split.
  - intros Heq.
    pose proof (Hfresh (<[fresh (dom (heap w)) := zeroMetrics]> (heap w))) as Hnone.
    rewrite <- Heq, lookup_insert_eq in Hnone. discriminate.
  - split; [|auto]. intros p Hp. rewrite lookup_insert_ne by congruence. reflexivity.
Qed.

(** X14.  The Unit that [WithOptions] returns keeps the name, has the
    options of the Unit it was made from with the new ones applied to them
    in order, and shares its metrics record: an [Invoke] of the copy is
    counted in what [GetMetrics] of the original reads. *)
Theorem WithOptions_shares_statistics l opts ctx input w m res err w' :
  samples.keepsHeap (core.invoke l) ->
  EnableMetrics (core.applyOptions opts (core.options l)) = true ->
  heap w !! core.metrics l = Some m ->
  0 <= SuccessInvocations m -> 0 <= ErrorInvocations m ->
  TotalInvocations m = SuccessInvocations m + ErrorInvocations m ->
  TotalInvocations m < 2 ^ 63 - 1 ->
  0 <= TotalDuration m -> 0 <= now w' - now w ->
  TotalDuration m + (now w' - now w) < 2 ^ 63 ->
  core.Invoke (core.WithOptions l opts) ctx input w = Ok (res, err) w' ->
  core.GetName (core.WithOptions l opts) = core.GetName l /\
  core.GetOptions (core.WithOptions l opts)
    = core.applyOptions opts (core.GetOptions l) /\
  exists m',
    core.GetMetrics l w' = Ok m' w' /\
    TotalInvocations m' = TotalInvocations m + 1.
Proof.
  intros Hkeep Hon Hm Hs He Htot Hmax Htd Hd Hsum Hrun.
  split; [reflexivity|]. split; [reflexivity|].
  pose proof (Invoke_heap (core.WithOptions l opts) _ _ _ _ _ _ _
                Hkeep Hm Hs He Htot Hmax Htd Hd Hsum Hrun) as Hheap.
  cbn [core.WithOptions core.options core.metrics] in Hheap. rewrite Hon in Hheap.
  eexists. unfold core.GetMetrics, loadMetrics.
  rewrite Hheap, lookup_insert_eq. split; reflexivity.
Qed.
End MoreLambda.

(** ** Chains and the transforming middlewares *)

Section MoreChain.
Context {U I O : Type} `{!GoZero O}.
Variable Errorf : string -> option error -> error.

Local Abbreviation InvokeFunc := (core.InvokeFunc U I O).
Local Abbreviation Middleware := (core.Middleware U I O).

Lemma Execute_cons (m : Middleware) ms (T : InvokeFunc) ctx input :
  core.Execute (core.NewChain T (m :: ms)) ctx input
  = m ctx input (core.Execute (core.NewChain T ms)).
Proof.
  rewrite Execute_compose.
  change (core.Execute (core.NewChain T ms)) with (core.buildChain (core.NewChain T ms) 0).
  unfold core.buildChain. rewrite buildChainRec_compose by lia.
  rewrite drop_0. reflexivity.
Qed.

Lemma Execute_nil (T : InvokeFunc) ctx input :
  core.Execute (core.NewChain T []) ctx input = T ctx input.
Proof. reflexivity. Qed.

(** X15.  [Use] adds middlewares after those of the chain, next to the
    terminal function: the extended chain runs the old middlewares around
    the chain of the new ones.  [Use] of no middleware changes nothing, and
    two [Use] in a row are one [Use] of the concatenation. *)
Theorem Use_extends_next_to_the_terminal (c : core.Chain U I O) ms ms' ctx input :
  core.Execute (core.Use c ms) ctx input
  = core.Execute
      (core.NewChain (core.Execute (core.NewChain (core.final c) ms))
         (core.middlewares c)) ctx input /\
  core.Execute (core.Use c []) ctx input = core.Execute c ctx input /\
  core.Use (core.Use c ms) ms' = core.Use c (ms ++ ms').
Proof.
  split; [|split].
  - rewrite !Execute_compose. cbn [core.Use core.NewChain core.middlewares core.final].
    rewrite foldr_app.
    change (core.Execute (core.NewChain (core.final c) ms))
      with (core.buildChain (core.NewChain (core.final c) ms) 0).
    unfold core.buildChain. rewrite buildChainRec_compose by lia.
    rewrite drop_0. reflexivity.
  - rewrite !Execute_compose. cbn [core.Use core.middlewares core.final].
    rewrite app_nil_r. reflexivity.
  - unfold core.Use. cbn [core.middlewares core.final]. rewrite app_assoc. reflexivity.
Qed.

(** X16.  [ValidateInput] in front of a chain: when the validator rejects the
    input the chain returns the zero output and the wrapped error without
    running what comes after; when it accepts, the chain goes on as the rest
    of the chain does, from the state the validator left. *)
Theorem ValidateInput_guards_the_chain (validator : I -> M U (option error))
    (T : InvokeFunc) after ctx input w w1 :
  (forall e, validator input w = Ok (Some e) w1 ->
     core.Execute (core.NewChain T (core.ValidateInput Errorf validator :: after))
       ctx input w
     = Ok (zero, Some (Errorf "input validation failed: %w" (Some e))) w1) /\
  (validator input w = Ok None w1 ->
     core.Execute (core.NewChain T (core.ValidateInput Errorf validator :: after))
       ctx input w
     = core.Execute (core.NewChain T after) ctx input w1).
Proof.
  split.
  - intros e Hv. rewrite Execute_cons. unfold core.ValidateInput.
    rewrite bind_run, Hv. reflexivity.
  - intros Hv. rewrite Execute_cons. unfold core.ValidateInput.
    rewrite bind_run, Hv. reflexivity.
Qed.

(** X17.  [TransformInput] in front of a chain passes the transformed input
    to the rest of the chain, and returns the zero output and the wrapped
    error, without running the rest, when the transformer fails.  Two of
    them compose in the order of the list: the terminal function receives
    [g (f input)]. *)
Theorem TransformInput_feeds_the_rest (T : InvokeFunc) after ctx input w :
  (forall transformer x w1,
     transformer input w = Ok (x, None) w1 ->
     core.Execute (core.NewChain T (core.TransformInput Errorf transformer :: after))
       ctx input w
     = core.Execute (core.NewChain T after) ctx x w1) /\
  (forall transformer x e w1,
     transformer input w = Ok (x, Some e) w1 ->
     core.Execute (core.NewChain T (core.TransformInput Errorf transformer :: after))
       ctx input w
     = Ok (zero, Some (Errorf "input transformation failed: %w" (Some e))) w1) /\
  (forall f g : I -> I,
     core.Execute
       (core.NewChain T
          [core.TransformInput Errorf (fun x => mret (f x, None));
           core.TransformInput Errorf (fun x => mret (g x, None))]) ctx input w
     = T ctx (g (f input)) w).
Proof.
  split; [|split].
  - intros transformer x w1 Ht. rewrite Execute_cons. unfold core.TransformInput.
    rewrite bind_run, Ht. reflexivity.
  - intros transformer x e w1 Ht. rewrite Execute_cons. unfold core.TransformInput.
    rewrite bind_run, Ht. reflexivity.
  - intros f g. reflexivity.
Qed.

(** X18.  [TransformOutput] leaves a failure of the function as it is,
    without calling the transformer; it returns the zero output and the
    wrapped error when the transformer fails; and two of them compose from
    the inside out: with [f] first in the list and [g] second, a success
    [out] of the function becomes [f (g out)]. *)
Theorem TransformOutput_maps_successes (T : InvokeFunc) ctx input w :
  (forall transformer out e w1,
     T ctx input w = Ok (out, Some e) w1 ->
     core.Execute (core.NewChain T [core.TransformOutput Errorf transformer]) ctx input w
     = Ok (out, Some e) w1) /\
  (forall transformer out x e w1 w2,
     T ctx input w = Ok (out, None) w1 ->
     transformer out w1 = Ok (x, Some e) w2 ->
     core.Execute (core.NewChain T [core.TransformOutput Errorf transformer]) ctx input w
     = Ok (zero, Some (Errorf "output transformation failed: %w" (Some e))) w2) /\
  (forall (f g : O -> O) out w1,
     T ctx input w = Ok (out, None) w1 ->
     core.Execute
       (core.NewChain T
          [core.TransformOutput Errorf (fun y => mret (f y, None));
           core.TransformOutput Errorf (fun y => mret (g y, None))]) ctx input w
     = Ok (f (g out), None) w1).
Proof.
  split; [|split].
  - intros transformer out e w1 HT. rewrite Execute_cons.
    unfold core.TransformOutput. rewrite bind_run.
    change (core.Execute (core.NewChain T []) ctx input w) with (T ctx input w).
    rewrite HT. reflexivity.
  - intros transformer out x e w1 w2 HT Ht. rewrite Execute_cons.
    unfold core.TransformOutput. rewrite bind_run.
    change (core.Execute (core.NewChain T []) ctx input w) with (T ctx input w).
    rewrite HT, bind_run, Ht. reflexivity.
  - intros f g out w1 HT. rewrite !Execute_cons.
    unfold core.TransformOutput at 1. rewrite bind_run.
    rewrite Execute_cons. unfold core.TransformOutput at 1. rewrite bind_run.
    change (core.Execute (core.NewChain T []) ctx input w) with (T ctx input w).
    rewrite HT. reflexivity.
Qed.
End MoreChain.

(** ** The cache, the observers and the Unit with a chain *)

Section MoreMiddleware.
Context {U I O : Type} `{!GoZero O}.
Variable Errorf : string -> option error -> error.

Local Abbreviation InvokeFunc := (core.InvokeFunc U I O).

Lemma CacheOutput_hit (cacheGetter : I -> M U (O * bool))
    (cacheSetter : I -> O -> M U unit) ctx input (next : InvokeFunc) w v w1 :
  cacheGetter input w = Ok (v, true) w1 ->
  core.CacheOutput cacheGetter cacheSetter ctx input next w = Ok (v, None) w1.
Proof. intros Hget. unfold core.CacheOutput. rewrite bind_run, Hget. reflexivity. Qed.

(** X19.  [CacheOutput] returns a cached value without calling [next]; on a
    miss it returns a failure of [next] as it is, and stores nothing.  With
    a cache whose getter only reads, and finds what the setter stored, a
    call that succeeded is answered from the cache from then on: the same
    input gives the same output again and leaves the run alone, whatever
    [next] would do. *)
Theorem CacheOutput_answers_from_the_cache (cacheGetter : I -> M U (O * bool))
    (cacheSetter : I -> O -> M U unit) ctx input (next : InvokeFunc) w :
  (forall v w1,
     cacheGetter input w = Ok (v, true) w1 ->
     core.CacheOutput cacheGetter cacheSetter ctx input next w = Ok (v, None) w1) /\
  (forall v w1 out e w2,
     cacheGetter input w = Ok (v, false) w1 ->
     next ctx input w1 = Ok (out, Some e) w2 ->
     core.CacheOutput cacheGetter cacheSetter ctx input next w = Ok (out, Some e) w2) /\
  ((forall i w0 r w0', cacheGetter i w0 = Ok r w0' -> w0' = w0) ->
   (forall i o w0 w0', cacheSetter i o w0 = Ok tt w0' ->
      cacheGetter i w0' = Ok (o, true) w0') ->
   forall out w1,
     core.CacheOutput cacheGetter cacheSetter ctx input next w = Ok (out, None) w1 ->
     forall ctx' (next' : InvokeFunc),
       core.CacheOutput cacheGetter cacheSetter ctx' input next' w1 = Ok (out, None) w1).
Proof.
  split; [|split].
  - intros v w1. apply CacheOutput_hit.
  - intros v w1 out e w2 Hget Hnext. unfold core.CacheOutput.
    rewrite bind_run, Hget, bind_run, Hnext. reflexivity.
  - intros Hpure Hlaw out w1 Hrun ctx' next'. apply CacheOutput_hit.
    unfold core.CacheOutput in Hrun. rewrite bind_run in Hrun.
    destruct (cacheGetter input w) as [[v found] w2| |] eqn:Hget; try discriminate.
    destruct found.
    + rewrite ret_run in Hrun. injection Hrun as <- <-.
      pose proof (Hpure _ _ _ _ Hget) as ->. exact Hget.
    + rewrite bind_run in Hrun.
      destruct (next ctx input w2) as [[o [e|]] w3| |]; try discriminate.
      rewrite bind_run in Hrun.
      destruct (cacheSetter input o w3) as [[] w4| |] eqn:Hset; try discriminate.
      rewrite ret_run in Hrun. injection Hrun as <- <-.
      apply (Hlaw _ _ _ _ Hset).
Qed.

(** X20.  [BeforeAfter] and [Metrics] observe the call and return what
    [next] returned.  [BeforeAfter] with both hooks nil is [next]; with
    hooks, [before] runs first and [after] receives the output, the error
    and the time since the start.  [Metrics] on the record of a Unit does
    the accounting that the Unit's own [updateMetrics] does. *)
Theorem BeforeAfter_and_Metrics_observe_next `{!Reflect I, !Reflect O}
    ctx input (next : InvokeFunc) w :
  core.BeforeAfter None None ctx input next w = next ctx input w /\
  (forall before after w1 out err w2 w3,
     before ctx input w = Ok tt w1 ->
     next ctx input w1 = Ok (out, err) w2 ->
     after ctx input out err (now w2 - now w) w2 = Ok tt w3 ->
     core.BeforeAfter (Some before) (Some after) ctx input next w = Ok (out, err) w3) /\
  (forall l : core.Lambda U I O,
     core.Metrics (core.metrics l) ctx input next w
     = (start ← Now;
        '(output, err) ← next ctx input;
        duration ← Since start;
        _ ← core.updateMetrics l duration err;
        mret (output, err)) w).
Proof.
  split; [|split].
  - unfold core.BeforeAfter. rewrite bind_run. unfold Now. rewrite bind_run, ret_run, bind_run.
    destruct (next ctx input w) as [[out err] w1| |]; reflexivity.
  - intros before after w1 out err w2 w3 Hb Hn Ha. unfold core.BeforeAfter.
    rewrite bind_run. unfold Now. rewrite bind_run, Hb, bind_run, Hn, bind_run.
    unfold Since. rewrite bind_run, Ha. reflexivity.
  - intros l. unfold core.Metrics, core.updateMetrics.
    rewrite !bind_run. unfold Now.
    rewrite !bind_run.
    destruct (next ctx input w) as [[output err] w1| |]; [|reflexivity..].
    rewrite !bind_run. unfold Since. rewrite !bind_run.
    destruct (loadMetrics (core.metrics l) w1) as [m w2| |]; [|reflexivity..].
    destruct (time.add (TotalInvocations m) 1 =? 0); [reflexivity|].
    rewrite !bind_run. reflexivity.
Qed.

Lemma InvokeWithMiddleware_run (l : core.LambdaWithMiddleware U I O) ctx input w :
  core.InvokeWithMiddleware l ctx input w =
  match core.Execute (core.mwChain l) ctx input w with
  | Ok (out, err) w' => Ok (Some (mkResult out err (now w' - now w) (now w)), err) w'
  | Blocked => Blocked
  | Panicked msg => Panicked msg
  end.
Proof.
  unfold core.InvokeWithMiddleware. rewrite bind_run. unfold Now. rewrite bind_run.
  destruct (core.Execute (core.mwChain l) ctx input w) as [[out e] w1| |]; reflexivity.
Qed.

Lemma burst_InvokeWithMiddleware_heap (l : core.LambdaWithMiddleware U I O) ctx input :
  samples.keepsHeap (core.Execute (core.mwChain l)) ->
  forall k w1 rs w2,
    samples.burst k (core.InvokeWithMiddleware l ctx input) w1 = Ok rs w2 ->
    heap w2 = heap w1.
Proof.
  intros Hkeep. induction k as [|k IH]; intros w1 rs w2.
  - cbn. intros [= _ <-]. reflexivity.
  - cbn [samples.burst]. rewrite bind_run, InvokeWithMiddleware_run.
    destruct (core.Execute (core.mwChain l) ctx input w1)
      as [[out e] w3| |] eqn:Hexec; try discriminate.
    rewrite bind_run.
    destruct (samples.burst k _ w3) as [rest w4| |] eqn:Hrest; try discriminate.
    rewrite ret_run. intros [= _ <-].
    rewrite (IH _ _ _ Hrest). apply (Hkeep _ _ _ _ _ Hexec).
Qed.

(** X21.  [Invoke] of a [LambdaWithMiddleware] wraps what the chain returned
    in a result with the duration and the start of the call, and writes
    nothing itself: with a chain that writes to no metrics record, the
    record that [GetMetrics] reads is still all zero after any number of
    calls. *)
Theorem InvokeWithMiddleware_never_counts name (handler : InvokeFunc)
    (ms : list (core.Middleware U I O)) w :
  samples.keepsHeap (core.Execute (core.NewChain handler ms)) ->
  exists l w1,
    core.NewLambdaWithMiddleware name handler ms w = Ok l w1 /\
    (forall ctx input res err w2,
       core.InvokeWithMiddleware l ctx input w1 = Ok (res, err) w2 ->
       exists out,
         core.Execute (core.NewChain handler ms) ctx input w1 = Ok (out, err) w2 /\
         res = Some (mkResult out err (now w2 - now w1) (now w1))) /\
    (forall k ctx input rs w2,
       samples.burst k (core.InvokeWithMiddleware l ctx input) w1 = Ok rs w2 ->
       core.GetMetricsWithMiddleware l w2 = Ok zeroMetrics w2).
Proof.
  intros Hkeep. unfold core.NewLambdaWithMiddleware.
  eexists _, _. split; [reflexivity|]. split.
  - intros ctx input res err w2. rewrite InvokeWithMiddleware_run.
    cbn [core.mwChain].
    destruct (core.Execute (core.NewChain handler ms) ctx input _) as [[out e] w3| |];
      try discriminate.
    intros [= <- <- <-]. eauto.
  - intros k ctx input rs w2 Hrun.
    unfold core.GetMetricsWithMiddleware, loadMetrics. cbn [core.mwMetrics].
    apply (burst_InvokeWithMiddleware_heap
             (core.mkLambdaWithMiddleware (core.NewChain handler ms) name None
                (fresh (dom (heap w)))) ctx input Hkeep) in Hrun.
    rewrite Hrun. cbn [heap setHeap]. rewrite lookup_insert_eq. reflexivity.
Qed.
End MoreMiddleware.

(** ** The handlers of automatic registration *)

Section MoreAuto.
Context {U : Type}.

Lemma runHandlers_app (hs : list (M U unit)) h w :
  registry.runHandlers (hs ++ [h]) w
  = match registry.runHandlers hs w with
    | Ok _ w1 => h w1
    | Blocked => Blocked
    | Panicked msg => Panicked msg
    end.
Proof.
  revert w. induction hs as [|h0 hs IH]; intros w.
  - cbn. rewrite bind_run. destruct (h w) as [[] w1| |]; reflexivity.
  - cbn [app registry.runHandlers]. rewrite !bind_run.
    destruct (h0 w) as [[] w1| |]; [apply IH|reflexivity..].
Qed.

(** X22.  [ExecuteHandlers] runs the handlers in the order of their
    registration: with one more handler registered, it does what it did
    before and then runs the new handler, unless an earlier one panicked or
    blocked. *)
Theorem ExecuteHandlers_runs_in_append_order (ar : registry.AutoRegisterer U) h w :
  registry.ExecuteHandlers (registry.RegisterHandler ar h) w
  = match registry.ExecuteHandlers ar w with
    | Ok _ w1 => h w1
    | Blocked => Blocked
    | Panicked msg => Panicked msg
    end.
Proof. apply runHandlers_app. Qed.
End MoreAuto.

(** ** The rate limiter *)

Section MoreRateLimit.
Context {I O : Type} `{!GoZero O}.
Variable Errorf : string -> option error -> error.

Lemma filter_all {A} (P : A -> Prop) `{forall x, Decision (P x)} (l : list A) :
  Forall P l -> filter P l = l.
Proof.
  induction 1 as [|x l Hx _ IH]; [reflexivity|].
  rewrite filter_cons_True by exact Hx. by rewrite IH.
Qed.



Local Abbreviation limited n win reqs w :=
  (setUser (core.mkRateLimiter n win reqs) w).

Lemma RateLimit_step (n win : Z) (reqs : list Z) ctx (input : I)
    (next : core.InvokeFunc core.RateLimiter I O) (w : World core.RateLimiter) :
  user w = core.mkRateLimiter n win reqs ->
  Forall (fun t => now w - t < win) reqs ->
  core.RateLimit Errorf ctx input next w =
    if decide (Z.of_nat (length reqs) < n)
    then next ctx input (limited n win (reqs ++ [now w]) w)
    else Ok (zero, Some (Errorf "rate limit exceeded" None)) (limited n win reqs w).
Proof.
  intros Hu Hall. unfold core.RateLimit. rewrite bind_run. unfold core.getUser.
  rewrite bind_run. unfold core.Allow. rewrite bind_run. unfold Now. rewrite Hu.
  cbn [core.maxRequests core.window core.requests].
  rewrite (filter_all _ _ Hall).
  destruct (Z.leb_spec n (Z.of_nat (length reqs))); destruct (decide _); try lia.
  - rewrite ret_run. rewrite bind_run. unfold core.putUser. reflexivity.
  - rewrite ret_run. rewrite bind_run. unfold core.putUser. reflexivity.
Qed.

Lemma RateLimit_burst_from (g : I -> O) (n : nat) (win : Z) ctx (input : I) (k j : nat)
    (w : World core.RateLimiter) :
  0 < win -> (j <= n)%nat ->
  user w = core.mkRateLimiter (Z.of_nat n) win (replicate j (now w)) ->
  samples.burst k (core.RateLimit Errorf ctx input (fun _ i => mret (g i, None))) w =
    Ok (replicate (k `min` (n - j)) (g input, None) ++
        replicate (k - (n - j)) (zero, Some (Errorf "rate limit exceeded" None)))
       (limited (Z.of_nat n) win (replicate ((j + k) `min` n) (now w)) w).
Proof.
  intros Hwin. revert j w. induction k as [|k IH]; intros j w Hj Hu.
  - cbn. rewrite Nat.add_0_r, Nat.min_l by lia. rewrite <- Hu. by destruct w.
  - cbn [samples.burst]. rewrite bind_run.
    rewrite (RateLimit_step (Z.of_nat n) win (replicate j (now w))); [|exact Hu|].
    2:{ apply Forall_replicate. lia. }
    rewrite length_replicate.
    destruct (decide (Z.of_nat j < Z.of_nat n)) as [Hlt|Hge].
    + rewrite ret_run, bind_run.
      replace (replicate j (now w) ++ [now w]) with (replicate (S j) (now w)).
      2:{ clear. induction j as [|j IHj]; [reflexivity|]. cbn [replicate app].
          rewrite <- IHj. reflexivity. }
      rewrite (IH (S j)); [|lia|reflexivity]. rewrite ret_run.
      cbn [now setUser].
      replace (S k `min` (n - j))%nat with (S (k `min` (n - S j)))%nat by lia.
      replace (S k - (n - j))%nat with (k - (n - S j))%nat by lia.
      replace ((S j + k) `min` n)%nat with ((j + S k) `min` n)%nat by lia.
      reflexivity.
    + rewrite bind_run.
      rewrite (IH j); [|lia|reflexivity]. rewrite ret_run.
      cbn [now setUser].
      replace (n - j)%nat with 0%nat by lia.
      rewrite !Nat.min_0_r, !Nat.sub_0_r. cbn [replicate app].
      replace ((j + S k) `min` n)%nat with ((j + k) `min` n)%nat by lia.
      reflexivity.
Qed.

(** X24.  Of [k] calls through [RateLimit] at one instant, with a new
    limiter of limit [n], the first [n] reach [next] and the others return
    the zero output and the rate-limit error without calling [next]; the
    limiter then holds one request for each call it let through. *)
Theorem RateLimit_admits_the_first_calls_of_a_burst (g : I -> O) (n : nat) (win : Z)
    ctx (input : I) (k : nat) (w : World core.RateLimiter) :
  0 < win ->
  user w = core.NewRateLimiter (Z.of_nat n) win ->
  samples.burst k (core.RateLimit Errorf ctx input (fun _ i => mret (g i, None))) w =
    Ok (replicate (k `min` n) (g input, None) ++
        replicate (k - n) (zero, Some (Errorf "rate limit exceeded" None)))
       (setUser (core.mkRateLimiter (Z.of_nat n) win (replicate (k `min` n) (now w))) w).
Proof.
  intros Hwin Hu.
  rewrite (RateLimit_burst_from g n win ctx input k 0); [|exact Hwin|lia|exact Hu].
  rewrite Nat.sub_0_r. reflexivity.
Qed.
End MoreRateLimit.

(** ** The circuit breaker *)

Section MoreCircuitBreaker.
Context {I O : Type} `{Countable I} `{!GoZero O}.
Variable Errorf : string -> option error -> error.

Local Abbreviation CB := (core.CircuitBreaker I).
Local Abbreviation rejected :=
  (zero, Some (Errorf "circuit breaker is OPEN for input: %v" None)).

Lemma callThrough_run ctx (input : I) (next : core.InvokeFunc CB I O) (w : World CB)
    out err w1 :
  next ctx input w = Ok (out, err) w1 ->
  core.callThrough ctx input next w =
    Ok (out, err)
       (setUser
          (match err with
           | Some _ =>
               core.mkCircuitBreaker (core.maxFailures (user w1))
                 (core.resetTimeout (user w1)) (now w1)
                 (if core.maxFailures (user w1) <=?
                     time.add (core.failuresOf (user w1) input) 1
                  then core.CircuitOpen else core.state (user w1))
                 (<[input := time.add (core.failuresOf (user w1) input) 1]>
                    (core.failures (user w1)))
           | None =>
               core.mkCircuitBreaker (core.maxFailures (user w1))
                 (core.resetTimeout (user w1)) (core.lastFailure (user w1))
                 (if decide (core.state (user w1) = core.CircuitHalfOpen)
                  then core.CircuitClosed else core.state (user w1))
                 (<[input := 0]> (core.failures (user w1)))
           end) w1).
Proof.
  intros Hnext. unfold core.callThrough. rewrite bind_run, Hnext, bind_run.
  unfold core.getUser. destruct err as [e|].
  - rewrite bind_run. unfold Now. rewrite bind_run. unfold core.putUser. reflexivity.
  - rewrite bind_run. unfold core.putUser. reflexivity.
Qed.

Lemma open_reject ctx (input : I) (next : core.InvokeFunc CB I O) (w : World CB) :
  core.state (user w) = core.CircuitOpen ->
  now w - core.lastFailure (user w) <= core.resetTimeout (user w) ->
  core.CircuitBreakerMiddleware Errorf ctx input next w = Ok rejected w.
Proof.
  intros Hopen Hearly. unfold core.CircuitBreakerMiddleware.
  rewrite bind_run. unfold core.getUser.
  destruct (decide _) as [_|Hne]; [|contradiction].
  rewrite bind_run. unfold Since.
  destruct (Z.ltb_spec (core.resetTimeout (user w)) (now w - core.lastFailure (user w)));
    [lia|reflexivity].
Qed.

Lemma closed_run ctx (input : I) (next : core.InvokeFunc CB I O) (w : World CB) :
  core.state (user w) <> core.CircuitOpen ->
  core.CircuitBreakerMiddleware Errorf ctx input next w = core.callThrough ctx input next w.
Proof.
  intros Hclosed. unfold core.CircuitBreakerMiddleware.
  rewrite bind_run. unfold core.getUser.
  destruct (decide _) as [Heq|_]; [contradiction|reflexivity].
Qed.

(** X25.  An open circuit breaker rejects every input, without calling
    [next] and without changing, until more than the reset timeout has
    passed since the last failure.  The first call after that goes through
    half-open (to a [next] that leaves the breaker alone): its success closes the breaker and resets the count of its
    input, its failure counts and is the new last failure, and the breaker
    is open again when the count has reached the maximum; the counts of the
    other inputs are untouched. *)
Theorem CircuitBreaker_open_rejects_until_the_timeout ctx (input : I)
    (next : core.InvokeFunc CB I O) (w : World CB) :
  core.state (user w) = core.CircuitOpen ->
  (now w - core.lastFailure (user w) <= core.resetTimeout (user w) ->
     core.CircuitBreakerMiddleware Errorf ctx input next w = Ok rejected w) /\
  (core.resetTimeout (user w) < now w - core.lastFailure (user w) ->
     forall out err w1,
       next ctx input
         (setUser (core.mkCircuitBreaker (core.maxFailures (user w))
                     (core.resetTimeout (user w)) (core.lastFailure (user w))
                     core.CircuitHalfOpen (core.failures (user w))) w)
       = Ok (out, err) w1 ->
       user w1 = core.mkCircuitBreaker (core.maxFailures (user w))
                   (core.resetTimeout (user w)) (core.lastFailure (user w))
                   core.CircuitHalfOpen (core.failures (user w)) ->
       exists cb',
         core.CircuitBreakerMiddleware Errorf ctx input next w
         = Ok (out, err) (setUser cb' w1) /\
         core.maxFailures cb' = core.maxFailures (user w) /\
         core.resetTimeout cb' = core.resetTimeout (user w) /\
         (forall i, i <> input -> core.failures cb' !! i = core.failures (user w) !! i) /\
         match err with
         | None =>
             core.state cb' = core.CircuitClosed /\
             core.failures cb' !! input = Some 0 /\
             core.lastFailure cb' = core.lastFailure (user w)
         | Some _ =>
             core.failures cb' !! input
             = Some (time.add (core.failuresOf (user w) input) 1) /\
             core.lastFailure cb' = now w1 /\
             core.state cb' =
               (if core.maxFailures (user w)
                   <=? time.add (core.failuresOf (user w) input) 1
                then core.CircuitOpen else core.CircuitHalfOpen)
         end).
Proof.
  intros Hopen. split.
  - intros Hearly. by apply open_reject.
  - intros Hlate out err w1 Hnext Hkeep. unfold core.CircuitBreakerMiddleware.
    rewrite bind_run. unfold core.getUser.
    destruct (decide _) as [_|Hne]; [|contradiction].
    rewrite bind_run. unfold Since.
    destruct (Z.ltb_spec (core.resetTimeout (user w)) (now w - core.lastFailure (user w)));
      [|lia].
    rewrite bind_run. unfold core.putUser.
    rewrite (callThrough_run _ _ _ _ _ _ _ Hnext). rewrite Hkeep.
    cbn [core.maxFailures core.resetTimeout core.lastFailure core.state core.failures].
    eexists. split; [reflexivity|].
    destruct err as [e|];
      cbn [core.maxFailures core.resetTimeout core.lastFailure core.state core.failures].
    + split; [reflexivity|]. split; [reflexivity|]. split.
      * intros i Hi. by rewrite lookup_insert_ne.
      * split; [|split; reflexivity].
        rewrite lookup_insert_eq. reflexivity.
    + split; [reflexivity|]. split; [reflexivity|]. split.
      * intros i Hi. by rewrite lookup_insert_ne.
      * split; [|split]; [reflexivity| |reflexivity].
        by rewrite lookup_insert_eq.
Qed.

Local Abbreviation fails out0 e :=
  ((fun _ _ => mret (out0, Some e)) : core.InvokeFunc CB I O).

Lemma open_burst (out0 : O) (e : error) ctx (input : I) (k : nat) (w : World CB) :
  core.state (user w) = core.CircuitOpen ->
  now w - core.lastFailure (user w) <= core.resetTimeout (user w) ->
  samples.burst k (core.CircuitBreakerMiddleware Errorf ctx input (fails out0 e)) w =
    Ok (replicate k rejected) w.
Proof.
  intros Hopen Hearly. induction k as [|k IH]; [reflexivity|].
  cbn [samples.burst]. rewrite bind_run.
  rewrite (open_reject ctx input (fails out0 e) w Hopen Hearly).
  rewrite bind_run, IH. reflexivity.
Qed.

Lemma closed_burst (out0 : O) (e : error) ctx (input : I) (n : nat) (timeout : Z)
    (k j : nat) (lf : Z) (fs : gmap I Z) (w : World CB) :
  0 <= timeout -> Z.of_nat n < 2 ^ 63 -> (j < n)%nat ->
  user w = core.mkCircuitBreaker (Z.of_nat n) timeout lf core.CircuitClosed fs ->
  default 0 (fs !! input) = Z.of_nat j ->
  samples.burst (S k) (core.CircuitBreakerMiddleware Errorf ctx input (fails out0 e)) w =
    Ok (replicate (S k `min` (n - j)) (out0, Some e) ++ replicate (S k - (n - j)) rejected)
       (setUser
          (core.mkCircuitBreaker (Z.of_nat n) timeout (now w)
             (if decide (n <= j + S k)%nat then core.CircuitOpen else core.CircuitClosed)
             (<[input := Z.of_nat ((j + S k) `min` n)]> fs)) w).
Proof.
  intros Htimeout Hn. revert j lf fs w.
  induction k as [|k IH]; intros j lf fs w Hj Hu Hcount.
  - cbn [samples.burst]. rewrite bind_run, closed_run by (rewrite Hu; discriminate).
    erewrite callThrough_run by reflexivity. rewrite Hu.
    cbn [core.maxFailures core.resetTimeout core.lastFailure core.state core.failures].
    unfold core.failuresOf. cbn [core.failures]. rewrite Hcount.
    unfold time.add. rewrite wrap64_small by lia.
    replace (1 `min` (n - j))%nat with 1%nat by lia.
    replace (1 - (n - j))%nat with 0%nat by lia.
    replace (Z.of_nat ((j + 1) `min` n)) with (Z.of_nat j + 1) by lia.

    destruct (Z.leb_spec (Z.of_nat n) (Z.of_nat j + 1)); destruct (decide _); try lia;
      reflexivity.
  - change (samples.burst (S (S k)) ?m) with
      (a ← m; rest ← samples.burst (S k) m; mret (a :: rest)).
    rewrite bind_run, closed_run by (rewrite Hu; discriminate).
    erewrite callThrough_run by reflexivity. rewrite Hu.
    cbn [core.maxFailures core.resetTimeout core.lastFailure core.state core.failures].
    unfold core.failuresOf. cbn [core.failures]. rewrite Hcount.
    unfold time.add. rewrite wrap64_small by lia.
    rewrite bind_run.
    destruct (Z.leb_spec (Z.of_nat n) (Z.of_nat j + 1)) as [Htrip|Hbelow].
    + rewrite open_burst; [|reflexivity|cbn [now user setUser core.lastFailure
                                              core.resetTimeout]; lia].
      rewrite ret_run.
      replace (S (S k) `min` (n - j))%nat with 1%nat by lia.
      replace (S (S k) - (n - j))%nat with (S k) by lia.
      replace (Z.of_nat ((j + S (S k)) `min` n)) with (Z.of_nat j + 1) by lia.
      destruct (decide _); [|lia]. reflexivity.
    + rewrite (IH (S j) (now w) (<[input := Z.of_nat j + 1]> fs));
        [|lia|reflexivity|rewrite lookup_insert_eq; cbn; lia].
      rewrite ret_run. cbn [now setUser].
      rewrite insert_insert_eq.
      replace (S (S k) `min` (n - j))%nat with (S (S k `min` (n - S j)))%nat by lia.
      replace (S (S k) - (n - j))%nat with (S k - (n - S j))%nat by lia.
      replace ((S j + S k) `min` n)%nat with ((j + S (S k)) `min` n)%nat by lia.
      destruct (decide (n <= S j + S k)%nat); destruct (decide (n <= j + S (S k))%nat);
        try lia; reflexivity.
Qed.

(** X26.  A new breaker with a maximum of [n] failures, [n] at least 1,
    under calls at one instant of a function that always fails on one
    input: the first [n] calls reach the function and return its failure,
    the breaker opens at the [n]-th, and the calls after that are rejected
    without reaching the function. *)
Theorem CircuitBreaker_opens_after_maxFailures_failures (out0 : O) (e : error) ctx
    (input : I) (n : nat) (timeout : Z) (k : nat) (w : World CB) :
  0 <= timeout -> (1 <= n)%nat -> Z.of_nat n < 2 ^ 63 ->
  user w = core.NewCircuitBreaker (Z.of_nat n) timeout ->
  samples.burst (S k) (core.CircuitBreakerMiddleware Errorf ctx input (fails out0 e)) w =
    Ok (replicate (S k `min` n) (out0, Some e) ++ replicate (S k - n) rejected)
       (setUser
          (core.mkCircuitBreaker (Z.of_nat n) timeout (now w)
             (if decide (n <= S k)%nat then core.CircuitOpen else core.CircuitClosed)
             {[input := Z.of_nat (S k `min` n)]}) w).
Proof.
  intros Htimeout Hpos Hn Hu.
  rewrite (closed_burst out0 e ctx input n timeout k 0 0 ∅); [|lia..|exact Hu|reflexivity].
  rewrite Nat.sub_0_r. reflexivity.
Qed.
End MoreCircuitBreaker.

(** ** The invoker: pipelines and retries *)

Section MoreInvoker.
Context {U I O : Type} `{!GoZero O, !Reflect I, !Reflect O}.

Local Abbreviation Registry := (registry.Registry U I O).
Implicit Types (reg : Registry) (inv : invoker.Invoker).

Lemma pipelineLoop_shape reg inv ctx name inputs :
  forall (done : list (LambdaResult O)) w slice err w',
    Forall (fun r => Error r = None) done ->
    invoker.pipelineLoop reg inv ctx name inputs (length done)
      ((Some <$> done) ++ replicate (length inputs) None) w = Ok (slice, err) w' ->
    (err = None /\
     exists rs, slice = Some (Some <$> rs) /\
       length rs = (length done + length inputs)%nat /\
       Forall (fun r => Error r = None) rs) \/
    (slice = None /\
     exists i e, err = Some (PipelineFailed (Z.of_nat i) e) /\
       (length done <= i < length done + length inputs)%nat).
Proof.
  induction inputs as [|input inputs IH]; intros done w slice err w' Hdone.
  - cbn [invoker.pipelineLoop length replicate]. rewrite app_nil_r, ret_run.
    intros [= <- <- <-]. left. split; [reflexivity|].
    exists done. split; [reflexivity|]. split; [lia|exact Hdone].
  - cbn [invoker.pipelineLoop]. rewrite bind_run.
    destruct (invoker.Invoke reg inv ctx name input w) as [[result [e|]] w1| |] eqn:HI;
      try discriminate.
    + rewrite ret_run. intros [= <- <- <-]. right. split; [reflexivity|].
      exists (length done), e. split; [reflexivity|]. cbn [length]. lia.
    + apply Invoke_nil_error in HI as (r & -> & Hr). rewrite Hr.
      cbn [length replicate].
      replace (<[length done := Some r]> ((Some <$> done) ++ None :: replicate (length inputs) None))
        with ((Some <$> (done ++ [r])) ++ replicate (length inputs) (@None (LambdaResult O))).
      2:{ rewrite insert_app_r_alt by (rewrite length_fmap; lia).
          rewrite length_fmap, Nat.sub_diag. cbn [insert list_insert].
          rewrite fmap_app, <- app_assoc. reflexivity. }
      replace (length done + 1)%nat with (length (done ++ [r]))
        by (rewrite length_app; reflexivity).
      intros Hrest. apply IH in Hrest.
      2:{ apply Forall_app. split; [exact Hdone|]. by constructor. }
      rewrite length_app in Hrest. cbn [length] in Hrest |- *.
      destruct Hrest as [(-> & rs & -> & Hlen & Hrs)|(-> & i & e & -> & Hi)].
      * left. split; [reflexivity|]. exists rs. split; [reflexivity|]. split; [lia|exact Hrs].
      * right. split; [reflexivity|]. exists i, e. split; [reflexivity|lia].
Qed.

(** X27.  [Pipeline] returns either a nil error with one populated result
    for each input, none of which carries an error, or a nil slice with the
    error of a step wrapped with its index.  It never returns a part of the
    results. *)
Theorem Pipeline_all_or_nothing reg inv ctx name inputs w slice err w' :
  invoker.Pipeline reg inv ctx name inputs w = Ok (slice, err) w' ->
  (err = None /\
   exists rs, slice = Some (Some <$> rs) /\ length rs = length inputs /\
     Forall (fun r => Error r = None) rs) \/
  (slice = None /\
   exists i e, err = Some (PipelineFailed (Z.of_nat i) e) /\ (i < length inputs)%nat).
Proof.
  unfold invoker.Pipeline. intros Hrun.
  apply (pipelineLoop_shape reg inv ctx name inputs []) in Hrun; [|constructor].
  cbn [length] in Hrun.
  destruct Hrun as [(-> & rs & -> & Hlen & Hrs)|(-> & i & e & -> & Hi)].
  - left. split; [reflexivity|]. exists rs. auto.
  - right. split; [reflexivity|]. exists i, e. split; [reflexivity|lia].
Qed.

Lemma retryLoop_not_found reg inv ctx name input delay n :
  invoker.Get reg name = None ->
  context.doneAt ctx = None ->
  forall attempt lastErr w, 0 < attempt ->
    exists w',
      invoker.retryLoop reg inv ctx name input delay n attempt lastErr w =
        Ok (Some (mkResult zero
                    (Some (MaxRetriesExceeded
                             (if n is 0%nat then lastErr else Some (NotFound name))))
                    0 (now w')),
            if n is 0%nat then lastErr else Some (NotFound name)) w' /\
      now w' = now w + Z.of_nat n * Z.max delay 0 /\
      log w' = log w ++ replicate n (EvAfter delay) /\
      heap w' = heap w /\ held w' = held w /\ user w' = user w.
Proof.
  intros Hnone Hnever. induction n as [|n IH]; intros attempt lastErr w Hattempt.
  - exists w. cbn [invoker.retryLoop]. rewrite bind_run. unfold Now. rewrite ret_run.
    split; [reflexivity|]. cbn [replicate]. rewrite app_nil_r.
    repeat split; lia.
  - cbn [invoker.retryLoop]. rewrite bind_run.
    destruct (Z.ltb_spec 0 attempt); [|lia].
    unfold SelectDoneAfter, doneReady. rewrite Hnever. cbn [fmap option_fmap option_map].
    rewrite bind_run. unfold invoker.Invoke at 1. rewrite Hnone, ret_run.
    destruct (IH (attempt + 1) (Some (NotFound name))
                (addLog (EvAfter delay) (setNow (now w + Z.max delay 0) w)))
      as (w' & Hrun & Hnow & Hlog & Hheap & Hheld & Huser); [lia|].
    exists w'. rewrite Hrun. split.
    + destruct n; reflexivity.
    + rewrite Hnow, Hlog, Hheap, Hheld, Huser. cbn [now log heap held user addLog setNow].
      cbn [replicate]. rewrite <- app_assoc. cbn [app].
      repeat split; lia.
Qed.

(** X28.  [Retry] of the invoker: with a negative [maxRetries] it makes no
    attempt and returns a nil error beside a result that carries the
    max-retries error; a first attempt that succeeds is returned as it is;
    and, under a context that is never done, a Unit that is not found is
    looked up again [maxRetries] times, after a delay each, before the
    not-found error is returned. *)
Theorem Retry_gives_up_with_the_last_error reg inv ctx name input maxRetries delay w :
  (maxRetries < 0 ->
     invoker.Retry reg inv ctx name input maxRetries delay w =
       Ok (Some (mkResult zero (Some (MaxRetriesExceeded None)) 0 (now w)), None) w) /\
  (0 <= maxRetries ->
     forall res w1,
       invoker.Invoke reg inv ctx name input w = Ok (res, None) w1 ->
       invoker.Retry reg inv ctx name input maxRetries delay w = Ok (res, None) w1) /\
  (0 <= maxRetries ->
     invoker.Get reg name = None -> context.doneAt ctx = None ->
     exists w',
       invoker.Retry reg inv ctx name input maxRetries delay w =
         Ok (Some (mkResult zero (Some (MaxRetriesExceeded (Some (NotFound name)))) 0
                     (now w')),
             Some (NotFound name)) w' /\
       now w' = now w + maxRetries * Z.max delay 0 /\
       log w' = log w ++ replicate (Z.to_nat maxRetries) (EvAfter delay)).
Proof.
  unfold invoker.Retry. split; [|split].
  - intros Hneg. rewrite Z2Nat.nonpos by lia. reflexivity.
  - intros Hpos res w1 HI.
    replace (Z.to_nat (maxRetries + 1)) with (S (Z.to_nat maxRetries)) by lia.
    cbn [invoker.retryLoop]. rewrite bind_run. cbn [Z.ltb Z.compare]. rewrite ret_run.
    rewrite bind_run, HI.
    apply Invoke_nil_error in HI as (r & -> & ->). reflexivity.
  - intros Hpos Hnone Hnever.
    replace (Z.to_nat (maxRetries + 1)) with (S (Z.to_nat maxRetries)) by lia.
    cbn [invoker.retryLoop]. rewrite bind_run. cbn [Z.ltb Z.compare]. rewrite ret_run.
    rewrite bind_run. unfold invoker.Invoke at 1. rewrite Hnone, ret_run.
    destruct (retryLoop_not_found reg inv ctx name input delay (Z.to_nat maxRetries)
                Hnone Hnever (0 + 1) (Some (NotFound name)) w)
      as (w' & Hrun & Hnow & Hlog & _); [lia|].
    exists w'. rewrite Hrun. split; [|split; [lia|exact Hlog]].
    destruct (Z.to_nat maxRetries); reflexivity.
Qed.
End MoreInvoker.

(** ** The invoker: the concurrency limit and batches *)

Section Concurrency.
Context {U I O : Type} `{!GoZero O, !Reflect I, !Reflect O}.

Local Abbreviation Registry := (registry.Registry U I O).
Implicit Types (reg : Registry) (inv : invoker.Invoker).

Lemma Invoke_held (l : core.Lambda U I O) ctx input w r w' :
  samples.keepsHeld (core.invoke l) ->
  core.Invoke l ctx input w = Ok r w' -> held w' = held w.
Proof.
  intros Hkeep. rewrite Lambda_Invoke_run.
  destruct (core.invokeWithRetry l _ input w) as [[output e0] w1| |] eqn:Hretry;
    try discriminate.
  unfold core.invokeWithRetry in Hretry.
  apply (retryLoop_frame held) in Hretry as Hheld;
    [|intros d w2 b w3 Hsel; apply (SelectDoneAfter_frame _ _ _ _ _ Hsel)
     |intros w2 e w3 Hp; apply (CtxErr_frame _ _ _ _ Hp)
     |intros w2 r2 w3 Hcall; apply (Hkeep _ _ _ _ _ Hcall)].
  cbn zeta. destruct (EnableMetrics (core.options l)).
  - unfold core.updateMetrics. rewrite bind_run. unfold loadMetrics.
    destruct (heap w1 !! core.metrics l) as [m|]; [|discriminate].
    destruct (time.add (TotalInvocations m) 1 =? 0); [discriminate|].
    rewrite bind_run. unfold Now, storeMetrics. intros [= _ <-]. exact Hheld.
  - rewrite ret_run. intros [= _ <-]. exact Hheld.
Qed.

(** X29.  [Invoke] under a concurrency limit.  With every slot held and
    never given back it blocks for ever under a context that is never
    done, and returns a nil result with the context's error, at the instant
    the context is done, otherwise.  With a free slot it takes the slot,
    invokes the Unit and gives the slot back, so that a function that
    leaves the semaphore alone leaves the number of held slots as it
    was. *)
Theorem Invoke_waits_for_a_slot reg inv (cap : Z) ctx name l input w :
  0 < cap ->
  invoker.Get reg name = Some l ->
  (cap <= held w -> releaseAt w = None -> context.doneAt ctx = None ->
     invoker.Invoke reg (invoker.WithConcurrency inv cap) ctx name input w = Blocked) /\
  (cap <= held w -> releaseAt w = None ->
     forall t, context.doneAt ctx = Some t ->
       exists e,
         context.Err ctx (Z.max (now w) t) = Some e /\
         invoker.Invoke reg (invoker.WithConcurrency inv cap) ctx name input w =
           Ok (None, Some e) (addLog EvDone (setNow (Z.max (now w) t) w))) /\
  (held w < cap -> context.doneAt ctx = None ->
     invoker.Invoke reg (invoker.WithConcurrency inv cap) ctx name input w =
       match core.Invoke l ctx input (addLog EvSlot (setHeld (held w + 1) w)) with
       | Ok r w2 => Ok r (setHeld (held w2 - 1) w2)
       | Blocked => Blocked
       | Panicked msg => Panicked msg
       end /\
     (samples.keepsHeld (core.invoke l) ->
      forall r w',
        invoker.Invoke reg (invoker.WithConcurrency inv cap) ctx name input w = Ok r w' ->
        held w' = held w)).
Proof.
  intros Hcap Hget. unfold invoker.Invoke, invoker.WithConcurrency. rewrite Hget.
  destruct (Z.ltb_spec 0 cap); [|lia]. cbn [invoker.semaphore].
  split; [|split].
  - intros Hfull Hrel Hnever. rewrite bind_run.
    unfold SelectSlotDone, doneReady. rewrite Hnever, Hrel.
    destruct (Z.ltb_spec (held w) cap); [lia|]. reflexivity.
  - intros Hfull Hrel t Hdone.
    destruct (Err_done ctx t (Z.max (now w) t) Hdone) as [e He]; [lia|].
    exists e. split; [exact He|]. rewrite bind_run.
    unfold SelectSlotDone, doneReady. rewrite Hdone, Hrel.
    destruct (Z.ltb_spec (held w) cap); [lia|]. cbn [fmap option_fmap option_map].
    rewrite bind_run. unfold CtxErrClosed. cbn [now addLog setNow]. rewrite He. reflexivity.
  - intros Hfree Hnever.
    assert (Hrun :
      (SelectSlotDone cap ctx ≫= fun acquired : bool =>
         if acquired
         then core.Invoke l ctx input ≫= fun r => ReleaseSlot ≫= fun _ => mret r
         else CtxErrClosed ctx ≫= fun e => mret (None, e)) w =
      match core.Invoke l ctx input (addLog EvSlot (setHeld (held w + 1) w)) with
      | Ok r w2 => Ok r (setHeld (held w2 - 1) w2)
      | Blocked => Blocked
      | Panicked msg => Panicked msg
      end).
    { rewrite bind_run. unfold SelectSlotDone, doneReady. rewrite Hnever.
      destruct (Z.ltb_spec (held w) cap); [|lia]. cbn [fmap option_fmap option_map].
      rewrite setNow_now, Z.min_r by lia. rewrite bind_run.
      destruct (core.Invoke l ctx input _) as [r w2| |]; [|reflexivity..].
      rewrite bind_run. unfold ReleaseSlot. reflexivity. }
    split; [exact Hrun|].
    intros Hkeep r w'. rewrite Hrun.
    destruct (core.Invoke l ctx input _) as [r2 w2| |] eqn:HI; try discriminate.
    intros [= _ <-]. apply (Invoke_held _ _ _ _ _ _ Hkeep) in HI.
    cbn [held setHeld addLog] in HI |- *. lia.
Qed.

Lemma batches_heads (batchSize : nat) (fuel : nat) :
  forall inputs inputs' : list I,
    length inputs = length inputs' ->
    (forall k, inputs !! (k * batchSize)%nat = inputs' !! (k * batchSize)%nat) ->
    Forall2 (fun batch batch' => head batch = head batch')
      (invoker.batches inputs batchSize fuel) (invoker.batches inputs' batchSize fuel).
Proof.
  induction fuel as [|fuel IH]; intros inputs inputs' Hlen Hsame; [constructor|].
  destruct inputs as [|x inputs], inputs' as [|x' inputs']; try discriminate;
    [constructor|].
  cbn [invoker.batches]. constructor.
  - rewrite !head_lookup. destruct batchSize as [|m]; [reflexivity|].
    rewrite !lookup_take_lt by lia. exact (Hsame 0%nat).
  - apply IH.
    + rewrite !length_drop, Hlen. reflexivity.
    + intros k. rewrite !lookup_drop.
      replace (batchSize + k * batchSize)%nat with (S k * batchSize)%nat by lia.
      apply Hsame.
Qed.

Lemma batchCall_head reg inv ctx name (batch batch' : list I) :
  head batch = head batch' ->
  invoker.batchCall (U:=U) (O:=O) reg inv ctx name batch
  = invoker.batchCall reg inv ctx name batch'.
Proof.
  destruct batch, batch'; intros [=]; [reflexivity|]. subst. reflexivity.
Qed.

Lemma Batch_run reg inv ctx name (inputs : list I) (batchSize : Z) w :
  invoker.Batch reg inv ctx name inputs batchSize w =
  match computed
          (GoAll (invoker.batchCall reg inv ctx name)
             (invoker.batches inputs
                (if batchSize <=? 0 then length inputs else Z.to_nat batchSize)
                (length inputs)) w) with
  | Ok results w1 => invoker.settle name (length results) results [] false None w1
  | Blocked => Blocked
  | Panicked msg => Panicked msg
  end.
Proof.
  unfold invoker.Batch. rewrite bind_run.
  destruct (GoAll _ _ w) as [finished w1| |]; [|reflexivity..].
  cbn [computed]. rewrite length_fmap. reflexivity.
Qed.

(** X30.  [Batch] reads only the first input of each batch: two slices of
    the same length that agree at the indices [0], [batchSize],
    [2 * batchSize], ... give the same run and the same results, whatever
    their other elements are, in whatever order the runtime lets the
    goroutines of the batches call and take the lock.  A [batchSize] that
    is not positive makes one batch of all the inputs. *)
Theorem Batch_reads_the_first_input_of_each_batch reg inv ctx name
    (inputs inputs' : list I) (batchSize : Z) :
  length inputs = length inputs' ->
  (forall k,
     inputs !! (k * (if (batchSize <=? 0)%Z then length inputs else Z.to_nat batchSize))%nat =
     inputs' !! (k * (if (batchSize <=? 0)%Z then length inputs else Z.to_nat batchSize))%nat) ->
  invoker.Batch reg inv ctx name inputs batchSize =
  invoker.Batch reg inv ctx name inputs' batchSize.
Proof.
  intros Hlen Hsame. apply functional_extensionality. intros w.
  rewrite !Batch_run. rewrite <- Hlen.
  pose proof (batches_heads _ (length inputs) inputs inputs' Hlen Hsame) as Hheads.
  unfold GoAll. rewrite <- (Forall2_length _ _ _ Hheads).
  rewrite (goAll_related _ (invoker.batchCall reg inv ctx name)
             (invoker.batchCall reg inv ctx name) _
             (batchCall_head reg inv ctx name) _ _ _ _ [] [] w Hheads eq_refl).
  reflexivity.
Qed.
End Concurrency.

(** ** Runs of the further properties *)

Section MoreWitnesses.
Import fixtures.

Lemma Unregister_removes_one_name_witness :
  registry.Unregister regDouble "math_double" = (registry.NewRegistry, true) /\
  registry.Get (registry.NewRegistry : registry.Registry unit Z Z) "math_double" = None /\
  registry.GetMeta (registry.NewRegistry : registry.Registry unit Z Z) "math_double" = None.
Proof.
  split; [vm_compute; reflexivity|].
  destruct (Unregister_removes_one_name regDouble "math_double" registry.NewRegistry true)
    as (_ & _ & Hget & Hmeta & _).
  - vm_compute; reflexivity.
  - split; [exact Hget|]. apply Hmeta. vm_compute. eauto.
Defined.

Lemma registry_stays_consistent_witness :
  registry.consistent (registry.NewRegistry : registry.Registry unit Z Z) /\
  registry.Register registry.NewRegistry (unitAt "math_double" double 1%positive) w0
    = Ok (regDouble, None) w0 /\
  registry.consistent regDouble.
Proof.
  destruct (registry_stays_consistent (U:=unit) (I:=Z) (O:=Z)) as [Hnew Hstep].
  split; [exact Hnew|]. split; [vm_compute; reflexivity|].
  destruct (Hstep registry.NewRegistry Hnew) as (Hreg & _).
  apply (Hreg (unitAt "math_double" double 1%positive) w0 regDouble None w0).
  vm_compute; reflexivity.
Defined.

Lemma Register_records_unit_and_metadata_witness :
  registry.Get (registry.NewRegistry : registry.Registry unit Z Z)
    (core.GetName (unitAt "math_double" double 1%positive)) = None /\
  exists r',
    registry.Register registry.NewRegistry (unitAt "math_double" double 1%positive) w0
      = Ok (r', None) w0 /\
    registry.Get r' "math_double" = Some (unitAt "math_double" double 1%positive) /\
    registry.GetMeta r' "math_double" = Some (mkMeta "math_double" "int" "int" "Lambda" 0).
Proof.
  split; [reflexivity|].
  destruct (Register_records_unit_and_metadata registry.NewRegistry
              (unitAt "math_double" double 1%positive) w0)
    as (r' & Hrun & Hget & Hmeta & _); [reflexivity|].
  exists r'. split; [exact Hrun|]. split; [exact Hget|exact Hmeta].
Defined.

Lemma getRegistry_finds_makes_or_panics_witness :
  (UserA, Int) <> (UserB, Int) /\
  registry.getRegistry ElModel UserA Int ∅ w0
  = Ok (<[registry.registryKey ElModel UserA Int
            := registry.mkAny ElModel UserA Int registry.NewRegistry]> ∅,
        registry.NewRegistry) w0 /\
  registry.getRegistry ElModel UserB Int
    (<[registry.registryKey ElModel UserB Int
         := registry.mkAny ElModel UserA Int registry.NewRegistry]> ∅) w0
  = Panicked "interface conversion".
Proof.
  split; [discriminate|]. split.
  - destruct (getRegistry_finds_makes_or_panics (U:=unit) ElModel ∅ UserA Int w0)
      as (H & _). apply H. reflexivity.
  - destruct (getRegistry_finds_makes_or_panics (U:=unit) ElModel
                (<[registry.registryKey ElModel UserB Int
                     := registry.mkAny ElModel UserA Int registry.NewRegistry]> ∅)
                UserB Int w0) as (_ & _ & H & _).
    destruct (H UserA Int registry.NewRegistry) as [Hpanic _].
    + apply lookup_insert_eq.
    + discriminate.
    + exact Hpanic.
Defined.

Lemma RegisterLambda_duplicate_keeps_first_witness :
  registry.Get
    (registry.stored El TInt TInt
       (<[registry.registryKey El TInt TInt := registry.mkAny El TInt TInt regDouble]> ∅))
    "math_double" = Some (unitAt "math_double" double 1%positive) /\
  exists w',
    registry.RegisterLambda El TInt TInt "math_double" (failOn 1) []
      (<[registry.registryKey El TInt TInt := registry.mkAny El TInt TInt regDouble]> ∅) w0
    = Ok (<[registry.registryKey El TInt TInt := registry.mkAny El TInt TInt regDouble]> ∅,
          Some (AlreadyRegistered "math_double")) w' /\
    registry.GetLambda El TInt TInt "math_double"
      (<[registry.registryKey El TInt TInt := registry.mkAny El TInt TInt regDouble]> ∅) w'
    = Ok (<[registry.registryKey El TInt TInt := registry.mkAny El TInt TInt regDouble]> ∅,
          Some (unitAt "math_double" double 1%positive)) w'.
Proof.
  assert (Hget : registry.Get
    (registry.stored El TInt TInt
       (<[registry.registryKey El TInt TInt := registry.mkAny El TInt TInt regDouble]> ∅))
    "math_double" = Some (unitAt "math_double" double 1%positive)).
  { rewrite stored_insert. reflexivity. }
  split; [exact Hget|].
  destruct (RegisterLambda_duplicate_keeps_first (U:=unit) El
              (<[registry.registryKey El TInt TInt
                   := registry.mkAny El TInt TInt regDouble]> ∅)
              TInt TInt "math_double" (failOn 1) []
              (unitAt "math_double" double 1%positive) w0)
    as (w' & Hrun & _ & Hfound).
  - exact Hget.
  - exists w'. split; [exact Hrun|exact Hfound].
Defined.

Lemma UnregisterLambda_frees_name_witness :
  exists g',
    registry.UnregisterLambda El TInt TInt "math_double"
      (<[registry.registryKey El TInt TInt := registry.mkAny El TInt TInt regDouble]> ∅) w0
    = Ok (g', true) w0 /\
    registry.Get (registry.stored El TInt TInt g') "math_double" = None /\
    exists g2 w2,
      registry.RegisterLambda El TInt TInt "math_double" (failOn 1) [] g' w0
      = Ok (g2, None) w2.
Proof.
  destruct (UnregisterLambda_frees_name (U:=unit) El
              (<[registry.registryKey El TInt TInt
                   := registry.mkAny El TInt TInt regDouble]> ∅)
              TInt TInt "math_double" (unitAt "math_double" double 1%positive) w0)
    as (g' & Hrun & Hnone & _ & Hagain).
  - rewrite stored_insert. reflexivity.
  - exists g'. split; [exact Hrun|]. split; [exact Hnone|]. apply Hagain.
Defined.

Lemma BuildLambda_materializes_witness :
  registry.available (U:=unit) El TInt TInt ∅ /\
  registry.Get
    (registry.stored (U:=unit) El TInt TInt ∅) "math_double" = None /\
  exists g1 g2,
    registry.RegisterLambdaWithConstructor El TInt TInt "math_double"
      (mret (unitAt "math_double" double 1%positive)) ∅ w0 = Ok g1 w0 /\
    registry.BuildLambda El TInt TInt "math_double" g1 w0
      = Ok (g2, (Some (unitAt "math_double" double 1%positive), None)) w0 /\
    registry.Get (registry.stored El TInt TInt g2) "math_double"
      = Some (unitAt "math_double" double 1%positive).
Proof.
  split; [apply available_empty|]. split; [reflexivity|].
  destruct (BuildLambda_materializes (U:=unit) El ∅
              TInt TInt "math_double" (mret (unitAt "math_double" double 1%positive)) w0)
    as [H _].
  destruct (H (available_empty El TInt TInt) eq_refl
              (unitAt "math_double" double 1%positive) w0 eq_refl eq_refl)
    as (g1 & g2 & Hreg & _ & Hbuild & Hget).
  exists g1, g2. split; [exact Hreg|]. split; [exact Hbuild|exact Hget].
Defined.

Lemma negative_retries_skip_the_function_witness :
  Retries (core.options
             (core.mkLambda "never" double (WithRetries (-1) DefaultOptions) 1%positive)) < 0 /\
  core.invokeWithRetry
    (core.mkLambda "never" double (WithRetries (-1) DefaultOptions) 1%positive)
    context.Background 21 w0
  = Ok (0, None) w0.
Proof.
  split; [reflexivity|].
  destruct (negative_retries_skip_the_function
              (core.mkLambda "never" double (WithRetries (-1) DefaultOptions) 1%positive)
              context.Background 21 w0) as [H _]; [reflexivity|exact H].
Defined.


Lemma double_keepsHeap : samples.keepsHeap double.
Proof. intros ctx input w r w' [= _ <-]. reflexivity. Defined.

Lemma Invoke_counts_the_call_witness :
  exists res w',
    core.Invoke (unitAt "math_double" double 1%positive) context.Background 21 w0
      = Ok (res, None) w' /\
    exists m',
      core.GetMetrics (unitAt "math_double" double 1%positive) w' = Ok m' w' /\
      TotalInvocations m' = 1 /\ SuccessInvocations m' = 1 /\ ErrorInvocations m' = 0.
Proof.
  eassert (H : core.Invoke (unitAt "math_double" double 1%positive)
                 context.Background 21 w0 = Ok (_, None) _)
    by (vm_compute; reflexivity).
  eexists _, _. split; [exact H|].
  match type of H with
  | _ = Ok (?r, ?e) ?w' =>
      destruct (Invoke_counts_the_call (unitAt "math_double" double 1%positive)
                  context.Background 21 w0 zeroMetrics r e w' double_keepsHeap)
        as (m' & Hget & Htotal & Hsucc & Herr & _);
        [reflexivity|reflexivity|vm_compute; discriminate|vm_compute; discriminate
        |reflexivity|reflexivity|vm_compute; discriminate|vm_compute; discriminate
        |reflexivity|exact H|]
  end.
  exists m'. split; [exact Hget|]. split; [exact Htotal|]. split; [exact Hsucc|exact Herr].
Defined.

Lemma NewLambda_allocates_its_own_statistics_witness :
  exists l1 w1 l2 w2,
    core.NewLambda "a" double [] w0 = Ok l1 w1 /\
    core.NewLambda "b" double [] w1 = Ok l2 w2 /\
    core.metrics l1 <> core.metrics l2 /\
    heap w1 !! core.metrics l1 = Some zeroMetrics.
Proof.
  eassert (H1 : core.NewLambda "a" double [] w0 = Ok _ _) by reflexivity.
  eassert (H2 : core.NewLambda "b" double [] _ = Ok _ _) by reflexivity.
  eexists _, _, _, _. split; [exact H1|]. split; [exact H2|].
  destruct (NewLambda_allocates_its_own_statistics _ _ _ _ _ _ _ _ _ _ _ H1 H2)
    as (_ & Hzero & Hne & _).
  split; [exact Hne|exact Hzero].
Defined.

Lemma WithOptions_shares_statistics_witness :
  exists res w',
    core.Invoke (core.WithOptions (unitAt "math_double" double 1%positive)
                   [WithRetries 2]) context.Background 21 w0
      = Ok (res, None) w' /\
    exists m',
      core.GetMetrics (unitAt "math_double" double 1%positive) w' = Ok m' w' /\
      TotalInvocations m' = 1.
Proof.
  eassert (H : core.Invoke (core.WithOptions (unitAt "math_double" double 1%positive)
                              [WithRetries 2]) context.Background 21 w0 = Ok (_, None) _)
    by (vm_compute; reflexivity).
  eexists _, _. split; [exact H|].
  match type of H with
  | _ = Ok (?r, ?e) ?w' =>
      destruct (WithOptions_shares_statistics (unitAt "math_double" double 1%positive)
                  [WithRetries 2] context.Background 21 w0 zeroMetrics r e w'
                  double_keepsHeap)
        as (_ & _ & m' & Hget & Htotal);
        [reflexivity|reflexivity|vm_compute; discriminate|vm_compute; discriminate
        |reflexivity|reflexivity|vm_compute; discriminate|vm_compute; discriminate
        |reflexivity|exact H|]
  end.
  exists m'. split; [exact Hget|exact Htotal].
Defined.

Lemma ValidateInput_guards_the_chain_witness :
  core.Execute
    (core.NewChain double
       [core.ValidateInput samples.errorf
          (fun x => mret (if x <? 0 then Some (UserError "negative") else None))])
    context.Background (-1) w0
  = Ok (0, Some (samples.errorf "input validation failed: %w"
                   (Some (UserError "negative")))) w0.
Proof.
  destruct (ValidateInput_guards_the_chain samples.errorf
              (fun x => mret (if x <? 0 then Some (UserError "negative") else None))
              double [] context.Background (-1) w0 w0) as [H _].
  apply H. reflexivity.
Defined.

Lemma TransformInput_feeds_the_rest_witness :
  core.Execute
    (core.NewChain double
       [core.TransformInput samples.errorf (fun x => mret (x + 1, None))])
    context.Background 20 w0
  = core.Execute (core.NewChain double []) context.Background 21 w0.
Proof.
  destruct (TransformInput_feeds_the_rest samples.errorf double [] context.Background 20 w0)
    as [H _].
  apply (H (fun x => mret (x + 1, None)) 21 w0). reflexivity.
Defined.

Lemma TransformOutput_maps_successes_witness :
  double context.Background 20 w0 = Ok (40, None) w0 /\
  core.Execute
    (core.NewChain double
       [core.TransformOutput samples.errorf (fun y => mret (y + 1, None));
        core.TransformOutput samples.errorf (fun y => mret (y * 3, None))])
    context.Background 20 w0
  = Ok (40 * 3 + 1, None) w0.
Proof.
  split; [reflexivity|].
  destruct (TransformOutput_maps_successes samples.errorf double context.Background 20 w0)
    as (_ & _ & H).
  apply (H (fun y => y + 1) (fun y => y * 3) 40 w0). reflexivity.
Defined.

Lemma cacheGet_pure i (w : World (gmap Z Z)) r w' :
  samples.cacheGet i w = Ok r w' -> w' = w.
Proof.
  unfold samples.cacheGet. destruct (user w !! i); intros [= _ <-]; reflexivity.
Defined.

Lemma cacheGet_cacheSet i o (w w' : World (gmap Z Z)) :
  samples.cacheSet i o w = Ok tt w' -> samples.cacheGet i w' = Ok (o, true) w'.
Proof.
  unfold samples.cacheSet, samples.cacheGet. intros [= <-]. cbn [user setUser].
  rewrite lookup_insert_eq. reflexivity.
Defined.

Lemma CacheOutput_answers_from_the_cache_witness :
  exists w1,
    core.CacheOutput samples.cacheGet samples.cacheSet context.Background 21
      samples.twice (samples.start ∅) = Ok (42, None) w1 /\
    core.CacheOutput samples.cacheGet samples.cacheSet context.Background 21
      samples.failing w1 = Ok (42, None) w1.
Proof.
  eassert (H : core.CacheOutput samples.cacheGet samples.cacheSet context.Background 21
                 samples.twice (samples.start ∅) = Ok (42, None) _)
    by (vm_compute; reflexivity).
  eexists. split; [exact H|].
  destruct (CacheOutput_answers_from_the_cache samples.cacheGet samples.cacheSet
              context.Background 21 samples.twice (samples.start ∅)) as (_ & _ & Hmemo).
  apply (Hmemo cacheGet_pure cacheGet_cacheSet 42 _ H).
Defined.

Lemma BeforeAfter_and_Metrics_observe_next_witness :
  core.BeforeAfter (Some (fun _ _ => record "before"))
    (Some (fun _ _ _ _ _ => record "after")) context.Background 21 double w0
  = Ok (42, None) (addLog (EvUser "after") (addLog (EvUser "before") w0)).
Proof.
  destruct (BeforeAfter_and_Metrics_observe_next context.Background 21 double w0)
    as (_ & H & _).
  apply (H (fun _ _ => record "before") (fun _ _ _ _ _ => record "after")
           (addLog (EvUser "before") w0) 42 None (addLog (EvUser "before") w0)
           (addLog (EvUser "after") (addLog (EvUser "before") w0)));
    reflexivity.
Defined.

Lemma twice_chain_keepsHeap :
  samples.keepsHeap (core.Execute (core.NewChain (samples.twice (U:=unit)) [])).
Proof.
  intros ctx input w r w' H. rewrite Execute_nil in H.
  injection H as _ <-. reflexivity.
Defined.

Lemma InvokeWithMiddleware_never_counts_witness :
  exists l w1 rs w2,
    core.NewLambdaWithMiddleware "mw" samples.twice [] w0 = Ok l w1 /\
    samples.burst 3 (core.InvokeWithMiddleware l context.Background 21) w1 = Ok rs w2 /\
    core.GetMetricsWithMiddleware l w2 = Ok zeroMetrics w2.
Proof.
  eassert (Hnew : core.NewLambdaWithMiddleware "mw" samples.twice [] w0 = Ok _ _)
    by (vm_compute; reflexivity).
  match type of Hnew with
  | _ = Ok ?l ?w1 =>
      eassert (Hrun : samples.burst 3 (core.InvokeWithMiddleware l context.Background 21) w1
                      = Ok _ _) by (vm_compute; reflexivity)
  end.
  eexists _, _, _, _. split; [exact Hnew|]. split; [exact Hrun|].
  destruct (InvokeWithMiddleware_never_counts "mw" samples.twice [] w0
              twice_chain_keepsHeap) as (l & w1 & Hnew' & _ & Hzero).
  rewrite Hnew in Hnew'. injection Hnew' as <- <-.
  apply (Hzero _ _ _ _ _ Hrun).
Defined.


Lemma RateLimit_admits_the_first_calls_of_a_burst_witness :
  samples.burst 3
    (core.RateLimit samples.errorf context.Background 21
       (fun _ i => mret (i * 2, None)))
    (samples.start (core.NewRateLimiter 2 10))
  = Ok [(42, None); (42, None); (0, Some (samples.errorf "rate limit exceeded" None))]
      (setUser (core.mkRateLimiter 2 10 [0; 0]) (samples.start (core.NewRateLimiter 2 10))).
Proof.
  apply (RateLimit_admits_the_first_calls_of_a_burst samples.errorf (fun i => i * 2)
           2 10 context.Background 21 3 (samples.start (core.NewRateLimiter 2 10)));
    reflexivity.
Defined.

Lemma CircuitBreaker_open_rejects_until_the_timeout_witness :
  core.CircuitBreakerMiddleware samples.errorf context.Background 21 samples.twice
    (samples.start (core.mkCircuitBreaker 1 10 0 core.CircuitOpen ∅))
  = Ok (0, Some (samples.errorf "circuit breaker is OPEN for input: %v" None))
      (samples.start (core.mkCircuitBreaker 1 10 0 core.CircuitOpen ∅)).
Proof.
  destruct (CircuitBreaker_open_rejects_until_the_timeout samples.errorf
              context.Background 21 samples.twice
              (samples.start (core.mkCircuitBreaker 1 10 0 core.CircuitOpen ∅)))
    as [H _]; [reflexivity|].
  apply H. vm_compute; discriminate.
Defined.

Lemma CircuitBreaker_opens_after_maxFailures_failures_witness :
  samples.burst 3
    (core.CircuitBreakerMiddleware samples.errorf context.Background 21
       (fun _ _ => mret (0, Some (UserError "boom"))))
    (samples.start (core.NewCircuitBreaker 2 10))
  = Ok [(0, Some (UserError "boom")); (0, Some (UserError "boom"));
        (0, Some (samples.errorf "circuit breaker is OPEN for input: %v" None))]
      (setUser (core.mkCircuitBreaker 2 10 0 core.CircuitOpen {[21 := 2]})
         (samples.start (core.NewCircuitBreaker 2 10))).
Proof.
  apply (CircuitBreaker_opens_after_maxFailures_failures samples.errorf 0
           (UserError "boom") context.Background 21 2 10 2
           (samples.start (core.NewCircuitBreaker 2 10)));
    [vm_compute; discriminate|lia|reflexivity|reflexivity].
Defined.

Lemma Pipeline_all_or_nothing_witness :
  exists slice w',
    invoker.Pipeline regDouble invoker.NewInvoker context.Background "math_double"
      [1; 2] w0 = Ok (slice, None) w' /\
    exists rs, slice = Some (Some <$> rs) /\ length rs = 2%nat.
Proof.
  eassert (H : invoker.Pipeline regDouble invoker.NewInvoker context.Background
                 "math_double" [1; 2] w0 = Ok (_, None) _)
    by (vm_compute; reflexivity).
  eexists _, _. split; [exact H|].
  destruct (Pipeline_all_or_nothing _ _ _ _ _ _ _ _ _ H)
    as [(_ & rs & Hslice & Hlen & _)|(_ & i & e & Herr & _)].
  - exists rs. split; [exact Hslice|exact Hlen].
  - discriminate Herr.
Defined.

Lemma Retry_gives_up_with_the_last_error_witness :
  invoker.Retry regDouble invoker.NewInvoker context.Background "math_double" 21 (-1) 5 w0
  = Ok (Some (mkResult 0 (Some (MaxRetriesExceeded None)) 0 0), None) w0.
Proof.
  destruct (Retry_gives_up_with_the_last_error regDouble invoker.NewInvoker
              context.Background "math_double" 21 (-1) 5 w0) as [H _].
  apply H. reflexivity.
Defined.

Lemma Invoke_waits_for_a_slot_witness :
  invoker.Get regDouble "math_double" = Some (unitAt "math_double" double 1%positive) /\
  invoker.Invoke regDouble (invoker.WithConcurrency invoker.NewInvoker 1)
    context.Background "math_double" 21 (setHeld 1 w0) = Blocked.
Proof.
  split; [reflexivity|].
  destruct (Invoke_waits_for_a_slot regDouble invoker.NewInvoker 1 context.Background
              "math_double" (unitAt "math_double" double 1%positive) 21 (setHeld 1 w0))
    as [H _]; [reflexivity|reflexivity|].
  apply H; [vm_compute; discriminate|reflexivity|reflexivity].
Defined.

Lemma Batch_reads_the_first_input_of_each_batch_witness :
  invoker.Batch regDouble invoker.NewInvoker context.Background "math_double"
    [1; 2; 3; 4] 2
  = invoker.Batch regDouble invoker.NewInvoker context.Background "math_double"
      [1; 9; 3; 9] 2.
Proof.
  apply Batch_reads_the_first_input_of_each_batch; [reflexivity|].
  intros [|[|k]]; reflexivity.
Defined.

(** The results of [Batch] come in the order in which the runtime lets the
    goroutines run: the batches of the inputs 1 and 3, of one input each,
    give the outputs 2 and 6 in this order or in the other. *)
Example Batch_results_in_either_order :
  (exists results w',
     invoker.Batch regDouble invoker.NewInvoker context.Background "math_double"
       [1; 3] 1 w0 = Ok (results, None) w' /\
     map (option_map Output) results = [Some 2; Some 6]) /\
  (exists results w',
     invoker.Batch regDouble invoker.NewInvoker context.Background "math_double"
       [1; 3] 1 (setSched [false] w0) = Ok (results, None) w' /\
     map (option_map Output) results = [Some 6; Some 2]).
Proof.
  split; eexists _, _; (split; [vm_compute; reflexivity|reflexivity]).
Qed.

End MoreWitnesses.
